(** * The task pipeline of [data_pipeline.py]: ordering, gating, retries

    A shallow embedding of [Task], [DAGRun] and [Pipeline] (with
    [add_task], [_get_execution_order] and [run]), of
    [create_daily_pipeline], [DataStore.save_pipeline_run] and the
    [Scheduler] (with [register_pipeline] and [run_pipeline]), and the
    properties of the execution engine.

    Modelling choices, all taken from the Python source:
    - [Task] objects are mutable and reached through references, so they
      live in a [Heap] of cells; [Pipeline.tasks] and [DAGRun.tasks] are
      insertion-ordered dicts from task id to the address of a [Task].
    - a task body ([Task.callable]) is opaque: it receives the static
      arguments, the shared context dict and the outside world, and either
      returns a payload or raises an [Exception] whose [str] is a text; it
      may change the context dict (it is passed by reference) and the world.
      An exception that is not an [Exception] (such as [KeyboardInterrupt])
      is not caught by [run] and is not modelled.
    - [datetime.now()] reads a clock that belongs to the world.
    - what [print] writes is kept as a list of events, oldest first; the
      line [Running ... (attempt k/n)] is written right before each
      invocation of a body, so it counts the invocations.
    - the only exception the engine itself can raise is the [KeyError] of a
      failed dict subscript; the recursion limit of the interpreter is not
      modelled.
    - of the database only the table [pipeline_runs] is modelled, as a map
      from its primary key [run_id] to the rest of the row, with the
      [results] column kept as the dict that is serialised; errors of the
      database itself are not modelled.
    - the scheduler holds its pipelines by value: [run_pipeline] puts the
      pipeline back under its key with the run appended, which is what the
      in-place [runs.append] does to the object the scheduler refers to.
    - the four task functions of the daily pipeline (network, floats,
      database) and the loop under [__main__] are not modelled. *)

From Stdlib Require Import ZArith Lia.
From stdpp Require Import base option list strings gmap sets relations.

Open Scope Z_scope.
Open Scope nat_scope.

Set Warnings "-clear-no-such-hyp".
Set Default Proof Using "Type".

(** ** Data model *)

Inductive TaskStatus := PENDING | RUNNING | SUCCESS | FAILED | SKIPPED.

#[global] Instance TaskStatus_eq_dec : EqDecision TaskStatus.
Proof. solve_decision. Defined.

Definition Time := nat.

(** What [print] wrote, one constructor per [print] call of [run]. *)
Inductive Event :=
| PrintStarting (dag : string)
| PrintOrder (order : list string)
| PrintSkipping (tid : string)
| PrintRunning (tid : string) (attempt : Z) (of_retries : Z)
| PrintCompleted (tid : string)
| PrintRetrying (tid : string)
| PrintFailed (tid : string) (e : string).

Inductive Exn := KeyError (k : string).

Inductive Completion (A : Type) :=
| Returned (a : A)
| Raised (e : Exn).
Arguments Returned {A} a.
Arguments Raised {A} e.

(** An insertion-ordered Python dict with string keys. *)
Definition dict (V : Type) := list (string * V).

Fixpoint dict_get {V} (k : string) (d : dict V) : option V :=
  match d with
  | [] => None
  | (k', v) :: d' => if decide (k = k') then Some v else dict_get k d'
  end.

(** [d[k] = v]: an existing key keeps its position. *)
Fixpoint dict_set {V} (k : string) (v : V) (d : dict V) : dict V :=
  match d with
  | [] => [(k, v)]
  | (k', v') :: d' =>
      if decide (k = k') then (k, v) :: d' else (k', v') :: dict_set k v d'
  end.

Definition keys {V} (d : dict V) : list string := d.*1.
Definition values {V} (d : dict V) : list V := d.*2.

Section Engine.

Context {Value Arg World : Type}.

(** [datetime.now()] and [strftime('%Y%m%d_%H%M%S')]. *)
Variable now : World -> Time * World.
Variable strftime : Time -> string.

(** The result of one invocation of a task body. *)
Inductive Outcome :=
| Return (r : option Value)
| Raise (e : string).

Definition Callable : Type :=
  list Arg -> list (string * Arg) -> gmap string Value -> World ->
  Outcome * gmap string Value * World.

Record Task := mkTask {
  task_id : string;
  callable : Callable;
  args : list Arg;
  kwargs : list (string * Arg);
  dependencies : list string;
  retries : Z;
  retry_delay : Z;
  status : TaskStatus;
  result : option Value;
  error : option string;
  started_at : option Time;
  completed_at : option Time
}.

Definition with_status (s : TaskStatus) (t : Task) : Task :=
  mkTask (task_id t) (callable t) (args t) (kwargs t) (dependencies t)
         (retries t) (retry_delay t) s (result t) (error t)
         (started_at t) (completed_at t).

Definition with_result (r : option Value) (t : Task) : Task :=
  mkTask (task_id t) (callable t) (args t) (kwargs t) (dependencies t)
         (retries t) (retry_delay t) (status t) r (error t)
         (started_at t) (completed_at t).

Definition with_error (e : option string) (t : Task) : Task :=
  mkTask (task_id t) (callable t) (args t) (kwargs t) (dependencies t)
         (retries t) (retry_delay t) (status t) (result t) e
         (started_at t) (completed_at t).

Definition with_started_at (ts : option Time) (t : Task) : Task :=
  mkTask (task_id t) (callable t) (args t) (kwargs t) (dependencies t)
         (retries t) (retry_delay t) (status t) (result t) (error t)
         ts (completed_at t).

Definition with_completed_at (ts : option Time) (t : Task) : Task :=
  mkTask (task_id t) (callable t) (args t) (kwargs t) (dependencies t)
         (retries t) (retry_delay t) (status t) (result t) (error t)
         (started_at t) ts.

(** The object store: a reference is an address, every address below
    [next] has been allocated. *)
Record Heap := mkHeap {
  cells : nat -> Task;
  next : nat
}.

Definition alloc (t : Task) (h : Heap) : Heap * nat :=
  (mkHeap (fun a => if decide (a = next h) then t else cells h a) (S (next h)),
   next h).

Definition store (a : nat) (t : Task) (h : Heap) : Heap :=
  mkHeap (fun b => if decide (b = a) then t else cells h b) (next h).

Record DAGRun := mkDAGRun {
  run_id : string;
  run_dag_id : string;
  start_time : Time;
  end_time : option Time;
  run_status : TaskStatus;
  run_tasks : dict nat
}.

Record Pipeline := mkPipeline {
  dag_id : string;
  tasks : dict nat;
  runs : list DAGRun
}.

(** [Pipeline(dag_id)] *)
Definition new_pipeline (dag : string) : Pipeline := mkPipeline dag [] [].

(** The keyword arguments [add_task] forwards to [Task(...)]. *)
Record TaskOptions := mkOptions {
  opt_args : list Arg;
  opt_kwargs : list (string * Arg);
  opt_retries : Z;
  opt_retry_delay : Z;
  opt_status : TaskStatus;
  opt_result : option Value;
  opt_error : option string;
  opt_started_at : option Time;
  opt_completed_at : option Time
}.

Definition default_options : TaskOptions :=
  mkOptions [] [] 3%Z 60%Z PENDING None None None None.

Definition add_task (tid : string) (body : Callable)
    (deps : option (list string)) (o : TaskOptions)
    (p : Pipeline) (h : Heap) : Pipeline * Heap :=
  let task :=
    mkTask tid body (opt_args o) (opt_kwargs o) (default [] deps)
           (opt_retries o) (opt_retry_delay o) (opt_status o) (opt_result o)
           (opt_error o) (opt_started_at o) (opt_completed_at o) in
  let '(h', a) := alloc task h in
  (mkPipeline (dag_id p) (dict_set tid a (tasks p)) (runs p), h').

(** ** [_get_execution_order] *)

(** A [for] loop whose body may fail to produce a state. *)
Definition for_each {S A : Type} (f : A -> S -> option S)
    : list A -> S -> option S :=
  fix go (l : list A) (s : S) : option S :=
    match l with
    | [] => Some s
    | x :: r => match f x s with
                | Some s' => go r s'
                | None => None
                end
    end.

(** The nested [visit]; the state is ([visited], [order]).  The recursion is
    not structural, so it is bounded by [fuel]: [None] means the bound was
    too small, and [visit_enough_fuel] shows that it never is in
    [_get_execution_order]. *)
Fixpoint visit (fuel : nat) (h : Heap) (ts : dict nat) (tid : string)
    (s : gset string * list string) : option (gset string * list string) :=
  match fuel with
  | O => None
  | S fuel' =>
      if decide (tid ∈ s.1) then Some s
      else
        let visited := {[tid]} ∪ s.1 in
        match dict_get tid ts with
        | None => Some (visited, s.2)
        | Some a =>
            match for_each (visit fuel' h ts) (dependencies (cells h a))
                           (visited, s.2) with
            | Some s' => Some (s'.1, s'.2 ++ [tid])
            | None => None
            end
        end
  end.

Definition _get_execution_order (p : Pipeline) (h : Heap)
    : option (list string) :=
  match for_each (visit (S (length (tasks p))) h (tasks p)) (keys (tasks p))
                 (∅, []) with
  | Some s => Some s.2
  | None => None
  end.

(** ** [run] *)

Record St := mkSt {
  heap : Heap;
  context : gmap string Value;
  world : World;
  stdout : list Event
}.

Definition print (e : Event) (st : St) : St :=
  mkSt (heap st) (context st) (world st) (stdout st ++ [e]).

(** Control comes back from a task body, which may have changed the
    context dict and the world. *)
Definition resume (c : gmap string Value) (w : World) (st : St) : St :=
  mkSt (heap st) c w (stdout st).

(** [task.field = v] for the task object at address [a]. *)
Definition update (a : nat) (f : Task -> Task) (st : St) : St :=
  mkSt (store a (f (cells (heap st) a)) (heap st))
       (context st) (world st) (stdout st).

(** [task.field = datetime.now()] *)
Definition stamp (a : nat) (f : option Time -> Task -> Task) (st : St) : St :=
  let '(t, w) := now (world st) in
  update a (f (Some t)) (mkSt (heap st) (context st) w (stdout st)).

(** The dict comprehension of [run]: every registered [Task] is copied
    field by field into a new object, under the same key and in the same
    order. *)
Fixpoint copy_tasks (items : dict nat) (h : Heap) : Heap * dict nat :=
  match items with
  | [] => (h, [])
  | (k, a) :: items' =>
      let '(h1, a') := alloc (cells h a) h in
      let '(h2, d) := copy_tasks items' h1 in
      (h2, (k, a') :: d)
  end.

(** [all(dag_run.tasks[dep].status == SUCCESS for dep in deps)]: the
    generator is consumed lazily, so the first dependency that is not
    [SUCCESS] ends the scan. *)
Fixpoint deps_success (d : dict nat) (h : Heap) (deps : list string)
    : Completion bool :=
  match deps with
  | [] => Returned true
  | dep :: deps' =>
      match dict_get dep d with
      | None => Raised (KeyError dep)
      | Some a =>
          if decide (status (cells h a) = SUCCESS)
          then deps_success d h deps'
          else Returned false
      end
  end.

(** [for attempt in range(task.retries)], with [n] iterations left. *)
Fixpoint attempts (n : nat) (attempt : Z) (tid : string) (a : nat) (st : St)
    : St :=
  match n with
  | O => st
  | S n' =>
      let task := cells (heap st) a in
      let st := print (PrintRunning tid (attempt + 1) (retries task)) st in
      match callable task (args task) (kwargs task) (context st) (world st) with
      | (Return r, c, w) =>
          let st := resume c w st in
          let st := update a (with_result r) st in
          let st := update a (with_status SUCCESS) st in
          let st := stamp a with_completed_at st in
          print (PrintCompleted tid) st
      | (Raise e, c, w) =>
          let st := resume c w st in
          let st := update a (with_error (Some e)) st in
          if (attempt <? retries (cells (heap st) a) - 1)%Z
          then attempts n' (attempt + 1)%Z tid a (print (PrintRetrying tid) st)
          else
            let st := update a (with_status FAILED) st in
            let st := stamp a with_completed_at st in
            attempts n' (attempt + 1)%Z tid a (print (PrintFailed tid e) st)
      end
  end.

(** One iteration of [for task_id in execution_order]. *)
Definition run_task (d : dict nat) (tid : string) (st : St)
    : Completion unit * St :=
  match dict_get tid d with
  | None => (Raised (KeyError tid), st)
  | Some a =>
      match deps_success d (heap st) (dependencies (cells (heap st) a)) with
      | Raised e => (Raised e, st)
      | Returned false =>
          let st := update a (with_status SKIPPED) st in
          (Returned (), print (PrintSkipping tid) st)
      | Returned true =>
          let st := update a (with_status RUNNING) st in
          let st := stamp a with_started_at st in
          (Returned (),
           attempts (Z.to_nat (retries (cells (heap st) a))) 0%Z tid a st)
      end
  end.

Fixpoint run_loop (d : dict nat) (order : list string) (st : St)
    : Completion unit * St :=
  match order with
  | [] => (Returned (), st)
  | tid :: order' =>
      match run_task d tid st with
      | (Returned _, st') => run_loop d order' st'
      | (Raised e, st') => (Raised e, st')
      end
  end.

(** [all(t.status in [SUCCESS, SKIPPED] for t in dag_run.tasks.values())] *)
Definition all_success_or_skipped (d : dict nat) (h : Heap) : bool :=
  forallb (fun a => bool_decide (status (cells h a) = SUCCESS)
                    || bool_decide (status (cells h a) = SKIPPED))
          (values d).

(** [_get_execution_order] as [run] calls it; the [None] branch is never
    taken ([execution_order_total]). *)
Definition execution_order (p : Pipeline) (h : Heap) : list string :=
  default [] (_get_execution_order p h).

Definition run (p : Pipeline) (ctx : option (gmap string Value))
    (h : Heap) (w : World) (out : list Event)
    : Completion (Pipeline * DAGRun) * St :=
  let '(t0, w) := now w in
  let rid := dag_id p +:+ "_" +:+ strftime t0 in
  let '(t1, w) := now w in
  let '(h, d) := copy_tasks (tasks p) h in
  let order := execution_order p h in
  let c := default ∅ ctx in
  let st := mkSt h c w (out ++ [PrintStarting (dag_id p); PrintOrder order]) in
  match run_loop d order st with
  | (Raised e, st) => (Raised e, st)
  | (Returned _, st) =>
      let '(t2, w) := now (world st) in
      let r := mkDAGRun rid (dag_id p) t1 (Some t2)
                 (if all_success_or_skipped d (heap st) then SUCCESS else FAILED)
                 d in
      (Returned (mkPipeline (dag_id p) (tasks p) (runs p ++ [r]), r),
       mkSt (heap st) (context st) w (stdout st))
  end.

(** ** The dependency graph of a pipeline *)

Definition registered (ts : dict nat) (x : string) : Prop := x ∈ keys ts.

(** The dependency ids of [x], read from its registered definition. *)
Definition deps_of (ts : dict nat) (h : Heap) (x : string) : list string :=
  match dict_get x ts with
  | Some a => dependencies (cells h a)
  | None => []
  end.

Definition depends_on (ts : dict nat) (h : Heap) : relation string :=
  fun x d => d ∈ deps_of ts h x.

Definition acyclic (ts : dict nat) (h : Heap) : Prop :=
  ∀ x, ¬ tc (depends_on ts h) x x.

Definition deps_registered (ts : dict nat) (h : Heap) : Prop :=
  ∀ x d, depends_on ts h x d → registered ts d.

(** [d] stands at an earlier position of [o] than [x]. *)
Definition before (o : list string) (d x : string) : Prop :=
  ∃ i j, o !! i = Some d ∧ o !! j = Some x ∧ i < j.

(** The invariant of the traversal: [S] is the stack of the ids whose
    [visit] is in progress, [s] the pair ([visited], [order]). *)
Definition visit_inv (ts : dict nat) (h : Heap) (S : list string)
    (s : gset string * list string) : Prop :=
  NoDup s.2 ∧
  (∀ y, y ∈ s.2 ↔ y ∈ s.1 ∧ registered ts y ∧ y ∉ S) ∧
  (∀ y, y ∈ S → y ∈ s.1) ∧
  (∀ j x, s.2 !! j = Some x → ∀ d, depends_on ts h x d → registered ts d →
     (∃ i, i < j ∧ s.2 !! i = Some d) ∨ rtc (depends_on ts h) d x).

Definition visit_ok (ts : dict nat) (h : Heap) (fuel : nat) : Prop :=
  ∀ x S s s',
    visit_inv ts h S s → (∀ y, y ∈ S → tc (depends_on ts h) y x) →
    visit fuel h ts x s = Some s' →
    visit_inv ts h S s' ∧ s.1 ⊆ s'.1 ∧ x ∈ s'.1.

(** ** Reading a run *)

(** The fields of a [Task] that [run] never assigns. *)
Definition same_def (t t' : Task) : Prop :=
  task_id t = task_id t' ∧ callable t = callable t' ∧ args t = args t' ∧
  kwargs t = kwargs t' ∧ dependencies t = dependencies t' ∧
  retries t = retries t' ∧ retry_delay t = retry_delay t'.

(** The task object a dict holds for the id [x]. *)
Definition task_of (d : dict nat) (h : Heap) (x : string) : option Task :=
  cells h <$> dict_get x d.

Definition status_of (d : dict nat) (h : Heap) (x : string)
    : option TaskStatus :=
  status <$> task_of d h x.

(** Every reference of the dict points to an allocated object. *)
Definition valid_refs (d : dict nat) (h : Heap) : Prop :=
  Forall (fun kv => kv.2 < next h) d.

(** Two ids never share a task object. *)
Definition dict_inj (d : dict nat) : Prop :=
  ∀ k1 k2 a, dict_get k1 d = Some a → dict_get k2 d = Some a → k1 = k2.

(** The events that one invocation of the body of [x] leaves behind. *)
Definition is_running (x : string) (e : Event) : bool :=
  match e with
  | PrintRunning y _ _ => bool_decide (x = y)
  | _ => false
  end.

(** The number of invocations of the body of [x] that a log records. *)
Definition attempt_count (x : string) (log : list Event) : nat :=
  length (filter (fun e => is_running x e = true) log).

(** The events that report a failed invocation of the body of [x]. *)
Definition is_failure (x : string) (e : Event) : bool :=
  match e with
  | PrintRetrying y | PrintFailed y _ => bool_decide (x = y)
  | _ => false
  end.

(** The id an event is about. *)
Definition event_task (e : Event) : option string :=
  match e with
  | PrintStarting _ | PrintOrder _ => None
  | PrintSkipping x | PrintRunning x _ _ | PrintCompleted x
  | PrintRetrying x | PrintFailed x _ => Some x
  end.

(** [n] invocations in a row, starting from the context [c] and the world
    [w], all raise; the result is the text of the last one. *)
Fixpoint last_failure (n : nat)
    (body : gmap string Value -> World -> Outcome * gmap string Value * World)
    (c : gmap string Value) (w : World) : option string :=
  match n with
  | O => None
  | S n' =>
      match body c w with
      | (Raise e, c', w') =>
          match n' with
          | O => Some e
          | S _ => last_failure n' body c' w'
          end
      | (Return _, _, _) => None
      end
  end.

(** What one iteration of the task loop does to the task object [a] of
    its id [tid]: either the gate fails and the task is skipped, or the
    gate passes and the retry loop runs. *)
Definition task_step (d : dict nat) (tid : string) (a : nat) (st st' : St)
    (evs : list Event) : Prop :=
  let t := cells (heap st) a in
  let t' := cells (heap st') a in
  stdout st' = stdout st ++ evs ∧
  Forall (fun e => event_task e = Some tid) evs ∧
  (((∃ dep s, dep ∈ dependencies t ∧ status_of d (heap st) dep = Some s ∧
              s ≠ SUCCESS) ∧
    status t' = SKIPPED ∧ error t' = error t ∧ evs = [PrintSkipping tid])
   ∨
   ((∀ dep, dep ∈ dependencies t → status_of d (heap st) dep = Some SUCCESS) ∧
    (status t' = RUNNING ∨ status t' = SUCCESS ∨ status t' = FAILED) ∧
    ((0 < retries t)%Z → status t' = SUCCESS ∨ status t' = FAILED) ∧
    (status t' = FAILED → is_Some (error t')) ∧
    (existsb (is_failure tid) evs = false → error t' = error t) ∧
    (existsb (is_failure tid) evs = true → is_Some (error t')))).

(** The invariant of the task loop.  [h1] and [out0] are the heap and the
    output when the loop starts, [done] the ids that had their iteration. *)
Definition base_inv (d : dict nat) (h1 : Heap) (out0 : list Event)
    (done : list string) (st : St) : Prop :=
  next (heap st) = next h1 ∧
  (∀ b, same_def (cells (heap st) b) (cells h1 b)) ∧
  (∀ b, (∀ x, x ∈ done → dict_get x d ≠ Some b) →
        cells (heap st) b = cells h1 b) ∧
  ∃ new,
    stdout st = out0 ++ new ∧
    Forall (fun e => ∃ x, event_task e = Some x ∧ x ∈ done) new ∧
    ∀ x a, x ∈ done → dict_get x d = Some a →
      status (cells (heap st) a) ≠ PENDING ∧
      (status (cells (heap st) a) = SKIPPED →
         attempt_count x new = 0 ∧ existsb (is_failure x) new = false) ∧
      (status (cells (heap st) a) = FAILED →
         is_Some (error (cells (heap st) a))) ∧
      ((0 < retries (cells h1 a))%Z →
         status (cells (heap st) a) = SUCCESS
         ∨ status (cells (heap st) a) = FAILED
         ∨ status (cells (heap st) a) = SKIPPED) ∧
      (existsb (is_failure x) new = false →
         error (cells (heap st) a) = error (cells h1 a)) ∧
      (existsb (is_failure x) new = true →
         is_Some (error (cells (heap st) a))) ∧
      ((∃ dep, dep ∈ dependencies (cells h1 a) ∧ dict_get dep d = None) →
         status (cells (heap st) a) = SKIPPED).

(** The gating part of the invariant: a task that had its iteration is
    [SKIPPED] exactly when one of its dependencies is not [SUCCESS], and a
    task on a dependency cycle is [SKIPPED]. *)
Definition gate_inv (d : dict nat) (h1 : Heap) (done : list string)
    (st : St) : Prop :=
  ∀ x a, x ∈ done → dict_get x d = Some a →
    (status (cells (heap st) a) = SKIPPED
     ↔ ∃ dep, dep ∈ dependencies (cells h1 a) ∧
              status_of d (heap st) dep ≠ Some SUCCESS) ∧
    (tc (depends_on d h1) x x → status (cells (heap st) a) = SKIPPED).

(** A task whose body hands the context dict back as it received it. *)
Definition keeps_context (t : Task) : Prop :=
  ∀ a k c w, (callable t a k c w).1.2 = c.

(** The execution fields of a definition as [add_task] leaves them when
    no keyword argument sets them. *)
Definition fresh_defs (ts : dict nat) (h : Heap) : Prop :=
  ∀ x a, dict_get x ts = Some a →
    status (cells h a) = PENDING ∧ result (cells h a) = None ∧
    error (cells h a) = None ∧ started_at (cells h a) = None ∧
    completed_at (cells h a) = None.

(** ** Further readings of a run *)

(** The retry loop as a function of the body: with [n] invocations left,
    starting from the context [c] and the world [w], the body first returns
    at its [k]-th invocation, with the payload [r]; the third component is
    the text of the last failure before that, if there was one. *)
Fixpoint first_success (n : nat)
    (body : gmap string Value -> World -> Outcome * gmap string Value * World)
    (c : gmap string Value) (w : World)
    : option (nat * option Value * option string) :=
  match n with
  | O => None
  | S n' =>
      match body c w with
      | (Return r, _, _) => Some (1, r, None)
      | (Raise e, c', w') =>
          match first_success n' body c' w' with
          | Some (k, r, None) => Some (S k, r, Some e)
          | Some (k, r, Some e') => Some (S k, r, Some e')
          | None => None
          end
      end
  end.

(** The task [x], whose object is [a], had its iteration of the task loop:
    it started in a state [s1] in which the object was still as in [h0],
    nothing has assigned to the object since it ended, and the invocations
    of the body of [x] that the whole output records are those of that
    iteration. *)
Definition stepped (d : dict nat) (h0 : Heap) (out0 : list Event) (st : St)
    (x : string) (a : nat) : Prop :=
  ∃ s1 s2,
    run_task d x s1 = (Returned (), s2) ∧
    cells (heap s1) a = cells h0 a ∧
    cells (heap st) a = cells (heap s2) a ∧
    ∀ new evs, stdout st = out0 ++ new → stdout s2 = stdout s1 ++ evs →
               attempt_count x new = attempt_count x evs.

Definition steps_inv (d : dict nat) (h0 : Heap) (out0 : list Event)
    (done : list string) (st : St) : Prop :=
  ∀ x a, x ∈ done → dict_get x d = Some a → stepped d h0 out0 st x a.

(** ** [create_daily_pipeline] *)

(** The four task functions fetch from the network, compute on floats and
    write to the database; here they are the four callables handed in. *)
Definition create_daily_pipeline
    (fetch_earnings_task calculate_metrics_task store_results_task
       generate_alerts_task : Callable)
    (tickers : Arg) (h : Heap) : Pipeline * Heap :=
  let p := new_pipeline "daily_earnings_update" in
  let '(p, h) :=
    add_task "fetch_earnings" fetch_earnings_task None
      (mkOptions [tickers] [] 3%Z 60%Z PENDING None None None None) p h in
  let '(p, h) :=
    add_task "calculate_metrics" calculate_metrics_task
      (Some ["fetch_earnings"]) default_options p h in
  let '(p, h) :=
    add_task "store_results" store_results_task
      (Some ["calculate_metrics"]) default_options p h in
  add_task "generate_alerts" generate_alerts_task
    (Some ["calculate_metrics"]) default_options p h.

(** ** [DataStore.save_pipeline_run] *)

(** [datetime.isoformat()] *)
Variable isoformat : Time -> string.

(** [TaskStatus.value] *)
Definition status_value (s : TaskStatus) : string :=
  match s with
  | PENDING => "pending"
  | RUNNING => "running"
  | SUCCESS => "success"
  | FAILED => "failed"
  | SKIPPED => "skipped"
  end.

(** One entry of the [results] dict of a saved run. *)
Record TaskRow := mkTaskRow {
  row_status : string;
  row_error : option string;
  row_started_at : option string;
  row_completed_at : option string
}.

(** A row of the table [pipeline_runs], without its primary key [run_id].
    The column [results] holds the dict that [json.dumps] serialises. *)
Record RunRow := mkRunRow {
  col_dag_id : string;
  col_status : string;
  col_start_time : string;
  col_end_time : option string;
  col_results : dict TaskRow
}.

(** A [datetime] is always true, so [x.isoformat() if x else None] tells
    a timestamp from [None]. *)
Definition task_row (t : Task) : TaskRow :=
  mkTaskRow (status_value (status t)) (error t)
            (isoformat <$> started_at t) (isoformat <$> completed_at t).

(** The dict comprehension over [dag_run.tasks.items()]. *)
Definition results_of (d : dict nat) (h : Heap) : dict TaskRow :=
  foldl (fun acc kv => dict_set kv.1 (task_row (cells h kv.2)) acc) [] d.

(** [INSERT OR REPLACE INTO pipeline_runs]: the table is a map from its
    primary key [run_id] to the rest of the row. *)
Definition save_pipeline_run (r : DAGRun) (h : Heap)
    (db : gmap string RunRow) : gmap string RunRow :=
  <[run_id r := mkRunRow (run_dag_id r) (status_value (run_status r))
                  (isoformat (start_time r)) (isoformat <$> end_time r)
                  (results_of (run_tasks r) h)]> db.

(** ** [Scheduler] *)

Record Schedule := mkSchedule {
  cron : string;
  last_run : option Time
}.

Record Scheduler := mkScheduler {
  pipelines : dict Pipeline;
  schedules : dict Schedule
}.

(** [Scheduler()] *)
Definition new_scheduler : Scheduler := mkScheduler [] [].

(** [if cron:] is false for [None] and for the empty string. *)
Definition register_pipeline (p : Pipeline) (cr : option string)
    (s : Scheduler) : Scheduler :=
  let ps := dict_set (dag_id p) p (pipelines s) in
  match cr with
  | None => mkScheduler ps (schedules s)
  | Some c =>
      if decide (c = "") then mkScheduler ps (schedules s)
      else mkScheduler ps
             (dict_set (dag_id p) (mkSchedule c None) (schedules s))
  end.

(** What [run_pipeline] can raise: its own [ValueError], or what came out
    of [Pipeline.run]. *)
Inductive Error :=
| ValueError (msg : string)
| RunError (e : Exn).

Inductive Result (A : Type) :=
| Ok (a : A)
| Err (e : Error).
Arguments Ok {A} a.
Arguments Err {A} e.

(** [run_pipeline]; [db] is the table [pipeline_runs] of the database
    file.  [Pipeline.run] appends to the [runs] of the pipeline object the
    scheduler holds, so the pipeline is put back under its key. *)
Definition run_pipeline (dag : string) (ctx : option (gmap string Value))
    (s : Scheduler) (h : Heap) (w : World) (out : list Event)
    (db : gmap string RunRow)
    : Result DAGRun * Scheduler * St * gmap string RunRow :=
  match dict_get dag (pipelines s) with
  | None =>
      (Err (ValueError ("Pipeline " +:+ dag +:+ " not found")), s,
       mkSt h (default ∅ ctx) w out, db)
  | Some p =>
      match run p ctx h w out with
      | (Raised e, st) => (Err (RunError e), s, st, db)
      | (Returned (p', r), st) =>
          (Ok r, mkScheduler (dict_set dag p' (pipelines s)) (schedules s),
           st, save_pipeline_run r (heap st) db)
      end
  end.

(** Every schedule belongs to a registered pipeline, has a cron text that
    is not empty, and has never been marked as run. *)
Definition scheduler_inv (s : Scheduler) : Prop :=
  ∀ k sc, dict_get k (schedules s) = Some sc →
    is_Some (dict_get k (pipelines s)) ∧ cron sc ≠ "" ∧ last_run sc = None.


(** The schedulers that calls of [register_pipeline] and [run_pipeline]
    can make of a new [Scheduler], whatever happens to the heap, the clock,
    the output and the database in between. *)
Inductive reachable : Scheduler -> Prop :=
| reach_new : reachable new_scheduler
| reach_register p cr s :
    reachable s -> reachable (register_pipeline p cr s)
| reach_run dag ctx s h w out db :
    reachable s -> reachable (run_pipeline dag ctx s h w out db).1.1.2.


End Engine.

Arguments Ok {A} a.
Arguments Err {A} e.

(** * Concrete pipelines

    Payloads are numbers, the world is a clock that [datetime.now()]
    advances, and bodies are small closures. *)

Definition Body : Type := @Callable nat nat nat.

Definition clock (w : nat) : Time * nat := (w, S w).

Definition stamp_text (t : Time) : string := "19700101_000000".

(** [lambda context: v] *)
Definition returns (v : nat) : Body :=
  fun _ _ c w => (Return (Some v), c, w).

(** A body that raises [Exception(msg)] at every invocation. *)
Definition raises (msg : string) : Body :=
  fun _ _ c w => (Raise msg, c, w).

(** [lambda context: context.get(k)], the way the pre-built task
    functions read the result of an upstream task. *)
Definition reads (k : string) : Body :=
  fun _ _ c w => (Return (c !! k), c, w).

(** A body that raises [first] at its first invocation, noting in the
    context that it was tried, and returns [v] afterwards. *)
Definition flaky (first : string) (v : nat) : Body :=
  fun _ _ c w =>
    match c !! "tried" with
    | None => (Raise first, <["tried" := 1]> c, w)
    | Some _ => (Return (Some v), c, w)
    end.

(** A body that always raises, with a text that tells the first attempt
    from the later ones. *)
Definition failing (first later : string) : Body :=
  fun _ _ c w =>
    match c !! "tried" with
    | None => (Raise first, <["tried" := 1]> c, w)
    | Some _ => (Raise later, c, w)
    end.

Definition no_task : @Task nat nat nat :=
  mkTask "" (returns 0) [] [] [] 3%Z 60%Z PENDING None None None None.

Definition empty_heap : @Heap nat nat nat := mkHeap (fun _ => no_task) 0.

Definition with_retries (n : Z) : @TaskOptions nat nat :=
  mkOptions [] [] n 60%Z PENDING None None None None.

(** [Pipeline(dag).add_task(...).add_task(...)], each task given as id,
    body, dependencies and retries. *)
Definition register (dag : string)
    (specs : list (string * Body * list string * Z))
    : Pipeline * @Heap nat nat nat :=
  foldl (fun ph spec =>
           let '(tid, body, deps, n) := spec in
           add_task tid body (Some deps) (with_retries n) ph.1 ph.2)
        (new_pipeline dag, empty_heap) specs.

(** The shape of [create_daily_pipeline]. *)
Definition daily : Pipeline * @Heap nat nat nat :=
  register "daily_earnings_update"
    [("fetch_earnings", returns 1, [], 3%Z);
     ("calculate_metrics", reads "fetch_earnings", ["fetch_earnings"], 3%Z);
     ("store_results", reads "calculate_metrics", ["calculate_metrics"], 3%Z);
     ("generate_alerts", reads "calculate_metrics", ["calculate_metrics"], 3%Z)].

(** A fails, B depends on A, C depends on B. *)
Definition chain : Pipeline * @Heap nat nat nat :=
  register "chain"
    [("A", raises "boom", [], 2%Z);
     ("B", returns 2, ["A"], 3%Z);
     ("C", returns 3, ["B"], 3%Z)].

(** A depends on B and B depends on A; C stands alone. *)
Definition cyclic : Pipeline * @Heap nat nat nat :=
  register "cyclic"
    [("A", returns 1, ["B"], 3%Z);
     ("B", returns 2, ["A"], 3%Z);
     ("C", returns 3, [], 3%Z)].

(** B names a dependency that is not registered. *)
Definition dangling : Pipeline * @Heap nat nat nat :=
  register "dangling"
    [("A", returns 1, [], 3%Z);
     ("B", returns 2, ["A"; "ghost"], 3%Z)].

(** As [dangling], but the registered dependency of B fails. *)
Definition dangling_skipped : Pipeline * @Heap nat nat nat :=
  register "dangling_skipped"
    [("A", raises "boom", [], 1%Z);
     ("B", returns 2, ["A"; "ghost"], 3%Z)].

(** One task that fails once and then succeeds. *)
Definition retried : Pipeline * @Heap nat nat nat :=
  register "retried" [("T", flaky "boom" 7, [], 3%Z)].

(** One task with [retries=2] whose body always fails. *)
Definition exhausted : Pipeline * @Heap nat nat nat :=
  register "exhausted" [("T", failing "first" "second", [], 2%Z)].

(** One task with [retries=0]. *)
Definition no_attempts : Pipeline * @Heap nat nat nat :=
  register "no_attempts" [("T", returns 1, [], 0%Z)].

(** A rank for the tasks of [daily] that decreases along every
    dependency. *)
Definition daily_rank (x : string) : nat :=
  if decide (x = "fetch_earnings") then 0
  else if decide (x = "calculate_metrics") then 1
  else 2.

(** [run] on one of these pipelines, from a clock at 0 and an empty
    output. *)
Definition run_on (ph : Pipeline * @Heap nat nat nat)
    (ctx : option (gmap string nat))
    : Completion (Pipeline * DAGRun) * @St nat nat nat :=
  run clock stamp_text ph.1 ctx ph.2 0 [].

(** The record of a run and the final state, when [run] returned. *)
Definition record_of (res : Completion (Pipeline * DAGRun) * @St nat nat nat)
    : option DAGRun :=
  match res.1 with
  | Returned (_, r) => Some r
  | Raised _ => None
  end.

(** The final task object of [x] in a run that returned. *)
Definition final_task (res : Completion (Pipeline * DAGRun) * @St nat nat nat)
    (x : string) : option (@Task nat nat nat) :=
  match res.1 with
  | Returned (_, r) => task_of (run_tasks r) (heap res.2) x
  | Raised _ => None
  end.


(** The copies [run] makes of the definitions of [exhausted], and the
    state in which its task loop starts. *)
Definition exhausted_copies : @Heap nat nat nat * dict nat :=
  copy_tasks (tasks exhausted.1) exhausted.2.

Definition exhausted_start : @St nat nat nat :=
  mkSt exhausted_copies.1 ∅ 2
       [PrintStarting "exhausted"; PrintOrder ["T"]].


(** The copies [run] makes of the definitions of [retried], and the state
    in which its task loop starts. *)
Definition retried_copies : @Heap nat nat nat * dict nat :=
  copy_tasks (tasks retried.1) retried.2.

Definition retried_start : @St nat nat nat :=
  mkSt retried_copies.1 ∅ 2
       [PrintStarting "retried"; PrintOrder ["T"]].

(** A rank for the tasks of [chain] that decreases along every
    dependency. *)
Definition chain_rank (x : string) : nat :=
  if decide (x = "A") then 0
  else if decide (x = "B") then 1
  else 2.

(** [create_daily_pipeline] with small closures for the task functions. *)
Definition prebuilt : Pipeline * @Heap nat nat nat :=
  create_daily_pipeline (returns 1) (reads "fetch_earnings")
    (reads "calculate_metrics") (reads "calculate_metrics") 0 empty_heap.

(** [isoformat] of a clock reading. *)
Definition iso_text (t : Time) : string := "1970-01-01T00:00:00".

(** A scheduler that holds [daily] under a cron schedule, and two manual
    triggers of it, one after the other. *)
Definition daily_scheduler : Scheduler :=
  register_pipeline daily.1 (Some "0 6 * * *") new_scheduler.

Definition trigger (dag : string) (s : Scheduler)
    (h : @Heap nat nat nat) (w : nat) (out : list Event)
    (db : gmap string RunRow)
    : Result DAGRun * Scheduler * @St nat nat nat * gmap string RunRow :=
  run_pipeline clock stamp_text iso_text dag None s h w out db.

Definition first_trigger
    : Result DAGRun * Scheduler * @St nat nat nat * gmap string RunRow :=
  run_pipeline clock stamp_text iso_text "daily_earnings_update" None
    daily_scheduler daily.2 0 [] ∅.

Definition second_trigger
    : Result DAGRun * Scheduler * @St nat nat nat * gmap string RunRow :=
  run_pipeline clock stamp_text iso_text "daily_earnings_update" None
    first_trigger.1.1.2 (heap first_trigger.1.2) (world first_trigger.1.2)
    (stdout first_trigger.1.2) first_trigger.2.

(** The run a trigger returned. *)
Definition run_of
    (res : Result DAGRun * Scheduler * @St nat nat nat * gmap string RunRow)
    : DAGRun :=
  match res.1.1.1 with
  | Ok r => r
  | Err _ => mkDAGRun "" "" 0 None PENDING []
  end.


(** Closed decidable facts about the concrete pipelines are computed. *)
Ltac by_computation := apply (bool_decide_unpack _); by vm_compute.

(** * Properties *)

Section Properties.

Context {Value Arg World : Type}.

#[local] Abbreviation Task := (@Task Value Arg World).
#[local] Abbreviation Heap := (@Heap Value Arg World).
#[local] Abbreviation St := (@St Value Arg World).

(** ** Dicts *)

Lemma dict_get_Some_elem {V} (k : string) (v : V) (d : dict V) :
  dict_get k d = Some v → (k, v) ∈ d.
Proof.
  induction d as [|[k' v'] d IH]; simpl; [done|].
  case_decide; intros E.
  - injection E as <-. subst. left.
  - right. auto.
Qed.

Lemma dict_get_is_Some {V} (k : string) (d : dict V) :
  is_Some (dict_get k d) ↔ k ∈ keys d.
Proof.
  unfold keys. induction d as [|[k' v'] d IH]; simpl.
  - split; [intros [? [=]] | intros H; inversion H].
  - case_decide; subst.
    + split; [intros _; left | eauto].
    + rewrite IH. split; [by right|].
      intros H'. apply elem_of_cons in H' as [?|?]; done.
Qed.

Lemma dict_get_None {V} (k : string) (d : dict V) :
  dict_get k d = None ↔ k ∉ keys d.
Proof.
  rewrite <- dict_get_is_Some, eq_None_not_Some. done.
Qed.

Lemma registered_lookup (ts : dict nat) (x : string) :
  registered ts x ↔ ∃ a, dict_get x ts = Some a.
Proof. unfold registered. rewrite <- dict_get_is_Some. done. Qed.

(** ** Building a pipeline

    What the theorems about [run] assume of a pipeline (distinct keys,
    references to allocated objects, default execution fields) holds of
    every pipeline that [add_task] builds. *)

Lemma dict_get_set {V} (k k' : string) (v : V) (d : dict V) :
  dict_get k' (dict_set k v d)
  = if decide (k' = k) then Some v else dict_get k' d.
Proof.
  induction d as [|[k0 v0] d IH]; simpl.
  - by repeat case_decide.
  - destruct (decide (k = k0)) as [->|Hne]; simpl.
    + by repeat case_decide.
    + rewrite IH. repeat case_decide; congruence.
Qed.

Lemma dict_set_elem {V} (k : string) (v : V) (d : dict V) kv :
  kv ∈ dict_set k v d → kv = (k, v) ∨ kv ∈ d.
Proof.
  induction d as [|[k0 v0] d IH]; simpl.
  - intros H. apply list_elem_of_singleton in H. by left.
  - case_decide.
    + intros H'. apply elem_of_cons in H' as [->|H']; [by left|].
      right. by right.
    + intros H'. apply elem_of_cons in H' as [->|H']; [right; left|].
      destruct (IH H') as [->|Hin]; [by left|right; by right].
Qed.

Lemma dict_set_keys {V} (k : string) (v : V) (d : dict V) x :
  x ∈ keys (dict_set k v d) ↔ x = k ∨ x ∈ keys d.
Proof.
  rewrite <- !dict_get_is_Some, dict_get_set.
  case_decide; subst; [|by intuition].
  split; [by left|eauto].
Qed.

Lemma dict_set_NoDup {V} (k : string) (v : V) (d : dict V) :
  NoDup (keys d) → NoDup (keys (dict_set k v d)).
Proof.
  unfold keys. induction d as [|[k0 v0] d IH]; simpl.
  - intros _. apply NoDup_singleton.
  - intros Hnd. apply NoDup_cons in Hnd as [Hk0 Hnd]. case_decide; subst.
    + simpl. by apply NoDup_cons.
    + simpl. apply NoDup_cons. split; [|by apply IH].
      intros Hin. apply (dict_set_keys k v d k0) in Hin as [?|?]; done.
Qed.

Lemma new_pipeline_wf dag (h : Heap) :
  NoDup (keys (tasks (new_pipeline dag))) ∧
  valid_refs (tasks (new_pipeline dag)) h ∧
  fresh_defs (tasks (new_pipeline dag)) h.
Proof.
  split; [apply NoDup_nil_2|]. split; [apply Forall_nil_2|]. intros x a [=].
Qed.

Lemma add_task_wf tid body deps o (p : Pipeline) (h : Heap) :
  NoDup (keys (tasks p)) → valid_refs (tasks p) h →
  NoDup (keys (tasks (add_task tid body deps o p h).1)) ∧
  valid_refs (tasks (add_task tid body deps o p h).1)
             (add_task tid body deps o p h).2.
Proof.
  intros Hnd Hv. unfold add_task. simpl. split; [by apply dict_set_NoDup|].
  unfold valid_refs in *. rewrite Forall_forall in *. intros kv Hkv. simpl.
  apply dict_set_elem in Hkv as [->|Hkv]; simpl; [lia|].
  specialize (Hv kv Hkv). lia.
Qed.

(** A task registered without execution keyword arguments is [PENDING],
    with no result, error or timestamp. *)
Lemma add_task_fresh tid body deps (p : Pipeline) (h : Heap) :
  valid_refs (tasks p) h → fresh_defs (tasks p) h →
  fresh_defs (tasks (add_task tid body deps default_options p h).1)
             (add_task tid body deps default_options p h).2.
Proof.
  intros Hv Hfresh x a. unfold add_task. simpl. rewrite dict_get_set.
  case_decide.
  - intros [= <-]. by rewrite decide_True.
  - intros Hx. rewrite decide_False; [by apply (Hfresh x)|].
    apply dict_get_Some_elem in Hx. unfold valid_refs in Hv.
    rewrite Forall_forall in Hv. specialize (Hv _ Hx). simpl in Hv. lia.
Qed.


(** ** The traversal of [_get_execution_order] *)

Lemma for_each_invariant {S A} (f : A -> S -> option S) (P : S -> Prop) l :
  ∀ s s',
    (∀ x s s', x ∈ l → P s → f x s = Some s' → P s') →
    P s → for_each f l s = Some s' → P s'.
Proof.
  induction l as [|x l IH]; intros s s' Hf Hs; simpl.
  - by intros [= <-].
  - destruct (f x s) as [s1|] eqn:E; [|done].
    apply IH.
    + intros y t t' Hy. apply Hf. by right.
    + eapply Hf; [left | done | done].
Qed.

Lemma for_each_mono (f : string -> gset string * list string ->
                          option (gset string * list string)) :
  (∀ x s s', f x s = Some s' → s.1 ⊆ s'.1) →
  ∀ ds s s', for_each f ds s = Some s' → s.1 ⊆ s'.1.
Proof.
  intros Hf. induction ds as [|d ds IH]; intros s s'; simpl.
  - by intros [= <-].
  - destruct (f d s) as [s1|] eqn:E; [|done].
    intros Hr. etransitivity; [exact (Hf _ _ _ E) | exact (IH _ _ Hr)].
Qed.

Lemma visit_mono (ts : dict nat) (h : Heap) fuel :
  ∀ x s s', visit fuel h ts x s = Some s' → s.1 ⊆ s'.1.
Proof.
  induction fuel as [|fuel IH]; intros x s s'; simpl; [done|].
  case_decide; [by intros [= <-]|].
  destruct (dict_get x ts) as [a|]; [|intros [= <-]; simpl; set_solver].
  destruct (for_each _ _ _) as [s2|] eqn:E; [|done].
  intros [= <-]. simpl.
  apply (for_each_mono _ IH) in E. simpl in E. set_solver.
Qed.

Lemma size_list_to_set_le (l : list string) :
  size (list_to_set l : gset string) ≤ length l.
Proof.
  induction l as [|x l IH].
  - by rewrite list_to_set_nil, size_empty.
  - rewrite list_to_set_cons, size_union_alt, size_singleton. simpl.
    assert (size (list_to_set l ∖ {[x]} : gset string)
            ≤ size (list_to_set l : gset string))
      by (apply subseteq_size; set_solver).
    lia.
Qed.

(** Enough fuel: one unit per registered id that is not visited yet, and
    one for the call itself. *)
Lemma for_each_enough_fuel (ts : dict nat) (h : Heap) fuel :
  (∀ x s, size (list_to_set (keys ts) ∖ s.1 : gset string) < fuel →
          is_Some (visit fuel h ts x s)) →
  ∀ ds s, size (list_to_set (keys ts) ∖ s.1 : gset string) < fuel →
          is_Some (for_each (visit fuel h ts) ds s).
Proof.
  intros Hv. induction ds as [|d ds IH]; intros s Hsz; simpl; [eauto|].
  destruct (Hv d s Hsz) as [s1 E]. rewrite E. apply IH.
  eapply Nat.le_lt_trans; [|exact Hsz].
  apply subseteq_size. apply visit_mono in E. set_solver.
Qed.

Lemma visit_enough_fuel (ts : dict nat) (h : Heap) fuel :
  ∀ x s,
    size (list_to_set (keys ts) ∖ s.1 : gset string) < fuel →
    is_Some (visit fuel h ts x s).
Proof.
  induction fuel as [|fuel IH]; intros x s Hsz; simpl; [lia|].
  case_decide; [eauto|].
  destruct (dict_get x ts) as [a|] eqn:Ha; [|eauto].
  assert (Hreg : x ∈ keys ts) by (apply dict_get_is_Some; eauto).
  assert (Hlt : size (list_to_set (keys ts) ∖ ({[x]} ∪ s.1) : gset string)
                < fuel).
  { eapply Nat.lt_le_trans; [|apply Nat.lt_succ_r, Hsz].
    apply subset_size. apply strict_spec_alt. split; [set_solver|].
    intros E.
    assert (Hx : x ∈ (list_to_set (keys ts) ∖ s.1 : gset string))
      by (apply elem_of_difference; split; [by apply elem_of_list_to_set|done]).
    rewrite <- E in Hx. set_solver. }
  destruct (for_each_enough_fuel ts h fuel IH (dependencies (cells h a))
              ({[x]} ∪ s.1, s.2) Hlt) as [s2 ->].
  eauto.
Qed.

(** [_get_execution_order] always returns: its fuel is never used up. *)
Lemma execution_order_total (p : Pipeline) (h : Heap) :
  ∃ o, _get_execution_order p h = Some o ∧ execution_order p h = o.
Proof.
  unfold execution_order, _get_execution_order.
  destruct (for_each_enough_fuel (tasks p) h (S (length (tasks p)))
              (fun x s => visit_enough_fuel (tasks p) h _ x s)
              (keys (tasks p)) (∅, [])) as [s ->]; [|eauto].
  simpl. apply Nat.lt_succ_r.
  assert (length (keys (tasks p)) = length (tasks p)) as <-
    by apply length_fmap.
  etransitivity; [|apply size_list_to_set_le].
  apply subseteq_size. set_solver.
Qed.

(** The loop over the dependencies of the id on top of the stack. *)
Lemma for_each_visit_spec (ts : dict nat) (h : Heap) fuel :
  visit_ok ts h fuel →
  ∀ ds S s s',
    visit_inv ts h S s →
    (∀ d y, d ∈ ds → y ∈ S → tc (depends_on ts h) y d) →
    for_each (visit fuel h ts) ds s = Some s' →
    visit_inv ts h S s' ∧ s.1 ⊆ s'.1 ∧ ∀ d, d ∈ ds → d ∈ s'.1.
Proof.
  intros Hok. induction ds as [|d ds IH]; intros S s s' Hinv Hch; simpl.
  - intros [= <-]. split; [done|]. split; [done|]. intros d Hd. inversion Hd.
  - destruct (visit fuel h ts d s) as [s1|] eqn:E; [|done]. intros Hr.
    destruct (Hok d S s s1 Hinv) as (Hinv1 & Hsub1 & Hd1); [|done|].
    { intros y Hy. apply Hch; [left | done]. }
    destruct (IH S s1 s' Hinv1) as (Hinv2 & Hsub2 & Hds); [|done|].
    { intros d' y Hd' Hy. apply Hch; [by right | done]. }
    split; [done|]. split; [set_solver|].
    intros d' Hd'. apply elem_of_cons in Hd' as [->|Hd']; [set_solver|auto].
Qed.

Lemma visit_spec (ts : dict nat) (h : Heap) fuel : visit_ok ts h fuel.
Proof.
  induction fuel as [|fuel IH]; intros x S s s' Hinv Hch; simpl; [done|].
  case_decide as Hvis; [by intros [= <-]|].
  destruct Hinv as (Hnd & Hmem & Hstack & Hplaced).
  destruct (dict_get x ts) as [a|] eqn:Ha.
  2:{ (* an id that is not registered is marked and left out *)
    intros [= <-]. simpl. split; [|set_solver].
    split; [done|]. split; [|split; [set_solver|done]].
    intros y. simpl. rewrite Hmem. split; [set_solver|].
    intros (Hy & Hreg & HS). split; [|done].
    apply elem_of_union in Hy as [Hy|Hy]; [|done].
    apply elem_of_singleton in Hy as ->.
    apply dict_get_is_Some in Hreg. rewrite Ha in Hreg. by destruct Hreg. }
  assert (Hregx : registered ts x) by (apply dict_get_is_Some; eauto).
  assert (HxS : x ∉ S) by (intros HxS; apply Hvis; auto).
  destruct (for_each _ _ _) as [s2|] eqn:E; [|done]. intros [= <-]. simpl.
  destruct (for_each_visit_spec ts h fuel IH (dependencies (cells h a))
              (x :: S) ({[x]} ∪ s.1, s.2) s2)
    as ((Hnd2 & Hmem2 & Hstack2 & Hplaced2) & Hsub2 & Hds); [| |exact E|].
  { simpl. split; [done|]. split; [|split; [set_solver|done]].
    intros y. simpl. rewrite Hmem. split.
    - intros (Hy & Hreg & HS). split; [set_solver|]. split; [done|].
      intros Hin. apply elem_of_cons in Hin as [->|Hin]; done.
    - intros (Hy & Hreg & HS). split; [|split; [done|set_solver]].
      apply elem_of_union in Hy as [Hy|Hy]; [|done].
      apply elem_of_singleton in Hy as ->. exfalso. apply HS. left. }
  { intros d y Hd Hy.
    assert (Hxd : depends_on ts h x d)
      by (unfold depends_on, deps_of; by rewrite Ha).
    apply elem_of_cons in Hy as [->|Hy]; [by apply tc_once|].
    eapply tc_r; [apply Hch|]; done. }
  simpl in *.
  assert (Hx2 : x ∈ s2.1) by set_solver.
  assert (Hxo : x ∉ s2.2).
  { intros Hin. apply Hmem2 in Hin as (_ & _ & Hn). apply Hn. left. }
  split; [|split; [set_solver|done]].
  split; [|split; [|split]]; simpl.
  - apply NoDup_app. split; [done|]. split; [|apply NoDup_singleton].
    intros y Hy Hy'. apply list_elem_of_singleton in Hy' as ->. done.
  - intros y. rewrite elem_of_app, list_elem_of_singleton, Hmem2. split.
    + intros [(Hy & Hreg & HS)| ->]; [|done].
      split; [done|]. split; [done|]. intros Hin. apply HS. by right.
    + intros (Hy & Hreg & HS). destruct (decide (y = x)) as [->|Hne]; [by right|].
      left. split; [done|]. split; [done|].
      intros Hin. apply elem_of_cons in Hin as [->|Hin]; done.
  - intros y Hy. apply Hstack2. by right.
  - intros j y Hj d Hd Hregd.
    apply lookup_app_Some in Hj as [Hj|[Hlen Hj]].
    + destruct (Hplaced2 j y Hj d Hd Hregd) as [(i & Hi & Hid)|Hr]; [|by right].
      left. exists i. split; [done|]. by apply lookup_app_l_Some.
    + destruct (j - length s2.2) as [|k] eqn:Ek; [|done].
      injection Hj as <-.
      assert (Hdv : d ∈ s2.1).
      { apply Hds. unfold depends_on, deps_of in Hd. by rewrite Ha in Hd. }
      destruct (decide (d ∈ x :: S)) as [Hin|Hnin].
      * right. apply elem_of_cons in Hin as [->|Hin]; [done|].
        apply tc_rtc. by apply Hch.
      * left. assert (Hdo : d ∈ s2.2) by (by apply Hmem2).
        apply list_elem_of_lookup in Hdo as [i Hi]. exists i.
        split; [|by apply lookup_app_l_Some].
        apply lookup_lt_Some in Hi. lia.
Qed.

(** What the order is for every pipeline, cyclic or not: the registered
    ids, each once; and a registered dependency of [x] stands before [x]
    unless it depends on [x] in turn. *)
Lemma execution_order_spec (p : Pipeline) (h : Heap) :
  NoDup (execution_order p h) ∧
  (∀ y, y ∈ execution_order p h ↔ registered (tasks p) y) ∧
  (∀ j x, execution_order p h !! j = Some x →
     ∀ d, depends_on (tasks p) h x d → registered (tasks p) d →
       (∃ i, i < j ∧ execution_order p h !! i = Some d)
       ∨ rtc (depends_on (tasks p) h) d x).
Proof.
  destruct (execution_order_total p h) as (o & Ho & ->).
  unfold _get_execution_order in Ho.
  destruct (for_each _ _ _) as [s|] eqn:E; [|done]. injection Ho as <-.
  destruct (for_each_visit_spec (tasks p) h (S (length (tasks p)))
              (visit_spec _ _ _) (keys (tasks p)) [] (∅, []) s)
    as ((Hnd & Hmem & _ & Hplaced) & _ & Hall); [| |exact E|].
  { split; [apply NoDup_nil_2|]. split; [|split].
    - intros y. simpl. split; [intros H; inversion H|set_solver].
    - intros y H. inversion H.
    - intros j x H. simpl in H. by rewrite lookup_nil in H. }
  { intros d y _ H. inversion H. }
  split; [done|]. split; [|done].
  intros y. rewrite Hmem. split; [tauto|].
  intros Hy. split; [by apply Hall|]. split; [done|]. intros H. inversion H.
Qed.

Lemma before_trans (o : list string) (a b c : string) :
  NoDup o → before o a b → before o b c → before o a c.
Proof.
  intros Hnd (i & j & Hi & Hj & Hij) (j' & k & Hj' & Hk & Hjk).
  assert (j = j') as <- by (eapply NoDup_lookup; eauto).
  exists i, k. split; [done|]. split; [done|lia].
Qed.

Lemma depends_on_registered (ts : dict nat) (h : Heap) x d :
  depends_on ts h x d → registered ts x.
Proof.
  unfold depends_on, deps_of. intros H.
  destruct (dict_get x ts) as [a|] eqn:E; [|inversion H].
  apply dict_get_is_Some. eauto.
Qed.

(** C1. For an acyclic pipeline whose dependency ids are all registered,
    [_get_execution_order] returns a sequence that holds every registered
    task id exactly once, and in which every id stands after all of its
    transitive dependencies. *)
Theorem execution_order_topological (p : Pipeline) (h : Heap) :
  acyclic (tasks p) h →
  deps_registered (tasks p) h →
  ∃ o, _get_execution_order p h = Some o ∧
       NoDup o ∧
       (∀ x, x ∈ o ↔ registered (tasks p) x) ∧
       (∀ x d, tc (depends_on (tasks p) h) x d → before o d x).
Proof.
  intros Hacyc Hclosed.
  destruct (execution_order_total p h) as (o & Ho & Heq).
  destruct (execution_order_spec p h) as (Hnd & Hmem & Hplaced).
  rewrite Heq in Hnd, Hmem, Hplaced.
  exists o. split; [done|]. split; [done|]. split; [done|].
  assert (Hdirect : ∀ x d, depends_on (tasks p) h x d → before o d x).
  { intros x d Hd.
    assert (Hx : x ∈ o) by (apply Hmem; eapply depends_on_registered; eauto).
    apply list_elem_of_lookup in Hx as [j Hj].
    destruct (Hplaced j x Hj d Hd (Hclosed _ _ Hd)) as [(i & Hi & Hid)|Hr].
    - by exists i, j.
    - exfalso. apply (Hacyc x). eapply tc_rtc_r; [by apply tc_once|done]. }
  intros x d Htc. induction Htc as [x d Hd|x y d Hxy Hyd IH].
  - by apply Hdirect.
  - eapply before_trans; [done|exact IH|by apply Hdirect].
Qed.

(** ** The heap and the state of a run *)

Variable now : World -> Time * World.

Lemma cells_store (a b : nat) (t : Task) (h : Heap) :
  cells (store a t h) b = if decide (b = a) then t else cells h b.
Proof. reflexivity. Qed.

Lemma heap_print e (st : St) : heap (print e st) = heap st.
Proof. reflexivity. Qed.

Lemma context_print e (st : St) : context (print e st) = context st.
Proof. reflexivity. Qed.

Lemma world_print e (st : St) : world (print e st) = world st.
Proof. reflexivity. Qed.

Lemma stdout_print e (st : St) : stdout (print e st) = stdout st ++ [e].
Proof. reflexivity. Qed.

Lemma heap_resume c w (st : St) : heap (resume c w st) = heap st.
Proof. reflexivity. Qed.

Lemma context_resume c w (st : St) : context (resume c w st) = c.
Proof. reflexivity. Qed.

Lemma world_resume c w (st : St) : world (resume c w st) = w.
Proof. reflexivity. Qed.

Lemma stdout_resume c w (st : St) : stdout (resume c w st) = stdout st.
Proof. reflexivity. Qed.

Lemma cells_update_eq a f (st : St) :
  cells (heap (update a f st)) a = f (cells (heap st) a).
Proof. unfold update, store. simpl. by rewrite decide_True. Qed.

Lemma cells_update_ne a b f (st : St) :
  b ≠ a → cells (heap (update a f st)) b = cells (heap st) b.
Proof. intros. unfold update, store. simpl. by rewrite decide_False. Qed.

Lemma next_update a f (st : St) : next (heap (update a f st)) = next (heap st).
Proof. reflexivity. Qed.

Lemma context_update a f (st : St) : context (update a f st) = context st.
Proof. reflexivity. Qed.

Lemma world_update a f (st : St) : world (update a f st) = world st.
Proof. reflexivity. Qed.

Lemma stdout_update a f (st : St) : stdout (update a f st) = stdout st.
Proof. reflexivity. Qed.

Lemma cells_stamp_eq a f (st : St) :
  cells (heap (stamp now a f st)) a
  = f (Some (now (world st)).1) (cells (heap st) a).
Proof.
  unfold stamp. destruct (now (world st)). by rewrite cells_update_eq.
Qed.

Lemma cells_stamp_ne a b f (st : St) :
  b ≠ a → cells (heap (stamp now a f st)) b = cells (heap st) b.
Proof.
  intros. unfold stamp. destruct (now (world st)). by rewrite cells_update_ne.
Qed.

Lemma next_stamp a f (st : St) :
  next (heap (stamp now a f st)) = next (heap st).
Proof. unfold stamp. by destruct (now (world st)). Qed.

Lemma context_stamp a f (st : St) : context (stamp now a f st) = context st.
Proof. unfold stamp. by destruct (now (world st)). Qed.

Lemma world_stamp a f (st : St) :
  world (stamp now a f st) = (now (world st)).2.
Proof. unfold stamp. by destruct (now (world st)). Qed.

Lemma stdout_stamp a f (st : St) : stdout (stamp now a f st) = stdout st.
Proof. unfold stamp. by destruct (now (world st)). Qed.

Create Rewrite HintDb st.
#[local] Hint Rewrite heap_print context_print world_print stdout_print
  heap_resume context_resume world_resume stdout_resume
  cells_update_eq next_update context_update world_update stdout_update
  cells_stamp_eq next_stamp context_stamp world_stamp stdout_stamp : st.
#[local] Hint Rewrite cells_update_ne cells_stamp_ne using done : st.

Lemma same_def_refl (t : Task) : same_def t t.
Proof. by repeat split. Qed.

Lemma same_def_trans (t1 t2 t3 : Task) :
  same_def t1 t2 → same_def t2 t3 → same_def t1 t3.
Proof.
  unfold same_def. intros (?&?&?&?&?&?&?) (?&?&?&?&?&?&?).
  repeat split; congruence.
Qed.

(** ** The retry loop *)

Lemma attempt_count_cons x e (l : list Event) :
  attempt_count x (e :: l)
  = (if is_running x e then 1 else 0) + attempt_count x l.
Proof.
  unfold attempt_count. rewrite filter_cons.
  destruct (is_running x e); case_decide; done.
Qed.

Lemma attempt_count_app x (l1 l2 : list Event) :
  attempt_count x (l1 ++ l2) = attempt_count x l1 + attempt_count x l2.
Proof. unfold attempt_count. by rewrite filter_app, length_app. Qed.

Lemma is_running_same x k r : is_running x (PrintRunning x k r) = true.
Proof. simpl. by rewrite bool_decide_eq_true_2. Qed.

(** The loop assigns to the task object at [a] only, and only to its
    execution fields. *)
Lemma attempts_heap n : ∀ k tid a (st : St),
  next (heap (attempts now n k tid a st)) = next (heap st) ∧
  (∀ b, b ≠ a → cells (heap (attempts now n k tid a st)) b = cells (heap st) b) ∧
  same_def (cells (heap (attempts now n k tid a st)) a) (cells (heap st) a).
Proof.
  induction n as [|n IH]; intros k tid a st; cbn [attempts].
  - split; [done|]. split; [done|apply same_def_refl].
  - destruct (callable _ _ _ _ _) as [[[r|e] c] w].
    + autorewrite with st. split; [done|]. split.
      * intros b Hb. by autorewrite with st.
      * by repeat split.
    + destruct (_ <? _)%Z.
      * edestruct IH as (Hn & Hf & Hs). rewrite Hn. autorewrite with st.
        split; [done|]. split.
        -- intros b Hb. rewrite Hf by done. by autorewrite with st.
        -- eapply same_def_trans; [exact Hs|].
           autorewrite with st. by repeat split.
      * edestruct IH as (Hn & Hf & Hs). rewrite Hn. autorewrite with st.
        split; [done|]. split.
        -- intros b Hb. rewrite Hf by done. by autorewrite with st.
        -- eapply same_def_trans; [exact Hs|].
           autorewrite with st. by repeat split.
Qed.

(** The status the loop leaves: the one it found, [SUCCESS] or [FAILED]. *)
Lemma attempts_status n : ∀ k tid a (st : St),
  status (cells (heap (attempts now n k tid a st)) a) = status (cells (heap st) a)
  ∨ status (cells (heap (attempts now n k tid a st)) a) = SUCCESS
  ∨ status (cells (heap (attempts now n k tid a st)) a) = FAILED.
Proof.
  induction n as [|n IH]; intros k tid a st; cbn [attempts]; [by left|].
  destruct (callable _ _ _ _ _) as [[[r|e] c] w].
  - autorewrite with st. right. by left.
  - destruct (_ <? _)%Z.
    + destruct (IH (k + 1)%Z tid a
                  (print (PrintRetrying tid)
                     (update a (with_error (Some e))
                        (resume c w
                           (print (PrintRunning tid (k + 1)
                                     (retries (cells (heap st) a))) st)))))
        as [H|H]; [|by right].
      left. rewrite H. by autorewrite with st.
    + match goal with |- context [attempts now n ?k' tid a ?s] =>
        destruct (IH k' tid a s) as [H|H]; [|by right] end.
      right. right. rewrite H. by autorewrite with st.
Qed.

(** With at least one attempt to make, the loop ends in [SUCCESS] or
    [FAILED]. *)
Lemma attempts_terminal n : ∀ k tid a (st : St),
  0 < n → (Z.of_nat n + k = retries (cells (heap st) a))%Z →
  status (cells (heap (attempts now n k tid a st)) a) = SUCCESS
  ∨ status (cells (heap (attempts now n k tid a st)) a) = FAILED.
Proof.
  induction n as [|n IH]; intros k tid a st Hn Hk; [lia|]. cbn [attempts].
  destruct (callable _ _ _ _ _) as [[[r|e] c] w].
  - autorewrite with st. by left.
  - autorewrite with st. cbn [retries with_error].
    destruct (Z.ltb_spec k (retries (cells (heap st) a) - 1)) as [Hlt|Hge].
    + apply IH; [lia|]. autorewrite with st. cbn [retries with_error]. lia.
    + assert (n = 0) as -> by lia. cbn [attempts].
      autorewrite with st. by right.
Qed.

(** What the loop prints is about its own task; it leaves [error] as it
    found it unless it reports a failed invocation, and then [error] is
    set. *)
Lemma attempts_log n : ∀ k tid a (st : St),
  ∃ evs,
    stdout (attempts now n k tid a st) = stdout st ++ evs ∧
    Forall (fun e => event_task e = Some tid) evs ∧
    (existsb (is_failure tid) evs = false →
       error (cells (heap (attempts now n k tid a st)) a)
       = error (cells (heap st) a)) ∧
    (existsb (is_failure tid) evs = true →
       is_Some (error (cells (heap (attempts now n k tid a st)) a))).
Proof.
  induction n as [|n IH]; intros k tid a st; cbn [attempts].
  - exists []. rewrite app_nil_r. by repeat split.
  - destruct (callable _ _ _ _ _) as [[[r|e] c] w].
    + exists [PrintRunning tid (k + 1) (retries (cells (heap st) a));
              PrintCompleted tid].
      autorewrite with st. rewrite <- app_assoc. split; [done|].
      split; [by repeat constructor|]. split; [done|]. simpl. done.
    + destruct (_ <? _)%Z.
      * match goal with |- context [attempts now n ?k' tid a ?s] =>
          destruct (IH k' tid a s) as (evs & Hout & Hall & Hno & Hyes) end.
        exists ([PrintRunning tid (k + 1) (retries (cells (heap st) a));
                 PrintRetrying tid] ++ evs).
        rewrite Hout. autorewrite with st. rewrite <- !app_assoc.
        split; [done|]. split; [by repeat constructor|].
        cbn [existsb app is_failure]. rewrite bool_decide_eq_true_2 by done.
        split; [done|]. intros _.
        destruct (existsb (is_failure tid) evs) eqn:Eevs; [by apply Hyes|].
        rewrite Hno by done. autorewrite with st. by eexists.
      * match goal with |- context [attempts now n ?k' tid a ?s] =>
          destruct (IH k' tid a s) as (evs & Hout & Hall & Hno & Hyes) end.
        exists ([PrintRunning tid (k + 1) (retries (cells (heap st) a));
                 PrintFailed tid e] ++ evs).
        rewrite Hout. autorewrite with st. rewrite <- !app_assoc.
        split; [done|]. split; [by repeat constructor|].
        cbn [existsb app is_failure]. rewrite bool_decide_eq_true_2 by done.
        split; [done|]. intros _.
        destruct (existsb (is_failure tid) evs) eqn:Eevs; [by apply Hyes|].
        rewrite Hno by done. autorewrite with st. by eexists.
Qed.

Lemma attempts_error_kept n k tid a (st : St) :
  is_Some (error (cells (heap st) a)) →
  is_Some (error (cells (heap (attempts now n k tid a st)) a)).
Proof.
  intros Hs.
  destruct (attempts_log n k tid a st) as (evs & _ & _ & Hno & Hyes).
  destruct (existsb (is_failure tid) evs); [by apply Hyes|].
  by rewrite Hno.
Qed.

(** [FAILED] is assigned only after [error]. *)
Lemma attempts_failed_error n k tid a (st : St) :
  status (cells (heap (attempts now n k tid a st)) a) = FAILED →
  status (cells (heap st) a) = FAILED
  ∨ is_Some (error (cells (heap (attempts now n k tid a st)) a)).
Proof.
  destruct n as [|n]; cbn [attempts]; [by left|].
  destruct (callable _ _ _ _ _) as [[[r|e] c] w].
  - autorewrite with st. done.
  - intros _. right. destruct (_ <? _)%Z; apply attempts_error_kept;
      autorewrite with st; by eexists.
Qed.

(** When every one of the [n] invocations that are left raises, the task
    ends [FAILED] with the text of the last one, and the body has been
    invoked [n] times. *)
Lemma attempts_exhausted n : ∀ k tid a (st : St) e,
  (Z.of_nat n + k = retries (cells (heap st) a))%Z →
  last_failure n
    (callable (cells (heap st) a) (args (cells (heap st) a))
              (kwargs (cells (heap st) a)))
    (context st) (world st) = Some e →
  status (cells (heap (attempts now n k tid a st)) a) = FAILED ∧
  error (cells (heap (attempts now n k tid a st)) a) = Some e ∧
  is_Some (completed_at (cells (heap (attempts now n k tid a st)) a)) ∧
  ∃ evs, stdout (attempts now n k tid a st) = stdout st ++ evs ∧
         attempt_count tid evs = n.
Proof.
  induction n as [|n IH]; intros k tid a st e Hk; [done|].
  cbn [attempts last_failure]. autorewrite with st.
  destruct (callable _ _ _ _ _) as [[[r|e'] c] w]; [done|].
  autorewrite with st. cbn [retries with_error].
  destruct n as [|n].
  - intros [= ->]. rewrite (proj2 (Z.ltb_ge _ _)) by lia.
    cbn [attempts]. autorewrite with st.
    split; [done|]. split; [done|]. split; [by eexists|].
    eexists. rewrite <- !app_assoc. split; [done|].
    rewrite attempt_count_app, !attempt_count_cons, is_running_same. done.
  - intros Hl. rewrite (proj2 (Z.ltb_lt _ _)) by lia.
    match goal with |- context [attempts now (S n) ?k' tid a ?s] =>
      destruct (IH k' tid a s e) as (H1 & H2 & H3 & evs & Hout & Hcnt) end.
    { autorewrite with st. cbn [retries with_error]. lia. }
    { autorewrite with st. exact Hl. }
    split; [done|]. split; [done|]. split; [done|].
    eexists. rewrite Hout. autorewrite with st. rewrite <- !app_assoc.
    split; [done|].
    rewrite !attempt_count_app, !attempt_count_cons, is_running_same, Hcnt.
    done.
Qed.

(** ** The gate *)

Lemma status_of_Some (d : dict nat) (h : Heap) x s :
  status_of d h x = Some s ↔ ∃ a, dict_get x d = Some a ∧ status (cells h a) = s.
Proof.
  unfold status_of, task_of. destruct (dict_get x d) as [a|]; simpl.
  - split; [intros [= <-]; eauto | intros (b & [= <-] & <-); done].
  - split; [done | intros (b & [=] & _)].
Qed.

Lemma deps_success_true (d : dict nat) (h : Heap) deps :
  deps_success d h deps = Returned true
  ↔ ∀ x, x ∈ deps → status_of d h x = Some SUCCESS.
Proof.
  induction deps as [|x deps IH]; simpl.
  - split; [intros _ x Hx; inversion Hx | done].
  - unfold status_of, task_of in *.
    destruct (dict_get x d) as [a|] eqn:Ea.
    + case_decide as Hs.
      * rewrite IH. split.
        -- intros Hall y Hy. apply elem_of_cons in Hy as [->|Hy]; [|auto].
           rewrite Ea. simpl. by rewrite Hs.
        -- intros Hall y Hy. apply Hall. by right.
      * split; [done|]. intros Hall. exfalso. apply Hs.
        specialize (Hall x). rewrite Ea in Hall. simpl in Hall.
        assert (Some (status (cells h a)) = Some SUCCESS) as [= ->]
          by (apply Hall; left). done.
    + split; [done|]. intros Hall. specialize (Hall x).
      rewrite Ea in Hall. simpl in Hall.
      assert (@None TaskStatus = Some SUCCESS) by (apply Hall; left). done.
Qed.

Lemma deps_success_false (d : dict nat) (h : Heap) deps :
  deps_success d h deps = Returned false →
  ∃ x s, x ∈ deps ∧ status_of d h x = Some s ∧ s ≠ SUCCESS.
Proof.
  induction deps as [|x deps IH]; simpl; [done|].
  destruct (dict_get x d) as [a|] eqn:Ea; [|done].
  case_decide as Hs.
  - intros H. destruct (IH H) as (y & s & Hy & Hst & Hne).
    exists y, s. split; [by right|done].
  - intros _. exists x, (status (cells h a)). split; [left|].
    split; [|done]. apply status_of_Some. eauto.
Qed.

Lemma deps_success_raised (d : dict nat) (h : Heap) deps e :
  deps_success d h deps = Raised e →
  ∃ x, x ∈ deps ∧ e = KeyError x ∧ dict_get x d = None.
Proof.
  induction deps as [|x deps IH]; simpl; [done|].
  destruct (dict_get x d) as [a|] eqn:Ea.
  - case_decide as Hs; [|done].
    intros H. destruct (IH H) as (y & Hy & -> & Hn).
    exists y. split; [by right|done].
  - intros [= <-]. exists x. split; [left|done].
Qed.

(** ** One iteration of the task loop *)

Lemma run_task_returned (d : dict nat) tid (st st' : St) :
  run_task now d tid st = (Returned (), st') →
  ∃ a, dict_get tid d = Some a ∧
    ((deps_success d (heap st) (dependencies (cells (heap st) a))
        = Returned false ∧
      st' = print (PrintSkipping tid) (update a (with_status SKIPPED) st))
     ∨
     (deps_success d (heap st) (dependencies (cells (heap st) a))
        = Returned true ∧
      st' = attempts now (Z.to_nat (retries (cells (heap st) a))) 0%Z tid a
              (stamp now a with_started_at
                 (update a (with_status RUNNING) st)))).
Proof.
  unfold run_task. destruct (dict_get tid d) as [a|]; [|done].
  destruct (deps_success _ _ _) as [[|]|e] eqn:E; [| |done].
  - intros [= <-]. exists a. split; [done|]. right. split; [done|].
    by autorewrite with st.
  - intros [= <-]. exists a. split; [done|]. by left.
Qed.

Lemma run_task_raised (d : dict nat) tid (st st' : St) e :
  run_task now d tid st = (Raised e, st') →
  st' = st ∧
  ((e = KeyError tid ∧ dict_get tid d = None)
   ∨ ∃ a, dict_get tid d = Some a ∧
          deps_success d (heap st) (dependencies (cells (heap st) a))
          = Raised e).
Proof.
  unfold run_task. destruct (dict_get tid d) as [a|].
  - destruct (deps_success _ _ _) as [[|]|e'] eqn:E; [done|done|].
    intros [= <- <-]. split; [done|]. right. eauto.
  - intros [= <- <-]. split; [done|]. by left.
Qed.

(** An iteration assigns to the task object of its id only, and only to
    its execution fields; what it prints is about that id. *)
Lemma run_task_frame (d : dict nat) tid c (st st' : St) :
  run_task now d tid st = (c, st') →
  next (heap st') = next (heap st) ∧
  (∀ b, dict_get tid d ≠ Some b → cells (heap st') b = cells (heap st) b) ∧
  (∀ b, same_def (cells (heap st') b) (cells (heap st) b)) ∧
  ∃ evs, stdout st' = stdout st ++ evs ∧
         Forall (fun e => event_task e = Some tid) evs.
Proof.
  intros Hrun.
  assert (Hsame : st' = st →
    next (heap st') = next (heap st) ∧
    (∀ b, dict_get tid d ≠ Some b → cells (heap st') b = cells (heap st) b) ∧
    (∀ b, same_def (cells (heap st') b) (cells (heap st) b)) ∧
    ∃ evs, stdout st' = stdout st ++ evs ∧
           Forall (fun e => event_task e = Some tid) evs).
  { intros ->. split; [done|]. split; [done|].
    split; [intros; apply same_def_refl|].
    exists []. by rewrite app_nil_r. }
  destruct c as [[]|e].
  2:{ apply run_task_raised in Hrun as [-> _]. by apply Hsame. }
  apply run_task_returned in Hrun as (a & Ha & [[_ ->]|[_ ->]]).
  - autorewrite with st. split; [done|]. split; [|split].
    + intros b Hb. assert (b ≠ a) by congruence. by autorewrite with st.
    + intros b. destruct (decide (b = a)) as [->|Hne]; autorewrite with st;
        [by repeat split | apply same_def_refl].
    + eexists. split; [done|]. by repeat constructor.
  - match goal with |- context [attempts now ?n ?k tid a ?s] =>
      destruct (attempts_heap n k tid a s) as (Hn & Hf & Hs);
      destruct (attempts_log n k tid a s) as (evs & Hout & Hall & _) end.
    rewrite Hn, Hout. autorewrite with st. split; [done|]. split; [|split].
    + intros b Hb. assert (b ≠ a) by congruence. rewrite Hf by done.
      by autorewrite with st.
    + intros b. destruct (decide (b = a)) as [->|Hne].
      * eapply same_def_trans; [exact Hs|]. autorewrite with st.
        by repeat split.
      * rewrite Hf by done. autorewrite with st. apply same_def_refl.
    + eauto.
Qed.

Lemma run_task_summary (d : dict nat) tid (st st' : St) :
  run_task now d tid st = (Returned (), st') →
  ∃ a evs, dict_get tid d = Some a ∧ task_step d tid a st st' evs.
Proof.
  intros Hrun.
  apply run_task_returned in Hrun as (a & Ha & [[Hg ->]|[Hg ->]]).
  - exists a, [PrintSkipping tid]. split; [done|]. unfold task_step.
    autorewrite with st. split; [done|]. split; [by repeat constructor|].
    left. split; [|done]. apply deps_success_false in Hg. exact Hg.
  - match goal with |- context [attempts now ?n ?k tid a ?s] =>
      destruct (attempts_log n k tid a s) as (evs & Hout & Hall & Hno & Hyes);
      pose proof (attempts_status n k tid a s) as Hst;
      pose proof (attempts_terminal n k tid a s) as Hterm;
      pose proof (attempts_failed_error n k tid a s) as Hfe end.
    exists a, evs. split; [done|]. unfold task_step.
    revert Hout Hno Hyes Hst Hterm Hfe. autorewrite with st.
    cbn [status retries error with_started_at with_status].
    intros Hout Hno Hyes Hst Hterm Hfe.
    split; [done|]. split; [done|]. right.
    split; [by apply deps_success_true|]. split; [done|].
    split; [intros Hr; apply Hterm; lia|].
    split; [|done]. intros HF. by destruct (Hfe HF).
Qed.

(** ** The task loop *)

(** The proof rule of the loop: [P done st] holds when the ids of [done]
    have had their iteration and the state is [st]. *)
Lemma run_loop_invariant (d : dict nat) (P : list string → St → Prop) :
  ∀ o done (st : St) c st',
    P done st →
    (∀ done' tid rest st1 st2,
       done ++ o = done' ++ tid :: rest → P done' st1 →
       run_task now d tid st1 = (Returned (), st2) → P (done' ++ [tid]) st2) →
    run_loop now d o st = (c, st') →
    match c with
    | Returned _ => P (done ++ o) st'
    | Raised e =>
        ∃ done' tid rest, done ++ o = done' ++ tid :: rest ∧ P done' st' ∧
                          run_task now d tid st' = (Raised e, st')
    end.
Proof.
  induction o as [|tid o IH]; intros done st c st' HP Hstep; simpl.
  - intros [= <- <-]. by rewrite app_nil_r.
  - destruct (run_task now d tid st) as [[[]|e] st1] eqn:E.
    + intros Hrun.
      assert (Heq : (done ++ [tid]) ++ o = done ++ tid :: o)
        by (by rewrite <- app_assoc).
      specialize (IH (done ++ [tid]) st1 c st').
      rewrite Heq in IH. apply IH; [| |done].
      * by apply (Hstep done tid o st st1).
      * intros done' tid' rest s1 s2 Heq'. by apply (Hstep done' tid' rest).
    + intros [= <- <-]. exists done, tid, o.
      destruct (run_task_raised _ _ _ _ _ E) as [-> _]. done.
Qed.

Lemma events_of_other tid x (evs : list Event) :
  Forall (fun e => event_task e = Some tid) evs → x ≠ tid →
  attempt_count x evs = 0 ∧ existsb (is_failure x) evs = false.
Proof.
  intros Hall Hne. induction Hall as [|e evs He _ [IH1 IH2]]; [done|].
  rewrite attempt_count_cons, IH1. simpl. rewrite IH2.
  destruct e; simpl in *; try done; injection He as ->;
    by rewrite bool_decide_eq_false_2.
Qed.

Lemma events_of_done tid (done : list string) (new : list Event) :
  Forall (fun e => ∃ x, event_task e = Some x ∧ x ∈ done) new → tid ∉ done →
  attempt_count tid new = 0 ∧ existsb (is_failure tid) new = false.
Proof.
  intros Hall Hne. induction Hall as [|e evs (x & He & Hx) _ [IH1 IH2]]; [done|].
  rewrite attempt_count_cons, IH1. simpl. rewrite IH2.
  assert (tid ≠ x) by (intros ->; done).
  destruct e; simpl in *; try done; injection He as ->;
    by rewrite bool_decide_eq_false_2.
Qed.

Lemma base_inv_step (d : dict nat) (h1 : Heap) out0 done tid (st1 st2 : St) :
  dict_inj d → tid ∉ done →
  base_inv d h1 out0 done st1 →
  run_task now d tid st1 = (Returned (), st2) →
  base_inv d h1 out0 (done ++ [tid]) st2.
Proof.
  intros Hinj Hnew (Hn & Hsd & Hun & new & Hout & Hev & Hdone) Hrun.
  destruct (run_task_frame _ _ _ _ _ Hrun) as (Hn2 & Hf2 & Hsd2 & _).
  destruct (run_task_summary _ _ _ _ Hrun) as (a & evs & Ha & Hout2 & Hev2 & Hcase).
  assert (Hold : ∀ x ax, x ∈ done → dict_get x d = Some ax →
                         cells (heap st2) ax = cells (heap st1) ax).
  { intros x ax Hx Hax. apply Hf2. rewrite Ha. intros [= <-].
    apply Hnew. by rewrite (Hinj tid x a Ha Hax). }
  assert (Ha1 : cells (heap st1) a = cells h1 a).
  { apply Hun. intros x Hx Hxa. apply Hnew. by rewrite (Hinj tid x a Ha Hxa). }
  destruct (events_of_done tid done new Hev Hnew) as [Hc0 Hf0].
  split; [congruence|]. split.
  { intros b. eapply same_def_trans; [apply Hsd2|apply Hsd]. }
  split.
  { intros b Hb. rewrite Hf2.
    - apply Hun. intros x Hx. apply Hb. apply elem_of_app. by left.
    - apply Hb. apply elem_of_app. right. left. }
  exists (new ++ evs). split; [by rewrite Hout2, Hout, app_assoc|]. split.
  { apply Forall_app. split.
    - eapply Forall_impl; [exact Hev|]. intros e (x & He & Hx).
      exists x. split; [done|]. apply elem_of_app. by left.
    - eapply Forall_impl; [exact Hev2|]. intros e He.
      exists tid. split; [done|]. apply elem_of_app. right. left. }
  intros x ax Hx Hax. rewrite attempt_count_app, existsb_app.
  apply elem_of_app in Hx as [Hx|Hx].
  - assert (x ≠ tid) by (intros ->; done).
    destruct (events_of_other tid x evs Hev2) as [-> ->]; [done|].
    rewrite (Hold x ax Hx Hax), Nat.add_0_r, orb_false_r. by apply Hdone.
  - apply list_elem_of_singleton in Hx as ->.
    assert (ax = a) as -> by congruence.
    rewrite Hc0, Hf0. simpl. rewrite <- Ha1.
    destruct Hcase as [(_ & Hs & He & ->)|(Hall & Hs & Ht & HF & Hno & Hyes)].
    + rewrite Hs, He. rewrite attempt_count_cons. simpl.
      repeat split; try done. by right; right.
    + split; [destruct Hs as [->|[->| ->]]; done|].
      split; [intros E; destruct Hs as [H|[H|H]]; congruence|].
      split; [done|]. split; [|split; [done|split; [done|]]].
      * intros Hr. destruct (Ht Hr) as [->| ->]; [by left|by right; left].
      * intros (dep & Hdep & Hnone). exfalso.
        specialize (Hall dep Hdep). apply status_of_Some in Hall as (b & Hb & _).
        congruence.
Qed.

Lemma gate_inv_step (d : dict nat) (h1 : Heap) out0 done tid (st1 st2 : St) :
  dict_inj d → tid ∉ done →
  (∀ x, x ∈ done → depends_on d h1 x tid → rtc (depends_on d h1) tid x) →
  (∀ x a, dict_get x d = Some a → status (cells h1 a) ≠ SUCCESS) →
  base_inv d h1 out0 done st1 → gate_inv d h1 done st1 →
  run_task now d tid st1 = (Returned (), st2) →
  gate_inv d h1 (done ++ [tid]) st2.
Proof.
  intros Hinj Hnew Hback Hpend (_ & _ & Hun & _) Hgate Hrun.
  destruct (run_task_frame _ _ _ _ _ Hrun) as (_ & Hf2 & _ & _).
  destruct (run_task_summary _ _ _ _ Hrun) as (a & evs & Ha & _ & _ & Hcase).
  assert (Ha1 : cells (heap st1) a = cells h1 a).
  { apply Hun. intros x Hx Hxa. apply Hnew. by rewrite (Hinj tid x a Ha Hxa). }
  rewrite Ha1 in Hcase.
  assert (Hother : ∀ y, y ≠ tid →
            status_of d (heap st2) y = status_of d (heap st1) y).
  { intros y Hy. unfold status_of, task_of.
    destruct (dict_get y d) as [b|] eqn:Eb; [|done]. simpl.
    rewrite Hf2; [done|]. rewrite Ha. intros [= <-].
    apply Hy. by apply (Hinj y tid a). }
  assert (Htid1 : status_of d (heap st1) tid ≠ Some SUCCESS).
  { unfold status_of, task_of. rewrite Ha. simpl. rewrite Ha1.
    intros [= E]. by apply (Hpend tid a). }
  assert (Htid2 : status_of d (heap st2) tid
                  = Some (status (cells (heap st2) a))).
  { unfold status_of, task_of. by rewrite Ha. }
  assert (Hcyc : tc (depends_on d h1) tid tid →
                 status (cells (heap st2) a) = SKIPPED).
  { intros Htc. destruct Hcase as [(_ & Hs & _)|(Hall & _)]; [done|].
    exfalso.
    assert (∃ y, y ∈ dependencies (cells h1 a) ∧ tc (depends_on d h1) y y)
      as (y & Hy & Hyy).
    { assert (Hdep : ∀ y, depends_on d h1 tid y → y ∈ dependencies (cells h1 a))
        by (intros y; unfold depends_on, deps_of; by rewrite Ha).
      inversion Htc as [? ? Hd|? y ? Hd Hrest]; subst.
      - exists tid. split; [by apply Hdep|done].
      - exists y. split; [by apply Hdep|]. eapply tc_r; done. }
    specialize (Hall y Hy). apply status_of_Some in Hall as (b & Hb & Hsb).
    destruct (decide (y ∈ done)) as [Hin|Hnin].
    - destruct (Hgate y b Hin Hb) as [_ Hsk]. rewrite Hsk in Hsb; done.
    - rewrite Hun in Hsb; [by apply (Hpend y b)|].
      intros x Hx Hxb. apply Hnin. by rewrite (Hinj y x b Hb Hxb). }
  intros x ax Hx Hax. apply elem_of_app in Hx as [Hx|Hx].
  - assert (x ≠ tid) by (intros ->; done).
    assert (Hsame : cells (heap st2) ax = cells (heap st1) ax).
    { apply Hf2. rewrite Ha. intros [= <-]. by apply H, (Hinj x tid a). }
    rewrite Hsame. destruct (Hgate x ax Hx Hax) as [Hiff Hsk].
    split; [|done]. rewrite Hiff. split.
    + intros (dep & Hdep & Hns). exists dep. split; [done|].
      destruct (decide (dep = tid)) as [->|Hne]; [|by rewrite Hother].
      rewrite Htid2, Hcyc; [done|].
      eapply tc_rtc_l; [apply Hback; [exact Hx|]|apply tc_once];
        unfold depends_on, deps_of; by rewrite Hax.
    + intros (dep & Hdep & Hns). exists dep. split; [done|].
      destruct (decide (dep = tid)) as [->|Hne]; [done|by rewrite <- Hother].
  - apply list_elem_of_singleton in Hx as ->.
    assert (ax = a) as -> by congruence.
    split; [|done].
    destruct Hcase as [((dep & s & Hdep & Hs & Hne) & Hsk & _)|(Hall & Hs & _)].
    + split; [|done]. intros _. exists dep. split; [done|].
      destruct (decide (dep = tid)) as [->|Hd].
      * rewrite Htid2, Hsk. done.
      * rewrite Hother, Hs by done. congruence.
    + split; [intros E; destruct Hs as [H|[H|H]]; congruence|].
      intros (dep & Hdep & Hns). exfalso. apply Hns.
      assert (dep ≠ tid) by (intros ->; apply Htid1; by apply Hall).
      rewrite Hother by done. by apply Hall.
Qed.

Lemma tc_subrel {A} (R1 R2 : relation A) x y :
  (∀ x y, R1 x y → R2 x y) → tc R1 x y → tc R2 x y.
Proof.
  intros Hsub H. induction H as [x y H|x y z H _ IH].
  - by apply tc_once, Hsub.
  - eapply tc_l; [by apply Hsub|done].
Qed.

(** A dependency that the order places after its dependent closes a
    cycle. *)
Lemma order_back_edge (R : relation string) (reg : string → Prop)
    (o done rest : list string) tid x :
  NoDup o →
  (∀ j x, o !! j = Some x → ∀ d, R x d → reg d →
     (∃ i, i < j ∧ o !! i = Some d) ∨ rtc R d x) →
  o = done ++ tid :: rest → x ∈ done → R x tid → reg tid →
  rtc R tid x.
Proof.
  intros Hnd Hplaced -> Hx HR Hreg.
  apply list_elem_of_lookup in Hx as [j Hj].
  assert (Hjlt : j < length done) by (by eapply lookup_lt_Some).
  destruct (Hplaced j x (lookup_app_l_Some _ _ _ _ Hj) tid HR Hreg)
    as [(i & Hi & Hit)|Hr]; [|done].
  exfalso.
  assert (Htid : (done ++ tid :: rest) !! length done = Some tid)
    by (by rewrite list_lookup_middle).
  pose proof (NoDup_lookup _ _ _ _ Hnd Hit Htid). lia.
Qed.

(** What holds when the task loop stops, whether it ran through the whole
    order or a gate raised. *)
Lemma run_loop_facts (d : dict nat) o (st0 : St) c st' :
  dict_inj d → NoDup o →
  (∀ x, x ∈ o → is_Some (dict_get x d)) →
  (∀ j x, o !! j = Some x → ∀ y, depends_on d (heap st0) x y →
     is_Some (dict_get y d) →
     (∃ i, i < j ∧ o !! i = Some y) ∨ rtc (depends_on d (heap st0)) y x) →
  run_loop now d o st0 = (c, st') →
  ∃ done,
    base_inv d (heap st0) (stdout st0) done st' ∧
    ((∀ x a, dict_get x d = Some a → status (cells (heap st0) a) ≠ SUCCESS) →
     gate_inv d (heap st0) done st') ∧
    match c with
    | Returned _ => done = o
    | Raised e => ∃ tid rest, o = done ++ tid :: rest ∧
                              run_task now d tid st' = (Raised e, st')
    end.
Proof.
  intros Hinj Hnd Hreg Hplaced Hrun.
  pose proof (run_loop_invariant d
    (fun done st =>
       base_inv d (heap st0) (stdout st0) done st ∧
       ((∀ x a, dict_get x d = Some a → status (cells (heap st0) a) ≠ SUCCESS) →
        gate_inv d (heap st0) done st)) o [] st0 c st') as Hrule.
  simpl in Hrule.
  lapply Hrule; [clear Hrule; intros Hrule|].
  2:{ split.
      - split; [done|]. split; [intros; apply same_def_refl|]. split; [done|].
        exists []. rewrite app_nil_r. split; [done|]. split; [done|].
        intros x a Hx. inversion Hx.
      - intros _ x a Hx. inversion Hx. }
  lapply Hrule; [clear Hrule; intros Hrule|].
  2:{ intros done tid rest st1 st2 Heq [Hb Hg] Hstep.
      assert (Hnew : tid ∉ done).
      { rewrite Heq in Hnd. apply NoDup_app in Hnd as (_ & Hdis & _).
        intros Hin. apply (Hdis tid Hin). left. }
      split; [by eapply base_inv_step|].
      intros Hpend. eapply gate_inv_step; try done; [|by apply Hg].
      intros x Hx Hdep.
      eapply (order_back_edge _ (fun y => is_Some (dict_get y d)));
        [exact Hnd|exact Hplaced|exact Heq|done|done|].
      apply Hreg. rewrite Heq. apply elem_of_app. right. left. }
  specialize (Hrule Hrun). destruct c as [[]|e].
  - exists o. by destruct Hrule.
  - destruct Hrule as (done & tid & rest & Heq & [Hb Hg] & Hr).
    exists done. split; [done|]. split; [done|]. eauto.
Qed.

(** ** The copies of the task definitions *)

Lemma copy_tasks_spec (items : dict nat) : ∀ (h h' : Heap) d,
  copy_tasks items h = (h', d) →
  keys d = keys items ∧
  next h' = next h + length items ∧
  (∀ b, b < next h → cells h' b = cells h b) ∧
  (∀ k a, dict_get k d = Some a →
     next h ≤ a ∧ a < next h' ∧
     ∃ a0, dict_get k items = Some a0 ∧
           (a0 < next h → cells h' a = cells h a0)) ∧
  dict_inj d.
Proof.
  induction items as [|[k0 a0] items IH]; intros h h' d; simpl.
  - intros [= <- <-]. split; [done|]. split; [lia|]. split; [done|].
    split; [intros k a [=]|]. intros k1 k2 a [=].
  - destruct (copy_tasks items _) as [h2 d2] eqn:E. intros [= <- <-].
    destruct (IH _ _ _ E) as (Hk & Hn & Hf & Hg & Hi). simpl in Hn, Hf, Hg.
    split; [simpl; by rewrite Hk|]. split; [simpl; lia|]. split; [|split].
    + intros b Hb. rewrite Hf by lia. simpl. rewrite decide_False; [done|lia].
    + intros k a. simpl. case_decide as Hkk.
      * intros [= <-]. split; [done|]. split; [lia|]. exists a0.
        split; [done|]. intros _. rewrite Hf by lia. simpl.
        by rewrite decide_True.
      * intros Hget. destruct (Hg k a Hget) as (Hlo & Hhi & a1 & Ha1 & Hc).
        split; [lia|]. split; [lia|]. exists a1. split; [done|].
        intros Hlt. rewrite Hc by lia. simpl. rewrite decide_False; [done|lia].
    + intros k1 k2 a. simpl. repeat case_decide; subst.
      * done.
      * intros [= <-] H2. apply Hg in H2 as (Hlo & _). lia.
      * intros H1 [= <-]. apply Hg in H1 as (Hlo & _). lia.
      * apply Hi.
Qed.

Lemma valid_refs_lookup (ts : dict nat) (h : Heap) x a :
  valid_refs ts h → dict_get x ts = Some a → a < next h.
Proof.
  intros Hv Hx. apply dict_get_Some_elem in Hx.
  unfold valid_refs in Hv. rewrite Forall_forall in Hv. exact (Hv _ Hx).
Qed.

(** The copies and the definitions: same ids, same field values, and the
    definitions are not touched. *)
Lemma copy_of_defs (ts : dict nat) (h h1 : Heap) d :
  copy_tasks ts h = (h1, d) → valid_refs ts h →
  keys d = keys ts ∧
  dict_inj d ∧
  (∀ b, b < next h → cells h1 b = cells h b) ∧
  (∀ x, is_Some (dict_get x d) ↔ registered ts x) ∧
  (∀ x a, dict_get x d = Some a →
     next h ≤ a ∧ ∃ a0, dict_get x ts = Some a0 ∧ cells h1 a = cells h a0) ∧
  (∀ x, deps_of d h1 x = deps_of ts h x) ∧
  (∀ x, deps_of ts h1 x = deps_of ts h x).
Proof.
  intros Hc Hv.
  destruct (copy_tasks_spec _ _ _ _ Hc) as (Hk & Hn & Hf & Hg & Hi).
  assert (Hcopy : ∀ x a, dict_get x d = Some a →
            next h ≤ a ∧ ∃ a0, dict_get x ts = Some a0 ∧ cells h1 a = cells h a0).
  { intros x a Hx. destruct (Hg x a Hx) as (Hlo & _ & a0 & Ha0 & Hcell).
    split; [done|]. exists a0. split; [done|].
    apply Hcell. by eapply valid_refs_lookup. }
  assert (Hreg : ∀ x, is_Some (dict_get x d) ↔ registered ts x).
  { intros x. unfold registered. by rewrite dict_get_is_Some, Hk. }
  split; [done|].
  split; [done|]. split; [done|]. split; [done|]. split; [done|]. split.
  - intros x. unfold deps_of. destruct (dict_get x d) as [a|] eqn:Ea.
    + destruct (Hcopy x a Ea) as (_ & a0 & -> & ->). done.
    + destruct (dict_get x ts) as [a0|] eqn:Ea0; [|done].
      assert (is_Some (dict_get x d)) as [? ?]
        by (apply Hreg, dict_get_is_Some; eauto).
      congruence.
  - intros x. unfold deps_of. destruct (dict_get x ts) as [a0|] eqn:Ea0; [|done].
    rewrite Hf; [done|]. by eapply valid_refs_lookup.
Qed.

(** ** [run], taken apart *)

Variable strftime : Time -> string.

Lemma run_inversion (p : Pipeline) ctx (h : Heap) w out c (st' : St) :
  run now strftime p ctx h w out = (c, st') →
  ∃ h1 d st0 cl stl,
    copy_tasks (tasks p) h = (h1, d) ∧
    heap st0 = h1 ∧ context st0 = default ∅ ctx ∧
    stdout st0 = out ++ [PrintStarting (dag_id p);
                         PrintOrder (execution_order p h1)] ∧
    run_loop now d (execution_order p h1) st0 = (cl, stl) ∧
    heap st' = heap stl ∧ context st' = context stl ∧
    stdout st' = stdout stl ∧
    match cl with
    | Raised e => c = Raised e
    | Returned _ =>
        ∃ p' r, c = Returned (p', r) ∧ run_tasks r = d ∧
          run_dag_id r = dag_id p ∧ is_Some (end_time r) ∧
          run_status r = (if all_success_or_skipped d (heap stl)
                          then SUCCESS else FAILED) ∧
          tasks p' = tasks p ∧ dag_id p' = dag_id p ∧ runs p' = runs p ++ [r]
    end.
Proof.
  unfold run. destruct (now w) as [t0 w0]. destruct (now w0) as [t1 w1].
  destruct (copy_tasks (tasks p) h) as [h1 d] eqn:Ec.
  destruct (run_loop _ _ _ _) as [[[]|e] stl] eqn:El.
  - destruct (now (world stl)) as [t2 w2]. intros [= <- <-].
    exists h1, d, (mkSt h1 (default ∅ ctx) w1
                     (out ++ [PrintStarting (dag_id p);
                              PrintOrder (execution_order p h1)])),
      (Returned ()), stl. split; [done|].
    repeat (split; [done|]). simpl.
    do 2 eexists. split; [reflexivity|]. simpl.
    split; [done|]. split; [done|]. split; [by eexists|]. done.
  - intros [= <- <-].
    exists h1, d, (mkSt h1 (default ∅ ctx) w1
                     (out ++ [PrintStarting (dag_id p);
                              PrintOrder (execution_order p h1)])),
      (Raised e), stl. split; [done|].
    repeat (split; [done|]). done.
Qed.

Lemma base_inv_ext (d : dict nat) (h1 : Heap) out0 done (st st' : St) :
  heap st' = heap st → stdout st' = stdout st →
  base_inv d h1 out0 done st → base_inv d h1 out0 done st'.
Proof. unfold base_inv. intros -> ->. done. Qed.

Lemma gate_inv_ext (d : dict nat) (h1 : Heap) done (st st' : St) :
  heap st' = heap st → gate_inv d h1 done st → gate_inv d h1 done st'.
Proof. unfold gate_inv. intros ->. done. Qed.

(** Everything the theorems about [run] start from. *)
Lemma run_facts (p : Pipeline) ctx (h : Heap) w out c (st' : St) :
  valid_refs (tasks p) h →
  run now strftime p ctx h w out = (c, st') →
  ∃ h1 d done,
    keys d = keys (tasks p) ∧
    dict_inj d ∧
    (∀ b, b < next h → cells h1 b = cells h b) ∧
    (∀ x, is_Some (dict_get x d) ↔ registered (tasks p) x) ∧
    (∀ x a, dict_get x d = Some a →
       next h ≤ a ∧
       ∃ a0, dict_get x (tasks p) = Some a0 ∧ cells h1 a = cells h a0) ∧
    (∀ x, deps_of d h1 x = deps_of (tasks p) h x) ∧
    base_inv d h1
      (out ++ [PrintStarting (dag_id p); PrintOrder (execution_order p h1)])
      done st' ∧
    ((∀ x a, dict_get x (tasks p) = Some a → status (cells h a) ≠ SUCCESS) →
     gate_inv d h1 done st') ∧
    match c with
    | Returned (p', r) =>
        (∀ x, x ∈ done ↔ registered (tasks p) x) ∧
        run_tasks r = d ∧ is_Some (end_time r) ∧
        run_status r = (if all_success_or_skipped d (heap st')
                        then SUCCESS else FAILED) ∧
        tasks p' = tasks p ∧ dag_id p' = dag_id p ∧ runs p' = runs p ++ [r]
    | Raised e =>
        ∃ x k, e = KeyError k ∧ depends_on (tasks p) h x k ∧
               ¬ registered (tasks p) k
    end.
Proof.
  intros Hv Hrun.
  destruct (run_inversion _ _ _ _ _ _ _ Hrun)
    as (h1 & d & st0 & cl & stl & Hc & Hh0 & _ & Hout0 & Hloop
        & Hheap & _ & Hout & Hend).
  destruct (copy_of_defs _ _ _ _ Hc Hv)
    as (Hkeys & Hinj & Hf & Hreg & Hcopy & Hdeps & Hdeps1).
  destruct (execution_order_spec p h1) as (Hnd & Hmem & Hplaced).
  assert (Hrel : ∀ x y, depends_on (tasks p) h1 x y ↔ depends_on d h1 x y)
    by (intros x y; unfold depends_on; by rewrite Hdeps, Hdeps1).
  destruct (run_loop_facts d (execution_order p h1) st0 cl stl Hinj Hnd)
    as (done & Hbase & Hgate & Hstop); [| |exact Hloop|].
  { intros x Hx. by apply Hreg, Hmem. }
  { rewrite Hh0. intros j x Hj y Hxy Hy.
    assert (H1 : depends_on (tasks p) h1 x y) by (by apply Hrel).
    assert (H2 : registered (tasks p) y) by (by apply Hreg).
    destruct (Hplaced j x Hj y H1 H2) as [?|Hr]; [by left|].
    right. eapply rtc_subrel; [|exact Hr]. intros ? ?. apply Hrel. }
  rewrite Hh0, Hout0 in Hbase. rewrite Hh0 in Hgate.
  exists h1, d, done. repeat (split; [done|]).
  split; [by apply (base_inv_ext _ _ _ _ stl)|]. split.
  { intros Hpend. apply (gate_inv_ext _ _ _ stl); [done|]. apply Hgate.
    intros x a Hx. destruct (Hcopy x a Hx) as (_ & a0 & Ha0 & ->).
    by apply (Hpend x). }
  destruct cl as [[]|e].
  - destruct Hend as (p' & r & -> & ? & ? & ? & ? & ? & ? & ?). subst done.
    split; [done|]. rewrite Hheap. done.
  - subst c. destruct Hstop as (tid & rest & Heq & Hraise).
    destruct Hbase as (_ & Hsame & _).
    assert (Htid : is_Some (dict_get tid d)).
    { apply Hreg, Hmem. rewrite Heq. apply elem_of_app. right. left. }
    apply run_task_raised in Hraise as (_ & [[_ Hn]|(a & Ha & Hg)]).
    { rewrite Hn in Htid. by destruct Htid. }
    apply deps_success_raised in Hg as (k & Hk & -> & Hkn).
    exists tid, k. split; [done|]. split.
    + unfold depends_on. rewrite <- Hdeps. unfold deps_of. rewrite Ha.
      destruct (Hsame a) as (_ & _ & _ & _ & <- & _). done.
    + intros Hr. apply Hreg in Hr. rewrite Hkn in Hr. by destruct Hr.
Qed.

(** ** The overall status *)

Lemma status_of_cons k a (d : dict nat) (h : Heap) x :
  status_of ((k, a) :: d) h x
  = if decide (x = k) then Some (status (cells h a)) else status_of d h x.
Proof. unfold status_of, task_of. simpl. by case_decide. Qed.

Lemma all_success_or_skipped_cons k a (d : dict nat) (h : Heap) :
  all_success_or_skipped ((k, a) :: d) h
  = (bool_decide (status (cells h a) = SUCCESS)
     || bool_decide (status (cells h a) = SKIPPED))
    && all_success_or_skipped d h.
Proof. reflexivity. Qed.

Lemma all_success_or_skipped_elim (d : dict nat) (h : Heap) :
  all_success_or_skipped d h = true →
  ∀ x s, status_of d h x = Some s → s = SUCCESS ∨ s = SKIPPED.
Proof.
  induction d as [|[k a] d IH]; [done|].
  rewrite all_success_or_skipped_cons. intros Hall x s.
  apply andb_prop in Hall as [Hhd Htl]. rewrite status_of_cons.
  destruct (decide (x = k)); [|by apply IH]. intros [= <-].
  apply orb_prop in Hhd as [Hs|Hs]; apply bool_decide_eq_true in Hs; auto.
Qed.

Lemma all_success_or_skipped_intro (d : dict nat) (h : Heap) :
  NoDup (keys d) →
  (∀ x s, status_of d h x = Some s → s = SUCCESS ∨ s = SKIPPED) →
  all_success_or_skipped d h = true.
Proof.
  induction d as [|[k a] d IH]; [done|].
  rewrite all_success_or_skipped_cons. unfold keys. rewrite fmap_cons.
  intros Hnd Hall. apply NoDup_cons in Hnd as [Hk Hnd].
  apply andb_true_intro. split.
  - specialize (Hall k (status (cells h a))). rewrite status_of_cons in Hall.
    rewrite decide_True in Hall by done.
    destruct (Hall eq_refl) as [E|E]; rewrite E; [done|apply orb_true_r].
  - apply IH; [done|]. intros x s Hx. apply (Hall x s).
    rewrite status_of_cons. rewrite decide_False; [done|]. intros ->.
    apply status_of_Some in Hx as (b & Hb & _).
    apply Hk. apply (dict_get_is_Some k d). eauto.
Qed.

Lemma run_returns (p : Pipeline) ctx (h : Heap) w out c (st' : St) :
  valid_refs (tasks p) h → deps_registered (tasks p) h →
  run now strftime p ctx h w out = (c, st') →
  ∃ p' r, c = Returned (p', r).
Proof.
  intros Hv Hclosed Hrun.
  destruct (run_facts _ _ _ _ _ _ _ Hv Hrun)
    as (h1 & d & done & _ & _ & _ & _ & _ & _ & _ & _ & Hend).
  destruct c as [[p' r]|e]; [eauto|].
  destruct Hend as (x & k & _ & Hdep & Hk). destruct Hk. by eapply Hclosed.
Qed.

(** ** The context dict *)

Lemma keeps_context_same_def (t t' : Task) :
  same_def t t' → keeps_context t' → keeps_context t.
Proof.
  unfold keeps_context. intros (_ & Hc & _) H a k c w. rewrite Hc. apply H.
Qed.

(** The engine hands the context to the bodies and never assigns to it:
    when no body changes the context, no statement of the retry loop
    does. *)
Lemma attempts_context n : ∀ k tid a (st : St),
  keeps_context (cells (heap st) a) →
  context (attempts now n k tid a st) = context st.
Proof.
  induction n as [|n IH]; intros k tid a st Hkeep; cbn [attempts]; [done|].
  pose proof (Hkeep (args (cells (heap st) a)) (kwargs (cells (heap st) a))
                    (context st) (world st)) as Hc.
  autorewrite with st.
  destruct (callable _ _ _ _ _) as [[[r|e] c] w]; simpl in Hc; subst c.
  - by autorewrite with st.
  - destruct (_ <? _)%Z; rewrite IH; autorewrite with st; try done;
      intros a' k' c' w'; apply Hkeep.
Qed.

Lemma run_task_context (d : dict nat) tid c (st st' : St) :
  (∀ b, keeps_context (cells (heap st) b)) →
  run_task now d tid st = (c, st') → context st' = context st.
Proof.
  intros Hkeep Hrun. destruct c as [[]|e].
  - apply run_task_returned in Hrun as (a & _ & [[_ ->]|[_ ->]]); [done|].
    rewrite attempts_context; autorewrite with st; [done|].
    intros a' k' c' w'. apply Hkeep.
  - by apply run_task_raised in Hrun as [-> _].
Qed.

Lemma copy_tasks_keeps_context (items : dict nat) : ∀ (h h1 : Heap) d,
  (∀ b, keeps_context (cells h b)) →
  copy_tasks items h = (h1, d) → ∀ b, keeps_context (cells h1 b).
Proof.
  induction items as [|[k a] items IH]; intros h h1 d Hkeep; simpl.
  - by intros [= <- <-].
  - destruct (copy_tasks items _) as [h2 d2] eqn:E. intros [= <- <-].
    eapply IH; [|exact E]. intros b. simpl. by case_decide.
Qed.

(** [run] never writes to the context: if no task body changes it, it
    ends as the caller passed it. *)
Lemma run_keeps_context (p : Pipeline) ctx (h : Heap) w out c (st' : St) :
  (∀ b, keeps_context (cells h b)) →
  run now strftime p ctx h w out = (c, st') →
  context st' = default ∅ ctx.
Proof.
  intros Hkeep Hrun.
  destruct (run_inversion _ _ _ _ _ _ _ Hrun)
    as (h1 & d & st0 & cl & stl & Hc & Hh0 & Hc0 & _ & Hloop & _ & -> & _).
  rewrite <- Hc0.
  pose proof (run_loop_invariant d
    (fun _ s => context s = context st0 ∧
                ∀ b, keeps_context (cells (heap s) b))
    (execution_order p h1) [] st0 cl stl) as Hrule.
  lapply Hrule; [clear Hrule; intros Hrule|].
  2:{ split; [done|]. rewrite Hh0. by eapply copy_tasks_keeps_context. }
  lapply Hrule; [clear Hrule; intros Hrule|].
  2:{ intros done tid rest s1 s2 _ [Hctx Hk] Hstep. split.
      - by rewrite (run_task_context _ _ _ _ _ Hk Hstep).
      - intros b. destruct (run_task_frame _ _ _ _ _ Hstep) as (_ & _ & Hs & _).
        eapply keeps_context_same_def; [apply Hs|apply Hk]. }
  specialize (Hrule Hloop). destruct cl as [[]|e]; [by destruct Hrule|].
  by destruct Hrule as (_ & _ & _ & _ & [H _] & _).
Qed.

(** ** Checking a concrete pipeline *)

Lemma dict_get_Forall {V} (P : string → V → Prop) (d : dict V) :
  Forall (fun kv => P kv.1 kv.2) d →
  ∀ x v, dict_get x d = Some v → P x v.
Proof.
  intros Hall x v Hx. apply dict_get_Some_elem in Hx.
  rewrite Forall_forall in Hall. exact (Hall _ Hx).
Qed.

Lemma depends_on_Forall (ts : dict nat) (h : Heap) (P : string → string → Prop) :
  Forall (fun kv => Forall (P kv.1) (dependencies (cells h kv.2))) ts →
  ∀ x d, depends_on ts h x d → P x d.
Proof.
  intros Hall x d. unfold depends_on, deps_of.
  destruct (dict_get x ts) as [a|] eqn:Ea; [|intros H; inversion H].
  intros Hd.
  pose proof (dict_get_Forall
    (fun k b => Forall (P k) (dependencies (cells h b))) ts Hall x a Ea) as Hx.
  rewrite Forall_forall in Hx. by apply Hx.
Qed.

(** A rank that decreases along every dependency rules out cycles. *)
Lemma acyclic_by_rank (ts : dict nat) (h : Heap) (rank : string → nat) :
  (∀ x d, depends_on ts h x d → rank d < rank x) → acyclic ts h.
Proof.
  intros Hrank.
  assert (Htc : ∀ x y, tc (depends_on ts h) x y → rank y < rank x).
  { intros x y H. induction H as [x y H|x y z H _ IH].
    - by apply Hrank.
    - apply Hrank in H. lia. }
  intros x Hx. apply Htc in Hx. lia.
Qed.

(** ** The claims about [run] *)



(** C10. [run] leaves the registered task definitions unchanged: it works
    on copies, which are new objects, and assigns to no object that existed
    before the call; so a definition that was [PENDING] with unset result,
    error and timestamps is so after [run], the task mapping of the
    pipeline is the same, and a later run starts from the same
    definitions. *)
Theorem run_leaves_definitions (p : Pipeline) ctx (h : Heap) w out c
    (st' : St) :
  valid_refs (tasks p) h →
  run now strftime p ctx h w out = (c, st') →
  (∀ b, b < next h → cells (heap st') b = cells h b) ∧
  (fresh_defs (tasks p) h → fresh_defs (tasks p) (heap st')) ∧
  (∀ p' r, c = Returned (p', r) →
     tasks p' = tasks p ∧
     ∀ x a, dict_get x (run_tasks r) = Some a →
       ∃ a0, dict_get x (tasks p) = Some a0 ∧ a0 < a ∧
             same_def (cells (heap st') a) (cells h a0)).
Proof.
  intros Hv Hrun.
  destruct (run_facts _ _ _ _ _ _ _ Hv Hrun)
    as (h1 & d & done & _ & _ & Hf & _ & Hcopy & _ & Hbase & _ & Hend).
  destruct Hbase as (_ & Hsame & Hun & _).
  assert (Hframe : ∀ b, b < next h → cells (heap st') b = cells h b).
  { intros b Hb. rewrite Hun; [by apply Hf|].
    intros x _ Hx. apply Hcopy in Hx as (Hlo & _). lia. }
  split; [done|]. split.
  - intros Hfresh x a Hx. rewrite Hframe; [by apply (Hfresh x)|].
    by eapply valid_refs_lookup.
  - intros p' r ->. destruct Hend as (_ & -> & _ & _ & -> & _).
    split; [done|]. intros x a Hx.
    destruct (Hcopy x a Hx) as (Hlo & a0 & Ha0 & Hcell).
    exists a0. split; [done|]. split.
    + pose proof (valid_refs_lookup _ _ _ _ Hv Ha0). lia.
    + rewrite <- Hcell. apply Hsame.
Qed.


(** C4. In a completed run a task is [SKIPPED] if and only if at least one
    of its dependencies did not end [SUCCESS] (a [SKIPPED] dependency
    counts), so skipping propagates: when A is [FAILED], B depends on A and
    C depends on B, then B and C are [SKIPPED] and the overall status is
    [FAILED]. *)
Theorem skipped_iff_dependency_not_success (p : Pipeline) ctx (h : Heap) w out
    p' r (st' : St) :
  valid_refs (tasks p) h →
  (∀ x a, dict_get x (tasks p) = Some a → status (cells h a) = PENDING) →
  run now strftime p ctx h w out = (Returned (p', r), st') →
  (∀ x, registered (tasks p) x →
     (status_of (run_tasks r) (heap st') x = Some SKIPPED
      ↔ ∃ dep, depends_on (tasks p) h x dep ∧
               status_of (run_tasks r) (heap st') dep ≠ Some SUCCESS)) ∧
  (∀ a b c,
     status_of (run_tasks r) (heap st') a = Some FAILED →
     depends_on (tasks p) h b a → depends_on (tasks p) h c b →
     status_of (run_tasks r) (heap st') b = Some SKIPPED ∧
     status_of (run_tasks r) (heap st') c = Some SKIPPED ∧
     run_status r = FAILED).
Proof.
  intros Hv Hpend Hrun.
  destruct (run_facts _ _ _ _ _ _ _ Hv Hrun)
    as (h1 & d & done & _ & _ & _ & Hreg & _ & Hdeps & _ & Hgate & Hend).
  destruct Hend as (Hdone & -> & _ & Hst & _).
  assert (Hg : gate_inv d h1 done st').
  { apply Hgate. intros x a Hx. by rewrite (Hpend x a Hx). }
  assert (Hiff : ∀ x, registered (tasks p) x →
     (status_of d (heap st') x = Some SKIPPED
      ↔ ∃ dep, depends_on (tasks p) h x dep ∧
               status_of d (heap st') dep ≠ Some SUCCESS)).
  { intros x Hx. destruct (proj2 (Hreg x) Hx) as [a Ha].
    destruct (Hg x a (proj2 (Hdone x) Hx) Ha) as [Hskip _].
    assert (Hd : dependencies (cells h1 a) = deps_of (tasks p) h x)
      by (rewrite <- Hdeps; unfold deps_of; by rewrite Ha).
    rewrite Hd in Hskip. unfold depends_on. rewrite <- Hskip.
    rewrite status_of_Some. split.
    - intros (b & Hb & Hs). congruence.
    - intros Hs. eauto. }
  split; [done|]. intros a b c Ha Hba Hcb.
  assert (Hb : status_of d (heap st') b = Some SKIPPED).
  { apply Hiff; [by eapply depends_on_registered|].
    exists a. split; [done|]. by rewrite Ha. }
  split; [done|]. split.
  - apply Hiff; [by eapply depends_on_registered|].
    exists b. split; [done|]. by rewrite Hb.
  - rewrite Hst. destruct (all_success_or_skipped d (heap st')) eqn:E; [|done].
    by destruct (all_success_or_skipped_elim _ _ E a FAILED Ha).
Qed.

(** C2, as the code has it.  A dependency cycle is not detected and no
    error is reported for it: with all dependency ids registered [run]
    returns a run record.  What holds is that a task that lies on a cycle
    is never executed: its body is not invoked, and in a completed run it
    is [SKIPPED]. *)
Theorem cyclic_tasks_are_skipped (p : Pipeline) ctx (h : Heap) w out c
    (st' : St) :
  valid_refs (tasks p) h →
  (∀ x a, dict_get x (tasks p) = Some a → status (cells h a) = PENDING) →
  run now strftime p ctx h w out = (c, st') →
  (deps_registered (tasks p) h → ∃ p' r, c = Returned (p', r)) ∧
  ∀ x, tc (depends_on (tasks p) h) x x →
    (∃ evs, stdout st' = out ++ evs ∧ attempt_count x evs = 0) ∧
    (∀ p' r, c = Returned (p', r) →
       status_of (run_tasks r) (heap st') x = Some SKIPPED).
Proof.
  intros Hv Hpend Hrun. split; [intros Hc; by eapply run_returns|].
  destruct (run_facts _ _ _ _ _ _ _ Hv Hrun)
    as (h1 & d & done & _ & _ & _ & Hreg & _ & Hdeps & Hbase & Hgate & Hend).
  assert (Hg : gate_inv d h1 done st').
  { apply Hgate. intros x a Hx. by rewrite (Hpend x a Hx). }
  intros x Hcyc.
  assert (Hcyc' : tc (depends_on d h1) x x).
  { eapply tc_subrel; [|exact Hcyc]. intros y z. unfold depends_on.
    by rewrite Hdeps. }
  assert (Hx : registered (tasks p) x).
  { inversion Hcyc; subst; by eapply depends_on_registered. }
  destruct (proj2 (Hreg x) Hx) as [a Ha].
  destruct Hbase as (_ & _ & _ & new & Hout & Hev & Htask).
  split.
  - exists ([PrintStarting (dag_id p); PrintOrder (execution_order p h1)] ++ new).
    split; [by rewrite Hout, app_assoc|].
    rewrite attempt_count_app, !attempt_count_cons. simpl.
    destruct (decide (x ∈ done)) as [Hin|Hnin].
    + destruct (Hg x a Hin Ha) as [_ Hsk].
      destruct (Htask x a Hin Ha) as (_ & Hcnt & _).
      by destruct (Hcnt (Hsk Hcyc')).
    + by destruct (events_of_done x done new Hev Hnin).
  - intros p' r ->. destruct Hend as (Hdone & -> & _).
    destruct (Hg x a (proj2 (Hdone x) Hx) Ha) as [_ Hsk].
    apply status_of_Some. exists a. split; [done|]. by apply Hsk.
Qed.

(** C5, as the code has it.  A dependency id that names no registered task
    is not rejected when the order is computed: the order is returned, with
    the dependent task in it and without the unknown id.  [run] then either
    raises the [KeyError] of an unregistered dependency id from a gate
    check, or returns a record in which the dependent task is [SKIPPED]. *)
Theorem unknown_dependency_not_rejected (p : Pipeline) (h : Heap) x k :
  valid_refs (tasks p) h →
  depends_on (tasks p) h x k → ¬ registered (tasks p) k →
  (∃ o, _get_execution_order p h = Some o ∧ x ∈ o ∧ k ∉ o) ∧
  ∀ ctx w out c (st' : St),
    run now strftime p ctx h w out = (c, st') →
    match c with
    | Returned (p', r) =>
        status_of (run_tasks r) (heap st') x = Some SKIPPED
    | Raised e =>
        ∃ y k', e = KeyError k' ∧ depends_on (tasks p) h y k' ∧
                ¬ registered (tasks p) k'
    end.
Proof.
  intros Hv Hdep Hk.
  assert (Hx : registered (tasks p) x) by (by eapply depends_on_registered).
  split.
  - destruct (execution_order_total p h) as (o & Ho & Heq).
    destruct (execution_order_spec p h) as (_ & Hmem & _).
    rewrite Heq in Hmem. exists o. split; [done|].
    split; [by apply Hmem|]. intros Hin. by apply Hk, Hmem.
  - intros ctx w out c st' Hrun.
    destruct (run_facts _ _ _ _ _ _ _ Hv Hrun)
      as (h1 & d & done & _ & _ & _ & Hreg & _ & Hdeps & Hbase & _ & Hend).
    destruct c as [[p' r]|e]; [|done].
    destruct Hend as (Hdone & -> & _).
    destruct (proj2 (Hreg x) Hx) as [a Ha].
    destruct Hbase as (_ & _ & _ & new & _ & _ & Htask).
    destruct (Htask x a (proj2 (Hdone x) Hx) Ha) as (_ & _ & _ & _ & _ & _ & Hun).
    apply status_of_Some. exists a. split; [done|]. apply Hun.
    exists k. split.
    + unfold depends_on in Hdep. rewrite <- Hdeps in Hdep.
      unfold deps_of in Hdep. by rewrite Ha in Hdep.
    + destruct (dict_get k d) as [b|] eqn:Eb; [|done].
      destruct Hk. apply Hreg. eauto.
Qed.

(** C9, as the code has it.  [error] is assigned at every failed attempt
    and never cleared: at the end of a completed run the [error] of a task
    is set exactly when the run reported a failed attempt of that task.  So
    a [SKIPPED] task has [error] unset, a [FAILED] task has it set, and a
    [SUCCESS] task has it unset only if none of its attempts failed. *)
Theorem error_set_iff_attempt_failed (p : Pipeline) ctx (h : Heap) w out p' r
    (st' : St) :
  valid_refs (tasks p) h →
  (∀ x a, dict_get x (tasks p) = Some a → error (cells h a) = None) →
  run now strftime p ctx h w out = (Returned (p', r), st') →
  ∃ evs, stdout st' = out ++ evs ∧
    ∀ x t, task_of (run_tasks r) (heap st') x = Some t →
      (error t = None ↔ existsb (is_failure x) evs = false) ∧
      (status t = SKIPPED → error t = None) ∧
      (status t = FAILED → is_Some (error t)).
Proof.
  intros Hv Hunset Hrun.
  destruct (run_facts _ _ _ _ _ _ _ Hv Hrun)
    as (h1 & d & done & _ & _ & _ & Hreg & Hcopy & _ & Hbase & _ & Hend).
  destruct Hend as (Hdone & -> & _).
  destruct Hbase as (_ & _ & _ & new & Hout & _ & Htask).
  exists ([PrintStarting (dag_id p); PrintOrder (execution_order p h1)] ++ new).
  split; [by rewrite Hout, app_assoc|].
  intros x t Ht. unfold task_of in Ht.
  destruct (dict_get x d) as [a|] eqn:Ha; [|done]. injection Ht as <-.
  assert (Hx : x ∈ done) by (apply Hdone, Hreg; eauto).
  assert (H0 : error (cells h1 a) = None).
  { destruct (Hcopy x a Ha) as (_ & a0 & Ha0 & ->). by eapply Hunset. }
  destruct (Htask x a Hx Ha) as (_ & Hsk & Hfl & _ & Hno & Hyes & _).
  rewrite existsb_app. simpl. rewrite H0 in Hno.
  split; [|split; [|done]].
  - destruct (existsb (is_failure x) new); [|by split; auto].
    split; [|done]. intros E. destruct (Hyes eq_refl) as [e He]. congruence.
  - intros Hs. destruct (Hsk Hs) as [_ Hf]. auto.
Qed.

Lemma run_loop_other (d : dict nat) x a rest (st : St) c st' :
  dict_inj d → dict_get x d = Some a → x ∉ rest →
  run_loop now d rest st = (c, st') →
  cells (heap st') a = cells (heap st) a ∧
  ∃ evs, stdout st' = stdout st ++ evs ∧ attempt_count x evs = 0.
Proof.
  intros Hinj Ha Hx Hrun.
  pose proof (run_loop_invariant d
    (fun _ s => cells (heap s) a = cells (heap st) a ∧
                ∃ evs, stdout s = stdout st ++ evs ∧ attempt_count x evs = 0)
    rest [] st c st') as Hrule.
  simpl in Hrule.
  lapply Hrule; [clear Hrule; intros Hrule|].
  2:{ split; [done|]. exists []. by rewrite app_nil_r. }
  lapply Hrule; [clear Hrule; intros Hrule|].
  2:{ intros done tid rest' s1 s2 Heq (Hc & evs & Hout & Hcnt) Hstep.
      assert (Hne : x ≠ tid).
      { intros ->. apply Hx. rewrite Heq. apply elem_of_app. right. left. }
      destruct (run_task_frame _ _ _ _ _ Hstep) as (_ & Hf & _ & evs2 & Hout2 & Hev2).
      split.
      - rewrite Hf; [done|]. intros Ht. apply Hne. by apply (Hinj x tid a).
      - exists (evs ++ evs2). rewrite Hout2, Hout, app_assoc. split; [done|].
        rewrite attempt_count_app, Hcnt.
        by destruct (events_of_other tid x evs2 Hev2 Hne) as [-> _]. }
  specialize (Hrule Hrun). destruct c as [[]|e]; [done|].
  by destruct Hrule as (_ & _ & _ & _ & H & _).
Qed.

(** C6. When the loop reaches a task whose gate passes and whose body
    raises on every one of its [retries] invocations, the task ends
    [FAILED], its [error] is the text of the last attempt, [completed_at] is
    set and the body has been invoked [retries] times; the rest of the run
    does not change that. *)
Theorem retry_exhaustion (d : dict nat) x a rest (st : St) n e c st' :
  dict_inj d → dict_get x d = Some a → x ∉ rest →
  (∀ dep, dep ∈ dependencies (cells (heap st) a) →
          status_of d (heap st) dep = Some SUCCESS) →
  retries (cells (heap st) a) = Z.of_nat n →
  last_failure n
    (callable (cells (heap st) a) (args (cells (heap st) a))
              (kwargs (cells (heap st) a)))
    (context st) (now (world st)).2 = Some e →
  run_loop now d (x :: rest) st = (c, st') →
  status (cells (heap st') a) = FAILED ∧
  error (cells (heap st') a) = Some e ∧
  is_Some (completed_at (cells (heap st') a)) ∧
  ∃ evs, stdout st' = stdout st ++ evs ∧ attempt_count x evs = n.
Proof.
  intros Hinj Ha Hx Hgate Hn Hfail. cbn [run_loop]. unfold run_task.
  rewrite Ha, (proj2 (deps_success_true _ _ _) Hgate).
  match goal with |- context [attempts now ?m ?k x a ?s] =>
    destruct (attempts_exhausted m k x a s e) as (H1 & H2 & H3 & evs & Hout & Hcnt)
  end.
  { autorewrite with st. cbn [retries with_started_at with_status]. lia. }
  { autorewrite with st.
    cbn [retries callable args kwargs with_started_at with_status].
    by rewrite Hn, Nat2Z.id. }
  intros Hrest.
  destruct (run_loop_other _ _ _ _ _ _ _ Hinj Ha Hx Hrest)
    as (Hcell & evs2 & Hout2 & Hcnt2).
  rewrite Hcell. split; [done|]. split; [done|]. split; [done|].
  exists (evs ++ evs2). rewrite Hout2, Hout. autorewrite with st.
  rewrite app_assoc. split; [done|].
  rewrite attempt_count_app, Hcnt, Hcnt2.
  autorewrite with st. cbn [retries with_started_at with_status].
  rewrite Hn, Nat2Z.id. lia.
Qed.

(** * Further properties of the engine *)

(** ** More on the retry loop *)

(** When the body first returns at its [j]-th invocation, the task ends
    [SUCCESS] with that payload, after exactly [j] invocations. *)
Lemma attempts_first_success n : ∀ k tid a (st : St) j r le,
  (Z.of_nat n + k = retries (cells (heap st) a))%Z →
  first_success n
    (callable (cells (heap st) a) (args (cells (heap st) a))
              (kwargs (cells (heap st) a)))
    (context st) (world st) = Some (j, r, le) →
  status (cells (heap (attempts now n k tid a st)) a) = SUCCESS ∧
  result (cells (heap (attempts now n k tid a st)) a) = r ∧
  is_Some (completed_at (cells (heap (attempts now n k tid a st)) a)) ∧
  error (cells (heap (attempts now n k tid a st)) a)
    = match le with Some e => Some e | None => error (cells (heap st) a) end ∧
  1 ≤ j ∧ j ≤ n ∧
  ∃ evs, stdout (attempts now n k tid a st) = stdout st ++ evs ∧
         attempt_count tid evs = j.
Proof.
  induction n as [|n IH]; intros k tid a st j r le Hk; [done|].
  cbn [attempts first_success]. autorewrite with st.
  destruct (callable _ _ _ _ _) as [[[r0|e0] c] w].
  - intros [= <- <- <-]. autorewrite with st.
    split; [done|]. split; [done|]. split; [by eexists|]. split; [done|].
    split; [lia|]. split; [lia|].
    eexists. rewrite <- !app_assoc. split; [done|].
    rewrite attempt_count_app, !attempt_count_cons, is_running_same. done.
  - autorewrite with st. cbn [retries with_error].
    destruct n as [|n]; [done|].
    rewrite (proj2 (Z.ltb_lt _ _)) by lia.
    destruct (first_success (S n) _ c w) as [[[j' r'] le']|] eqn:Efs; [|done].
    intros Hres.
    match goal with |- context [attempts now (S n) ?k' tid a ?s] =>
      destruct (IH k' tid a s j' r' le')
        as (H1 & H2 & H3 & H4 & H5 & H6 & evs & Hout & Hcnt) end.
    { autorewrite with st. cbn [retries with_error]. lia. }
    { autorewrite with st. exact Efs. }
    assert (j = S j' ∧ r = r' ∧
            le = Some (match le' with Some e' => e' | None => e0 end))
      as (-> & -> & ->) by (destruct le'; by injection Hres as <- <- <-).
    split; [done|]. split; [done|]. split; [done|]. split.
    { rewrite H4. autorewrite with st. by destruct le'. }
    split; [lia|]. split; [lia|].
    eexists. rewrite Hout. autorewrite with st. rewrite <- !app_assoc.
    split; [done|].
    rewrite !attempt_count_app, !attempt_count_cons, is_running_same, Hcnt.
    done.
Qed.

Lemma attempt_count_nil x : attempt_count x [] = 0.
Proof. reflexivity. Qed.

(** The loop invokes the body at most once per iteration. *)
Lemma attempts_count_le n : ∀ k tid a (st : St),
  ∃ evs, stdout (attempts now n k tid a st) = stdout st ++ evs ∧
         attempt_count tid evs ≤ n.
Proof.
  induction n as [|n IH]; intros k tid a st; cbn [attempts].
  - exists []. by rewrite app_nil_r.
  - destruct (callable _ _ _ _ _) as [[[r|e] c] w].
    + eexists. autorewrite with st. rewrite <- !app_assoc. split; [done|].
      rewrite attempt_count_app, !attempt_count_cons, is_running_same,
        !attempt_count_nil.
      cbn [is_running]. lia.
    + destruct (_ <? _)%Z;
        match goal with |- context [attempts now n ?k' tid a ?s] =>
          destruct (IH k' tid a s) as (evs & Hout & Hcnt) end;
        eexists; rewrite Hout; autorewrite with st; rewrite <- !app_assoc;
        (split; [done|]);
        rewrite !attempt_count_app, !attempt_count_cons, is_running_same,
          !attempt_count_nil;
        cbn [is_running]; lia.
Qed.

(** The loop never assigns [started_at]; it assigns [result] only together
    with [SUCCESS], and [completed_at] together with [SUCCESS] or
    [FAILED]. *)
Lemma attempts_fields n : ∀ k tid a (st : St),
  started_at (cells (heap (attempts now n k tid a st)) a)
    = started_at (cells (heap st) a) ∧
  ((status (cells (heap (attempts now n k tid a st)) a) = SUCCESS ∧
    is_Some (completed_at (cells (heap (attempts now n k tid a st)) a)))
   ∨
   (result (cells (heap (attempts now n k tid a st)) a)
      = result (cells (heap st) a) ∧
    ((status (cells (heap (attempts now n k tid a st)) a)
        = status (cells (heap st) a) ∧
      completed_at (cells (heap (attempts now n k tid a st)) a)
        = completed_at (cells (heap st) a))
     ∨
     (status (cells (heap (attempts now n k tid a st)) a) = FAILED ∧
      is_Some (completed_at (cells (heap (attempts now n k tid a st)) a)))))).
Proof.
  induction n as [|n IH]; intros k tid a st; cbn [attempts].
  - split; [done|]. right. split; [done|]. by left.
  - destruct (callable _ _ _ _ _) as [[[r|e] c] w].
    + autorewrite with st. split; [done|]. left. split; [done|]. by eexists.
    + destruct (_ <? _)%Z;
        match goal with |- context [attempts now n ?k' tid a ?s] =>
          destruct (IH k' tid a s) as (Hs & Hc) end;
        revert Hs Hc; autorewrite with st;
        cbn [started_at result status completed_at with_error with_status
             with_completed_at];
        intros Hs Hc; (split; [done|]).
      * exact Hc.
      * destruct Hc as [Hc|[Hr [[H1 H2]|Hc]]]; [by left| |by right; auto].
        right. split; [done|]. right. rewrite H1, H2. split; [done|by eexists].
Qed.

(** ** Every task of a run has one iteration of its own *)

Lemma steps_inv_step (d : dict nat) (h0 : Heap) out0 done tid (st1 st2 : St) :
  dict_inj d → tid ∉ done →
  base_inv d h0 out0 done st1 → steps_inv now d h0 out0 done st1 →
  run_task now d tid st1 = (Returned (), st2) →
  steps_inv now d h0 out0 (done ++ [tid]) st2.
Proof.
  intros Hinj Hnew (_ & _ & Hun & new1 & Hout1 & Hev1 & _) Hsteps Hrun.
  destruct (run_task_frame _ _ _ _ _ Hrun) as (_ & Hf2 & _ & evs2 & Hout2 & Hev2).
  destruct (run_task_returned _ _ _ _ Hrun) as (a & Ha & _).
  intros x ax Hx Hax. apply elem_of_app in Hx as [Hx|Hx].
  - assert (Hne : x ≠ tid) by (intros ->; done).
    destruct (Hsteps x ax Hx Hax) as (s1 & s2 & Hstep & Hinit & Hfin & Hlog).
    exists s1, s2. split; [done|]. split; [done|]. split.
    + rewrite <- Hfin. apply Hf2. rewrite Ha. intros [= <-].
      apply Hne. by apply (Hinj x tid a).
    + intros new evs Hnew' Hevs.
      assert (new = new1 ++ evs2) as ->.
      { apply (app_inv_head out0). by rewrite <- Hnew', Hout2, Hout1, app_assoc. }
      rewrite attempt_count_app.
      destruct (events_of_other tid x evs2 Hev2 Hne) as [-> _].
      rewrite Nat.add_0_r. by apply Hlog.
  - apply list_elem_of_singleton in Hx as ->.
    assert (ax = a) as -> by congruence.
    exists st1, st2. split; [done|]. split; [|split; [done|]].
    + apply Hun. intros y Hy Hya. apply Hnew. by rewrite (Hinj tid y a Ha Hya).
    + intros new evs Hnew' Hevs.
      assert (evs = evs2) as -> by (apply (app_inv_head (stdout st1)); congruence).
      assert (new = new1 ++ evs2) as ->.
      { apply (app_inv_head out0). by rewrite <- Hnew', Hout2, Hout1, app_assoc. }
      rewrite attempt_count_app.
      by destruct (events_of_done tid done new1 Hev1 Hnew) as [-> _].
Qed.

Lemma run_loop_steps (d : dict nat) o (st0 : St) c st' :
  dict_inj d → NoDup o →
  run_loop now d o st0 = (c, st') →
  ∃ done,
    base_inv d (heap st0) (stdout st0) done st' ∧
    steps_inv now d (heap st0) (stdout st0) done st' ∧
    match c with
    | Returned _ => done = o
    | Raised _ => True
    end.
Proof.
  intros Hinj Hnd Hrun.
  pose proof (run_loop_invariant d
    (fun done st => base_inv d (heap st0) (stdout st0) done st ∧
                    steps_inv now d (heap st0) (stdout st0) done st)
    o [] st0 c st') as Hrule.
  simpl in Hrule.
  lapply Hrule; [clear Hrule; intros Hrule|].
  2:{ split.
      - split; [done|]. split; [intros; apply same_def_refl|]. split; [done|].
        exists []. rewrite app_nil_r. split; [done|]. split; [done|].
        intros x a Hx. inversion Hx.
      - intros x a Hx. inversion Hx. }
  lapply Hrule; [clear Hrule; intros Hrule|].
  2:{ intros done tid rest st1 st2 Heq [Hb Hs] Hstep.
      assert (Hnew : tid ∉ done).
      { rewrite Heq in Hnd. apply NoDup_app in Hnd as (_ & Hdis & _).
        intros Hin. apply (Hdis tid Hin). left. }
      split; [by eapply base_inv_step|by eapply steps_inv_step]. }
  specialize (Hrule Hrun). destruct c as [[]|e].
  - exists o. by destruct Hrule.
  - destruct Hrule as (done & tid & rest & Heq & [Hb Hs] & Hr).
    by exists done.
Qed.

(** In a run, every registered task either has not been reached (only when
    [run] raised) and is as its definition, or had one iteration of the
    task loop that started from a copy of its definition. *)
Lemma run_steps (p : Pipeline) ctx (h : Heap) w out c (st' : St) :
  valid_refs (tasks p) h →
  run now strftime p ctx h w out = (c, st') →
  ∃ d o new,
    stdout st' = out ++ [PrintStarting (dag_id p); PrintOrder o] ++ new ∧
    (∀ p' r, c = Returned (p', r) → run_tasks r = d) ∧
    ∀ x a0, dict_get x (tasks p) = Some a0 →
      ∃ a, dict_get x d = Some a ∧
        ((cells (heap st') a = cells h a0 ∧ attempt_count x new = 0 ∧
          ∃ e, c = Raised e)
         ∨
         ∃ s1 s2 evs,
           run_task now d x s1 = (Returned (), s2) ∧
           cells (heap s1) a = cells h a0 ∧
           cells (heap st') a = cells (heap s2) a ∧
           stdout s2 = stdout s1 ++ evs ∧
           attempt_count x new = attempt_count x evs).
Proof.
  intros Hv Hrun.
  destruct (run_inversion _ _ _ _ _ _ _ Hrun)
    as (h1 & d & st0 & cl & stl & Hc & Hh0 & _ & Hout0 & Hloop
        & Hheap & _ & Hout & Hend).
  destruct (copy_of_defs _ _ _ _ Hc Hv)
    as (Hkeys & Hinj & Hf & Hreg & Hcopy & Hdeps & Hdeps1).
  destruct (execution_order_spec p h1) as (Hnd & Hmem & _).
  destruct (run_loop_steps d _ st0 cl stl Hinj Hnd Hloop)
    as (done & Hbase & Hsteps & Hdone).
  rewrite Hh0, Hout0 in Hbase, Hsteps.
  destruct Hbase as (_ & _ & Hun & new & Hnew & Hev & _).
  exists d, (execution_order p h1), new. split.
  { rewrite Hout, Hnew. by rewrite <- app_assoc. }
  split.
  { intros p' r ->. destruct cl as [[]|e]; [|done].
    destruct Hend as (p0 & r0 & [= <- <-] & Hd & _). done. }
  intros x a0 Hx.
  assert (is_Some (dict_get x d)) as [a Ha]
    by (apply Hreg, dict_get_is_Some; eauto).
  exists a. split; [done|].
  destruct (Hcopy x a Ha) as (_ & a0' & Ha0' & Hcell).
  assert (a0' = a0) as -> by congruence.
  destruct (decide (x ∈ done)) as [Hin|Hnin].
  - right. destruct (Hsteps x a Hin Ha) as (s1 & s2 & Hstep & Hinit & Hfin & Hlog).
    destruct (run_task_frame _ _ _ _ _ Hstep) as (_ & _ & _ & evs & Hevs & _).
    exists s1, s2, evs. split; [done|]. split; [congruence|].
    split; [congruence|]. split; [done|]. apply Hlog; [congruence|done].
  - left. split.
    + rewrite Hheap, Hun; [done|]. intros y Hy Hya. apply Hnin.
      by rewrite (Hinj x y a Ha Hya).
    + split; [by destruct (events_of_done x done new Hev Hnin)|].
      destruct cl as [[]|e]; [|eauto].
      exfalso. apply Hnin. subst done. apply Hmem, dict_get_is_Some. eauto.
Qed.

(** ** Further theorems *)

(** X1. Retry until success.  When the loop reaches a task whose gate
    passes and whose body first returns at its [j]-th invocation (within
    the [retries] it has), the task ends [SUCCESS] with the payload of that
    invocation, [completed_at] set, and the body invoked exactly [j] times:
    the attempts that are left are abandoned.  [error] keeps the text of
    the last failure before the success, if there was one.  The rest of the
    run does not change that. *)
Theorem retry_until_success (d : dict nat) x a rest (st : St) j r le c st' :
  dict_inj d → dict_get x d = Some a → x ∉ rest →
  (∀ dep, dep ∈ dependencies (cells (heap st) a) →
          status_of d (heap st) dep = Some SUCCESS) →
  first_success (Z.to_nat (retries (cells (heap st) a)))
    (callable (cells (heap st) a) (args (cells (heap st) a))
              (kwargs (cells (heap st) a)))
    (context st) (now (world st)).2 = Some (j, r, le) →
  run_loop now d (x :: rest) st = (c, st') →
  status (cells (heap st') a) = SUCCESS ∧
  result (cells (heap st') a) = r ∧
  is_Some (completed_at (cells (heap st') a)) ∧
  error (cells (heap st') a)
    = match le with Some e => Some e | None => error (cells (heap st) a) end ∧
  j ≤ Z.to_nat (retries (cells (heap st) a)) ∧
  ∃ evs, stdout st' = stdout st ++ evs ∧ attempt_count x evs = j.
Proof.
  intros Hinj Ha Hx Hgate Hfs. cbn [run_loop]. unfold run_task.
  rewrite Ha, (proj2 (deps_success_true _ _ _) Hgate).
  assert (Hpos : (0 < retries (cells (heap st) a))%Z).
  { destruct (Z.to_nat (retries (cells (heap st) a))) eqn:E; [done|]. lia. }
  match goal with |- context [attempts now ?m ?k x a ?s] =>
    destruct (attempts_first_success m k x a s j r le)
      as (H1 & H2 & H3 & H4 & H5 & H6 & evs & Hout & Hcnt)
  end.
  { autorewrite with st. cbn [retries with_started_at with_status]. lia. }
  { autorewrite with st.
    cbn [retries callable args kwargs with_started_at with_status].
    exact Hfs. }
  autorewrite with st in H4, H6.
  cbn [retries error with_started_at with_status] in H4, H6.
  intros Hrest.
  destruct (run_loop_other _ _ _ _ _ _ _ Hinj Ha Hx Hrest)
    as (Hcell & evs2 & Hout2 & Hcnt2).
  rewrite Hcell. split; [done|]. split; [done|]. split; [done|].
  split.
  { autorewrite with st. cbn [retries error with_started_at with_status].
    exact H4. }
  split; [done|].
  exists (evs ++ evs2). rewrite Hout2, Hout. autorewrite with st.
  rewrite app_assoc. split; [done|].
  rewrite attempt_count_app, Hcnt, Hcnt2. lia.
Qed.

(** X2. In every run, completed or not, the body of a registered task is
    invoked at most [retries] times (never, when [retries] is zero or
    negative). *)
Theorem attempts_bounded_by_retries (p : Pipeline) ctx (h : Heap) w out c
    (st' : St) :
  valid_refs (tasks p) h →
  run now strftime p ctx h w out = (c, st') →
  ∃ evs, stdout st' = out ++ evs ∧
    ∀ x a0, dict_get x (tasks p) = Some a0 →
      attempt_count x evs ≤ Z.to_nat (retries (cells h a0)).
Proof.
  intros Hv Hrun.
  destruct (run_steps _ _ _ _ _ _ _ Hv Hrun) as (d & o & new & Hout & _ & Hall).
  exists ([PrintStarting (dag_id p); PrintOrder o] ++ new). split; [done|].
  intros x a0 Hx. rewrite attempt_count_app, !attempt_count_cons.
  cbn [is_running]. rewrite attempt_count_nil.
  destruct (Hall x a0 Hx) as (a & Ha & [(_ & -> & _)|Hstep]); [simpl; lia|].
  destruct Hstep as (s1 & s2 & evs & Hrt & Hinit & _ & Hevs & ->). simpl.
  apply run_task_returned in Hrt as (a' & Ha' & [[_ ->]|[_ ->]]).
  - revert Hevs. autorewrite with st. intros Hevs.
    apply app_inv_head in Hevs as <-.
    rewrite attempt_count_cons, attempt_count_nil. simpl. lia.
  - assert (a' = a) as -> by congruence.
    match type of Hevs with context [attempts now ?n ?k x a ?s] =>
      destruct (attempts_count_le n k x a s) as (evs' & Hout' & Hle) end.
    rewrite Hout' in Hevs. revert Hevs. autorewrite with st. intros Hevs.
    apply app_inv_head in Hevs as ->. by rewrite <- Hinit.
Qed.

(** X3. The execution fields of a completed run are consistent (for
    definitions registered without execution fields): a [SKIPPED] task was
    never started, so it has no [started_at], [completed_at] or [result];
    every other task has [started_at]; [completed_at] is set exactly on the
    [SUCCESS] and [FAILED] tasks; and only a [SUCCESS] task can carry a
    [result]. *)
Theorem execution_fields_consistent (p : Pipeline) ctx (h : Heap) w out p' r
    (st' : St) :
  valid_refs (tasks p) h →
  fresh_defs (tasks p) h →
  run now strftime p ctx h w out = (Returned (p', r), st') →
  ∀ x t, task_of (run_tasks r) (heap st') x = Some t →
    (status t = SKIPPED →
       started_at t = None ∧ completed_at t = None ∧ result t = None) ∧
    (status t ≠ SKIPPED → is_Some (started_at t)) ∧
    (is_Some (completed_at t) ↔ status t = SUCCESS ∨ status t = FAILED) ∧
    (is_Some (result t) → status t = SUCCESS).
Proof.
  intros Hv Hfresh Hrun.
  destruct (run_steps _ _ _ _ _ _ _ Hv Hrun) as (d & o & new & _ & Hd & Hall).
  rewrite (Hd p' r eq_refl).
  pose proof (copy_of_defs (tasks p) h) as Hcopy.
  intros x t Ht. unfold task_of in Ht.
  destruct (dict_get x d) as [a|] eqn:Ha; [|done]. injection Ht as <-.
  assert (∃ a0, dict_get x (tasks p) = Some a0) as [a0 Ha0].
  { destruct (dict_get x (tasks p)) as [a0|] eqn:E; [eauto|].
    exfalso.
    destruct (run_facts _ _ _ _ _ _ _ Hv Hrun)
      as (h1 & d' & done & _ & _ & _ & Hreg & _ & _ & _ & _ & Hend).
    destruct Hend as (_ & Hd' & _). rewrite (Hd p' r eq_refl) in Hd'. subst d'.
    assert (Hs : is_Some (dict_get x d)) by eauto.
    apply Hreg, dict_get_is_Some in Hs. rewrite E in Hs. by destruct Hs. }
  destruct (Hfresh x a0 Ha0) as (F1 & F2 & F3 & F4 & F5).
  destruct (Hall x a0 Ha0) as (a' & Ha' & [(_ & _ & e & [=])|Hstep]).
  assert (a' = a) as -> by congruence.
  destruct Hstep as (s1 & s2 & evs & Hrt & Hinit & -> & _).
  apply run_task_returned in Hrt as (a' & Ha'' & [[_ ->]|[_ ->]]).
  - assert (a' = a) as -> by congruence. autorewrite with st.
    cbn [status started_at completed_at result with_status].
    rewrite Hinit, F2, F4, F5. repeat split; try done. by intros [|].
  - assert (a' = a) as -> by congruence.
    match goal with |- context [attempts now ?n ?k x a ?s] =>
      destruct (attempts_fields n k x a s) as (Hs & Hc);
      revert Hs Hc; generalize (cells (heap (attempts now n k x a s)) a) end.
    autorewrite with st.
    cbn [status started_at completed_at result with_status with_started_at].
    rewrite Hinit, F2, F5. intros t Hs Hc.
    split; [|split; [intros _; rewrite Hs; by eexists|]].
    + intros Hsk. destruct Hc as [[E _]|[_ [[E _]|[E _]]]]; congruence.
    + destruct Hc as [[E Hcm]|[Hr [[E Hcm]|[E Hcm]]]]; rewrite E.
      * split; [split; [by left|done]|]. done.
      * rewrite Hcm. split; [split; [by intros [? [=]]|by intros [|]]|].
        rewrite Hr. by intros [? [=]].
      * split; [split; [by right|done]|]. rewrite Hr. by intros [? [=]].
Qed.

(** ** Registration *)

Lemma dict_set_keys_eq {V} (k : string) (v : V) (d : dict V) :
  keys (dict_set k v d)
  = if decide (k ∈ keys d) then keys d else keys d ++ [k].
Proof.
  unfold keys. induction d as [|[k' v'] d IH]; cbn [dict_set fmap list_fmap].
  - destruct (decide (k ∈ [])) as [Hin|]; [|done]. by apply elem_of_nil in Hin.
  - destruct (decide (k = k')) as [->|Hne]; cbn [fmap list_fmap fst].
    + destruct (decide (k' ∈ k' :: d.*1)) as [|Hout]; [done|].
      exfalso. apply Hout. by left.
    + rewrite IH. destruct (decide (k ∈ d.*1)) as [Hin|Hout].
      * destruct (decide (k ∈ k' :: d.*1)) as [|Hout]; [done|].
        exfalso. apply Hout. by right.
      * destruct (decide (k ∈ k' :: d.*1)) as [Hin|]; [|done].
        apply elem_of_cons in Hin as [?|?]; done.
Qed.

Lemma valid_refs_lookup_lt (d : dict nat) (h : Heap) x a :
  valid_refs d h → dict_get x d = Some a → a < next h.
Proof.
  intros Hv Hx. apply dict_get_Some_elem in Hx.
  unfold valid_refs in Hv. rewrite Forall_forall in Hv. exact (Hv _ Hx).
Qed.

(** X4. [add_task] binds the id to a new task object with the given
    callable, dependencies ([[]] when none are given) and options, and
    leaves every other definition, every existing object, the dag id and
    the run history as they were.  An id that is already registered is not
    rejected: its definition is replaced and keeps its position among the
    keys; a new id goes to the end. *)
Theorem add_task_registers tid body deps o (p : Pipeline) (h : Heap) :
  valid_refs (tasks p) h →
  task_of (tasks (add_task tid body deps o p h).1)
          (add_task tid body deps o p h).2 tid
  = Some (mkTask tid body (opt_args o) (opt_kwargs o) (default [] deps)
            (opt_retries o) (opt_retry_delay o) (opt_status o) (opt_result o)
            (opt_error o) (opt_started_at o) (opt_completed_at o)) ∧
  (∀ x, x ≠ tid →
     task_of (tasks (add_task tid body deps o p h).1)
             (add_task tid body deps o p h).2 x
     = task_of (tasks p) h x) ∧
  keys (tasks (add_task tid body deps o p h).1)
  = (if decide (tid ∈ keys (tasks p)) then keys (tasks p)
     else keys (tasks p) ++ [tid]) ∧
  (∀ b, b < next h → cells (add_task tid body deps o p h).2 b = cells h b) ∧
  dag_id (add_task tid body deps o p h).1 = dag_id p ∧
  runs (add_task tid body deps o p h).1 = runs p.
Proof.
  intros Hv. unfold add_task, alloc, task_of. simpl.
  split; [|split; [|split; [|split]]].
  - rewrite dict_get_set, decide_True by done. simpl.
    by rewrite decide_True.
  - intros x Hx. rewrite dict_get_set, decide_False by done.
    destruct (dict_get x (tasks p)) as [a|] eqn:Ea; [|done]. simpl.
    pose proof (valid_refs_lookup_lt _ _ _ _ Hv Ea).
    rewrite decide_False; [done|lia].
  - apply dict_set_keys_eq.
  - intros b Hb. rewrite decide_False; [done|lia].
  - done.
Qed.

(** ** The execution order of an arbitrary pipeline *)

(** X5. [_get_execution_order] returns for every pipeline, also one with
    dependency cycles or unregistered dependency ids.  The order has no
    duplicates and holds exactly the registered ids (so it is a
    permutation of the keys), and a registered dependency of a task stands
    before the task unless the task lies on a dependency cycle. *)
Theorem execution_order_of_any_pipeline (p : Pipeline) (h : Heap) :
  ∃ o, _get_execution_order p h = Some o ∧
       NoDup o ∧
       (∀ x, x ∈ o ↔ registered (tasks p) x) ∧
       (NoDup (keys (tasks p)) → o ≡ₚ keys (tasks p)) ∧
       (∀ x d, depends_on (tasks p) h x d → registered (tasks p) d →
               before o d x ∨ tc (depends_on (tasks p) h) x x).
Proof.
  destruct (execution_order_total p h) as (o & Ho & Heq).
  destruct (execution_order_spec p h) as (Hnd & Hmem & Hdep).
  rewrite Heq in Hnd, Hmem, Hdep.
  exists o. split; [done|]. split; [done|]. split; [done|]. split.
  - intros Hk. apply NoDup_Permutation; [done..|]. exact Hmem.
  - intros x d Hxd Hd.
    assert (Hx : x ∈ o) by (apply Hmem; by eapply depends_on_registered).
    apply list_elem_of_lookup in Hx as [j Hj].
    destruct (Hdep j x Hj d Hxd Hd) as [(i & Hi & Hid)|Hback].
    + left. by exists i, j.
    + right. eapply tc_rtc_r; [|done]. by apply tc_once.
Qed.

(** Visiting, in registration order, tasks whose dependencies have all
    been visited appends them one by one. *)
Lemma for_each_visit_in_order (ts : dict nat) (h : Heap) fuel l :
  ∀ pre,
    NoDup (pre ++ l) →
    (∀ x, x ∈ l → registered ts x) →
    (∀ l1 x l2, l = l1 ++ x :: l2 →
       ∀ d, depends_on ts h x d → d ∈ pre ++ l1) →
    for_each (visit (S (S fuel)) h ts) l (list_to_set pre, pre)
    = Some (list_to_set (pre ++ l), pre ++ l).
Proof.
  induction l as [|x l IH]; intros pre Hnd Hreg Hdeps.
  - simpl. by rewrite app_nil_r.
  - cbn [for_each visit]. cbn [fst snd].
    assert (Hx : x ∉ pre).
    { apply NoDup_app in Hnd as (_ & Hd & _). intros Hin.
      apply (Hd x Hin). by left. }
    rewrite decide_False by (by rewrite elem_of_list_to_set).
    destruct (proj1 (registered_lookup ts x)) as [a Ha];
      [apply Hreg; by left|]. rewrite Ha.
    assert (Hds : ∀ d, d ∈ dependencies (cells h a) → d ∈ pre).
    { intros d Hd. specialize (Hdeps [] x l eq_refl d).
      rewrite app_nil_r in Hdeps. apply Hdeps.
      unfold depends_on, deps_of. by rewrite Ha. }
    assert (Hfe : ∀ ds (s : gset string * list string),
              (∀ d, d ∈ ds → d ∈ s.1) →
              for_each (visit (S fuel) h ts) ds s = Some s).
    { induction ds as [|d ds IHds]; intros s Hin; [done|].
      cbn [for_each visit]. rewrite decide_True by (apply Hin; by left).
      apply IHds. intros d' Hd'. apply Hin. by right. }
    rewrite Hfe.
    2:{ intros d Hd. cbn [fst]. apply elem_of_union_r.
        rewrite elem_of_list_to_set. by apply Hds. }
    cbn [fst snd].
    assert (Hset : ({[x]} ∪ list_to_set pre : gset string)
                   = list_to_set (pre ++ [x])).
    { rewrite list_to_set_app_L. cbn [list_to_set foldr].
      by rewrite (right_id_L ∅ (∪)), (comm_L (∪)). }
    rewrite Hset.
    replace (pre ++ x :: l) with ((pre ++ [x]) ++ l)
      by (by rewrite <- app_assoc).
    apply IH.
    + by rewrite <- app_assoc.
    + intros y Hy. apply Hreg. by right.
    + intros l1 y l2 -> d Hd. rewrite <- app_assoc. simpl.
      by apply (Hdeps (x :: l1) y l2).
Qed.

(** X6. When every task is registered after all of its dependencies, the
    execution order is the registration order. *)
Theorem execution_order_is_registration_order (p : Pipeline) (h : Heap) :
  NoDup (keys (tasks p)) →
  (∀ l1 x l2, keys (tasks p) = l1 ++ x :: l2 →
     ∀ d, depends_on (tasks p) h x d → d ∈ l1) →
  _get_execution_order p h = Some (keys (tasks p)).
Proof.
  intros Hnd Hdeps. unfold _get_execution_order.
  destruct (tasks p) as [|kv ts'] eqn:Ets; [done|].
  rewrite <- Ets in *.
  assert (Hlen : length (tasks p) = S (length ts')) by (by rewrite Ets).
  rewrite Hlen.
  change (∅ : gset string) with (list_to_set [] : gset string).
  rewrite (for_each_visit_in_order (tasks p) h (length ts')
             (keys (tasks p)) []); [done|done|done|].
  intros l1 x l2 Hk d Hd. simpl. by eapply Hdeps.
Qed.

(** ** The dependency gate *)

(** X7. The gate check reads the dependency list from the left and stops
    at the first dependency that is not [SUCCESS].  It fails exactly when
    that dependency is registered, and raises the [KeyError] of [k] exactly
    when everything before [k] is [SUCCESS] and [k] is not registered:
    an unregistered id that stands after a failed dependency is never
    looked up. *)
Theorem gate_stops_at_first_non_success (d : dict nat) (h : Heap) deps :
  (deps_success d h deps = Returned false ↔
   ∃ pre k post s, deps = pre ++ k :: post ∧
     (∀ y, y ∈ pre → status_of d h y = Some SUCCESS) ∧
     status_of d h k = Some s ∧ s ≠ SUCCESS) ∧
  (∀ k, deps_success d h deps = Raised (KeyError k) ↔
   ∃ pre post, deps = pre ++ k :: post ∧
     (∀ y, y ∈ pre → status_of d h y = Some SUCCESS) ∧
     dict_get k d = None).
Proof.
  induction deps as [|x deps [IHf IHr]].
  - split; [|intros k]; (split; [done|]).
    + intros (pre & k & post & s & E & _). by destruct pre.
    + intros (pre & post & E & _). by destruct pre.
  - cbn [deps_success].
    destruct (dict_get x d) as [a|] eqn:Ea.
    + assert (Hst : status_of d h x = Some (status (cells h a))).
      { unfold status_of, task_of. by rewrite Ea. }
      destruct (decide (status (cells h a) = SUCCESS)) as [Hs|Hs].
      * split; [|intros k].
        -- rewrite IHf. split.
           ++ intros (pre & k & post & s & -> & Hpre & Hk & Hne).
              exists (x :: pre), k, post, s. split; [done|].
              split; [|done]. intros y [->|Hy]%elem_of_cons; [|auto].
              by rewrite Hst, Hs.
           ++ intros ([|x' pre] & k & post & s & E & Hpre & Hk & Hne).
              { injection E as <- <-. rewrite Hst in Hk. congruence. }
              injection E as <- ->. exists pre, k, post, s.
              split; [done|]. split; [|done].
              intros y Hy. apply Hpre. by right.
        -- rewrite IHr. split.
           ++ intros (pre & post & -> & Hpre & Hk).
              exists (x :: pre), post. split; [done|]. split; [|done].
              intros y [->|Hy]%elem_of_cons; [|auto]. by rewrite Hst, Hs.
           ++ intros ([|x' pre] & post & E & Hpre & Hk).
              { injection E as <- <-. congruence. }
              injection E as <- ->. exists pre, post.
              split; [done|]. split; [|done].
              intros y Hy. apply Hpre. by right.
      * split; [|intros k].
        -- split; [intros _|done].
           exists [], x, deps, (status (cells h a)).
           split; [done|]. split; [|done]. by intros y ?%elem_of_nil.
        -- split; [done|].
           intros ([|x' pre] & post & E & Hpre & Hk).
           { injection E as <- <-. congruence. }
           injection E as <- ->. exfalso. apply Hs.
           assert (H1 : status_of d h x = Some SUCCESS)
             by (apply Hpre; by left).
           rewrite Hst in H1. by injection H1.
    + assert (Hst : status_of d h x = None).
      { unfold status_of, task_of. by rewrite Ea. }
      split; [|intros k].
      * split; [done|].
        intros ([|x' pre] & k & post & s & E & Hpre & Hk & Hne).
        { injection E as <- <-. rewrite Hst in Hk. done. }
        injection E as <- ->.
        assert (H1 : status_of d h x = Some SUCCESS) by (apply Hpre; by left).
        rewrite Hst in H1. done.
      * split.
        -- intros [= <-]. exists [], deps. split; [done|].
           split; [|done]. by intros y ?%elem_of_nil.
        -- intros ([|x' pre] & post & E & Hpre & Hk).
           { by injection E as <- <-. }
           injection E as <- ->.
           assert (H1 : status_of d h x = Some SUCCESS)
             by (apply Hpre; by left).
           rewrite Hst in H1. done.
Qed.

(** ** Propagation through the dependency graph *)

(** Induction along the dependencies of an acyclic pipeline whose
    dependency ids are all registered. *)
Lemma deps_induction (p : Pipeline) (h : Heap) (P : string → Prop) :
  acyclic (tasks p) h → deps_registered (tasks p) h →
  (∀ x, registered (tasks p) x →
        (∀ d, depends_on (tasks p) h x d → P d) → P x) →
  ∀ x, registered (tasks p) x → P x.
Proof.
  intros Hac Hclosed Hstep.
  destruct (execution_order_spec p h) as (_ & Hmem & Hdep).
  assert (Hpos : ∀ j x, execution_order p h !! j = Some x → P x).
  { intros j. induction (lt_wf j) as [j _ IH]. intros x Hj.
    apply Hstep; [apply Hmem; by eapply list_elem_of_lookup_2|].
    intros d Hxd.
    destruct (Hdep j x Hj d Hxd (Hclosed _ _ Hxd)) as [(i & Hi & Hid)|Hback].
    - by apply (IH i Hi).
    - destruct (Hac x). eapply tc_rtc_r; [|done]. by apply tc_once. }
  intros x Hx. apply Hmem, list_elem_of_lookup in Hx as [j Hj]. eauto.
Qed.

(** The gate, read on the finished run: a registered task ends [SKIPPED]
    exactly when one of its dependencies does not end [SUCCESS]. *)
Lemma run_gate (p : Pipeline) ctx (h : Heap) w out p' r (st' : St) :
  valid_refs (tasks p) h →
  (∀ x a, dict_get x (tasks p) = Some a → status (cells h a) = PENDING) →
  run now strftime p ctx h w out = (Returned (p', r), st') →
  ∀ x, registered (tasks p) x →
    (status_of (run_tasks r) (heap st') x = Some SKIPPED
     ↔ ∃ dep, depends_on (tasks p) h x dep ∧
              status_of (run_tasks r) (heap st') dep ≠ Some SUCCESS).
Proof.
  intros Hv Hpend Hrun.
  destruct (run_facts _ _ _ _ _ _ _ Hv Hrun)
    as (h1 & d & done & _ & _ & _ & Hreg & _ & Hdeps & _ & Hgate & Hend).
  destruct Hend as (Hdone & -> & _).
  assert (Hg : gate_inv d h1 done st').
  { apply Hgate. intros x a Hx. by rewrite (Hpend x a Hx). }
  intros x Hx. destruct (proj2 (Hreg x) Hx) as [a Ha].
  destruct (Hg x a (proj2 (Hdone x) Hx) Ha) as [Hskip _].
  assert (Hd : dependencies (cells h1 a) = deps_of (tasks p) h x)
    by (rewrite <- Hdeps; unfold deps_of; by rewrite Ha).
  rewrite Hd in Hskip. unfold depends_on. rewrite <- Hskip.
  rewrite status_of_Some. split.
  - intros (b & Hb & Hs). congruence.
  - intros Hs. eauto.
Qed.

(** With at least one attempt for every task, every registered task of a
    completed run is in a terminal state. *)
Lemma run_terminal (p : Pipeline) ctx (h : Heap) w out p' r (st' : St) :
  valid_refs (tasks p) h →
  (∀ x a, dict_get x (tasks p) = Some a → (0 < retries (cells h a))%Z) →
  run now strftime p ctx h w out = (Returned (p', r), st') →
  ∀ x, registered (tasks p) x →
    ∃ s, status_of (run_tasks r) (heap st') x = Some s ∧
         (s = SUCCESS ∨ s = FAILED ∨ s = SKIPPED).
Proof.
  intros Hv Hpos Hrun.
  destruct (run_facts _ _ _ _ _ _ _ Hv Hrun)
    as (h1 & d & done & _ & _ & _ & Hreg & Hcopy & _ & Hbase & _ & Hend).
  destruct Hend as (Hdone & -> & _).
  destruct Hbase as (_ & _ & _ & new & _ & _ & Htask).
  intros x Hx. destruct (proj2 (Hreg x) Hx) as [a Ha].
  exists (status (cells (heap st') a)).
  split; [apply status_of_Some; eauto|].
  destruct (Htask x a (proj2 (Hdone x) Hx) Ha) as (_ & _ & _ & Ht & _).
  apply Ht. destruct (Hcopy x a Ha) as (_ & a0 & Ha0 & ->). by eapply Hpos.
Qed.

(** X8. The root cause of a skip.  In a completed run of an acyclic
    pipeline whose dependency ids are all registered (definitions
    [PENDING], at least one attempt each), a task ends [SKIPPED] exactly
    when one of its direct or transitive dependencies ends [FAILED]. *)
Theorem skipped_iff_upstream_failure (p : Pipeline) ctx (h : Heap) w out p' r
    (st' : St) :
  valid_refs (tasks p) h →
  acyclic (tasks p) h →
  deps_registered (tasks p) h →
  (∀ x a, dict_get x (tasks p) = Some a →
     status (cells h a) = PENDING ∧ (0 < retries (cells h a))%Z) →
  run now strftime p ctx h w out = (Returned (p', r), st') →
  ∀ x, registered (tasks p) x →
    (status_of (run_tasks r) (heap st') x = Some SKIPPED
     ↔ ∃ f, tc (depends_on (tasks p) h) x f ∧
            status_of (run_tasks r) (heap st') f = Some FAILED).
Proof.
  intros Hv Hac Hclosed Hdefs Hrun.
  assert (Hgate := run_gate _ _ _ _ _ _ _ _ Hv
                     (fun x a Hx => proj1 (Hdefs x a Hx)) Hrun).
  assert (Hterm := run_terminal _ _ _ _ _ _ _ _ Hv
                     (fun x a Hx => proj2 (Hdefs x a Hx)) Hrun).
  intros x Hx. split.
  - revert x Hx. apply (deps_induction p h
      (fun x => status_of (run_tasks r) (heap st') x = Some SKIPPED →
                ∃ f, tc (depends_on (tasks p) h) x f ∧
                     status_of (run_tasks r) (heap st') f = Some FAILED));
      [done..|].
    intros x Hx IH Hsk.
    apply (Hgate x Hx) in Hsk as (dep & Hdep & Hne).
    destruct (Hterm dep (Hclosed _ _ Hdep)) as (s & Hs & [->|[->| ->]]).
    + by destruct Hne.
    + exists dep. split; [by apply tc_once|done].
    + destruct (IH dep Hdep Hs) as (f & Hf & Hfail).
      exists f. split; [|done]. by eapply tc_l.
  - intros (f & Hf & Hfail). clear Hx.
    induction Hf as [x f Hxf|x y f Hxy Hyf IH].
    + apply Hgate; [by eapply depends_on_registered|].
      exists f. split; [done|]. by rewrite Hfail.
    + apply Hgate; [by eapply depends_on_registered|].
      exists y. split; [done|]. by rewrite (IH Hfail).
Qed.

(** X9. The happy path.  In an acyclic pipeline whose dependency ids are
    all registered (definitions [PENDING], at least one attempt each), if
    no task body ever raises then [run] returns, the overall status is
    [SUCCESS], every task ends [SUCCESS], and every body is invoked exactly
    once. *)
Theorem all_bodies_return_all_success (p : Pipeline) ctx (h : Heap) w out c
    (st' : St) :
  NoDup (keys (tasks p)) →
  valid_refs (tasks p) h →
  acyclic (tasks p) h →
  deps_registered (tasks p) h →
  (∀ x a, dict_get x (tasks p) = Some a →
     status (cells h a) = PENDING ∧ (0 < retries (cells h a))%Z ∧
     ∀ ar kw cx wx, ∃ v, (callable (cells h a) ar kw cx wx).1.1 = Return v) →
  run now strftime p ctx h w out = (c, st') →
  ∃ p' r evs,
    c = Returned (p', r) ∧
    run_status r = SUCCESS ∧
    stdout st' = out ++ evs ∧
    ∀ x, registered (tasks p) x →
      status_of (run_tasks r) (heap st') x = Some SUCCESS ∧
      attempt_count x evs = 1.
Proof.
  intros Hnd Hv Hac Hclosed Hdefs Hrun.
  destruct (run_returns _ _ _ _ _ _ _ Hv Hclosed Hrun) as (p' & r & ->).
  assert (Hgate := run_gate _ _ _ _ _ _ _ _ Hv
                     (fun x a Hx => proj1 (Hdefs x a Hx)) Hrun).
  destruct (run_steps _ _ _ _ _ _ _ Hv Hrun) as (d & o & new & Hout & Hd & Hall).
  specialize (Hd p' r eq_refl).
  assert (Hok : ∀ x, registered (tasks p) x →
            status_of (run_tasks r) (heap st') x = Some SUCCESS ∧
            attempt_count x new = 1).
  { apply (deps_induction p h
      (fun x => status_of (run_tasks r) (heap st') x = Some SUCCESS ∧
                attempt_count x new = 1)); [done..|].
    intros x Hx IH.
    assert (Hns : status_of (run_tasks r) (heap st') x ≠ Some SKIPPED).
    { rewrite (Hgate x Hx). intros (dep & Hdep & Hne).
      by destruct (IH dep Hdep). }
    apply registered_lookup in Hx as [a0 Ha0].
    destruct (Hdefs x a0 Ha0) as (_ & Hpos & Hret).
    destruct (Hall x a0 Ha0) as (a & Ha & [(_ & _ & e & [=])|Hstep]).
    destruct Hstep as (s1 & s2 & evs & Hrt & Hinit & Hfin & Hevs & Hcnt).
    rewrite Hd. rewrite Hd in Hns.
    assert (Hst : status_of d (heap st') x = Some (status (cells (heap st') a)))
      by (apply status_of_Some; eauto).
    rewrite Hst in Hns |- *. rewrite Hcnt, Hfin in *.
    apply run_task_returned in Hrt as (a' & Ha' & [[_ ->]|[_ ->]]);
      (assert (a' = a) as -> by congruence).
    - exfalso. apply Hns. by autorewrite with st.
    - rewrite Hinit in *.
      destruct (Z.to_nat (retries (cells h a0))) as [|n] eqn:En; [lia|].
      match goal with |- context [attempts now (S n) ?k x a ?s] =>
        destruct (Hret (args (cells (heap s) a)) (kwargs (cells (heap s) a))
                       (context s) (world s)) as [v Hv'];
        destruct (attempts_first_success (S n) k x a s 1 v None)
          as (H1 & _ & _ & _ & _ & _ & evs' & Hout' & Hcnt')
      end.
      + autorewrite with st. cbn [retries with_started_at with_status].
        rewrite Hinit. lia.
      + cbn [first_success]. revert Hv'. autorewrite with st.
        cbn [callable args kwargs with_started_at with_status].
        rewrite Hinit.
        destruct (callable (cells h a0) _ _ _ _) as [[oc c'] w'].
        simpl. by intros ->.
      + rewrite H1. split; [done|].
        rewrite Hout' in Hevs. autorewrite with st in Hevs.
        by apply app_inv_head in Hevs as ->. }
  exists p', r, ([PrintStarting (dag_id p); PrintOrder o] ++ new).
  split; [done|]. split; [|split; [done|]].
  - destruct (run_facts _ _ _ _ _ _ _ Hv Hrun)
      as (h1 & d' & done & Hkeys & _ & _ & Hreg & _ & _ & _ & _ & Hend).
    destruct Hend as (_ & Hd' & _ & -> & _).
    rewrite all_success_or_skipped_intro; [done|by rewrite Hkeys|].
    intros x s Hs. left.
    assert (Hx : registered (tasks p) x).
    { apply Hreg. apply status_of_Some in Hs as (a & Ha & _). eauto. }
    destruct (Hok x Hx) as [Hs' _]. rewrite Hd' in Hs'. congruence.
  - intros x Hx. destruct (Hok x Hx) as [Hs Hc]. split; [done|].
    rewrite attempt_count_app, !attempt_count_cons, attempt_count_nil.
    cbn [is_running]. simpl. by rewrite Hc.
Qed.

(** ** The run record and the context *)

(** X10. The record of a completed run.  Its id is the dag id, an
    underscore and the formatted first reading of the clock, its start time
    is the second reading, and its tasks are keyed like the pipeline's, in
    the same order.  Every task object of the record is a new object, not
    shared with another id, and carries the definition it was copied from:
    id, callable, arguments, dependencies, [retries] and [retry_delay] are
    those of the registered task. *)
Theorem run_record_shape (p : Pipeline) ctx (h : Heap) w out p' r (st' : St) :
  valid_refs (tasks p) h →
  run now strftime p ctx h w out = (Returned (p', r), st') →
  run_id r = dag_id p +:+ "_" +:+ strftime (now w).1 ∧
  start_time r = (now (now w).2).1 ∧
  run_dag_id r = dag_id p ∧
  keys (run_tasks r) = keys (tasks p) ∧
  dict_inj (run_tasks r) ∧
  ∀ x a, dict_get x (run_tasks r) = Some a →
    next h ≤ a ∧
    ∃ a0, dict_get x (tasks p) = Some a0 ∧
          same_def (cells (heap st') a) (cells h a0).
Proof.
  intros Hv Hrun.
  assert (Hid : run_id r = dag_id p +:+ "_" +:+ strftime (now w).1 ∧
                start_time r = (now (now w).2).1 ∧
                run_dag_id r = dag_id p).
  { revert Hrun. unfold run.
    destruct (now w) as [t0 w0]. cbn [fst snd].
    destruct (now w0) as [t1 w1]. cbn [fst snd].
    destruct (copy_tasks (tasks p) h) as [h1 d].
    destruct (run_loop _ _ _ _) as [[[]|e] stl]; [|done].
    destruct (now (world stl)) as [t2 w2]. intros [= _ <- _]. done. }
  destruct Hid as (-> & -> & ->).
  destruct (run_facts _ _ _ _ _ _ _ Hv Hrun)
    as (h1 & d & done & Hkeys & Hinj & _ & _ & Hcopy & _ & Hbase & _ & Hend).
  destruct Hend as (_ & -> & _). destruct Hbase as (_ & Hsame & _).
  repeat (split; [done|]).
  intros x a Ha. destruct (Hcopy x a Ha) as (Hlo & a0 & Ha0 & Hcell).
  split; [done|]. exists a0. split; [done|]. rewrite <- Hcell. apply Hsame.
Qed.

(** X11. The engine never assigns to the context.  If no registered task
    body changes the context dict, it is at the end of [run] what the
    caller passed ([{}] for [None]), whether [run] returns or raises; in
    particular the results of successful tasks are not in it. *)
Theorem engine_never_writes_context (p : Pipeline) ctx (h : Heap) w out c
    (st' : St) :
  valid_refs (tasks p) h →
  (∀ x a, dict_get x (tasks p) = Some a → keeps_context (cells h a)) →
  run now strftime p ctx h w out = (c, st') →
  context st' = default ∅ ctx.
Proof.
  intros Hv Hkeep Hrun.
  destruct (run_inversion _ _ _ _ _ _ _ Hrun)
    as (h1 & d & st0 & cl & stl & Hc & Hh0 & Hc0 & _ & Hloop & _ & -> & _).
  destruct (copy_of_defs _ _ _ _ Hc Hv) as (_ & _ & _ & _ & Hcopy & _).
  rewrite <- Hc0.
  pose proof (run_loop_invariant d
    (fun _ s => context s = context st0 ∧
                ∀ x a, dict_get x d = Some a →
                       keeps_context (cells (heap s) a))
    (execution_order p h1) [] st0 cl stl) as Hrule.
  lapply Hrule; [clear Hrule; intros Hrule|].
  2:{ split; [done|]. rewrite Hh0. intros x a Ha.
      destruct (Hcopy x a Ha) as (_ & a0 & Ha0 & ->). by eapply Hkeep. }
  lapply Hrule; [clear Hrule; intros Hrule|].
  2:{ intros done tid rest s1 s2 _ [Hctx Hk] Hstep. split.
      - rewrite <- Hctx.
        apply run_task_returned in Hstep as (a & Ha & [[_ ->]|[_ ->]]);
          [done|].
        rewrite attempts_context; autorewrite with st; [done|].
        intros a' k' c' w'. by apply (Hk tid a Ha).
      - intros x a Ha.
        destruct (run_task_frame _ _ _ _ _ Hstep) as (_ & _ & Hs & _).
        eapply keeps_context_same_def; [apply Hs|by eapply Hk]. }
  specialize (Hrule Hloop). destruct cl as [[]|e]; [by destruct Hrule|].
  by destruct Hrule as (_ & _ & _ & _ & [H _] & _).
Qed.

(** ** Saving a run and the scheduler *)

Variable isoformat : Time → string.

Lemma dict_set_fresh {V} (k : string) (v : V) (d : dict V) :
  k ∉ keys d → dict_set k v d = d ++ [(k, v)].
Proof.
  unfold keys. induction d as [|[k' v'] d IH]; [done|].
  cbn [dict_set fmap list_fmap fst]. intros Hk.
  apply not_elem_of_cons in Hk as [Hne Hk].
  rewrite decide_False by done. by rewrite IH.
Qed.

Lemma dict_set_set {V} (k : string) (v v' : V) (d : dict V) :
  dict_set k v' (dict_set k v d) = dict_set k v' d.
Proof.
  induction d as [|[k0 v0] d IH]; cbn [dict_set].
  - by rewrite decide_True.
  - destruct (decide (k = k0)) as [->|Hne]; cbn [dict_set].
    + by rewrite decide_True.
    + by rewrite decide_False, IH.
Qed.

Lemma dict_get_fmap {V W} (f : V → W) (x : string) (d : dict V) :
  dict_get x ((fun kv => (kv.1, f kv.2)) <$> d) = f <$> dict_get x d.
Proof.
  induction d as [|[k v] d IH]; [done|].
  cbn [fmap list_fmap dict_get fst snd]. fold (@fmap list _ _ _ (fun kv : string * V => (kv.1, f kv.2)) d).
  by destruct (decide (x = k)).
Qed.

(** With the keys of a dict being distinct, the comprehension keeps every
    entry at its place. *)
Lemma results_of_spec (d : dict nat) (h : Heap) :
  NoDup (keys d) →
  results_of isoformat d h
  = (fun kv => (kv.1, task_row isoformat (cells h kv.2))) <$> d.
Proof.
  unfold results_of.
  set (f := fun kv : string * nat => (kv.1, task_row isoformat (cells h kv.2))).
  assert (Hgen : ∀ d acc, NoDup (keys acc ++ keys d) →
            foldl (fun acc kv => dict_set kv.1 (task_row isoformat (cells h kv.2)) acc)
                  acc d = acc ++ (f <$> d)).
  { clear d. induction d as [|[k a] d IH]; intros acc Hnd.
    - simpl. by rewrite app_nil_r.
    - cbn [foldl fst snd]. unfold keys in Hnd. rewrite fmap_cons in Hnd.
      cbn [fst] in Hnd.
      rewrite dict_set_fresh.
      2:{ apply NoDup_app in Hnd as (_ & Hd & _). intros Hin.
          apply (Hd k Hin). by left. }
      rewrite IH.
      + by rewrite <- app_assoc.
      + unfold keys. rewrite fmap_app, <- app_assoc. exact Hnd. }
  intros Hnd. by rewrite Hgen.
Qed.

Lemma run_ids (p : Pipeline) ctx (h : Heap) w out p' r (st' : St) :
  run now strftime p ctx h w out = (Returned (p', r), st') →
  run_id r = dag_id p +:+ "_" +:+ strftime (now w).1 ∧
  run_dag_id r = dag_id p ∧ dag_id p' = dag_id p ∧ tasks p' = tasks p ∧
  runs p' = runs p ++ [r] ∧ is_Some (end_time r) ∧
  (run_status r = SUCCESS ∨ run_status r = FAILED).
Proof.
  unfold run.
  destruct (now w) as [t0 w0]. cbn [fst snd].
  destruct (now w0) as [t1 w1].
  destruct (copy_tasks (tasks p) h) as [h1 d].
  destruct (run_loop _ _ _ _) as [[[]|e] stl]; [|done].
  destruct (now (world stl)) as [t2 w2]. intros [= <- <- _]. simpl.
  repeat (split; [done|]).
  destruct (all_success_or_skipped _ _); auto.
Qed.

(** X12. [run_pipeline] raises its [ValueError] exactly when the dag id is
    not registered, with the text [Pipeline <dag_id> not found], and then
    nothing has happened: no task ran, nothing was printed or saved, and
    the scheduler is unchanged. *)
Theorem run_pipeline_unknown_dag dag ctx (s : Scheduler) (h : Heap) w out db
    res s' (st' : St) db' :
  run_pipeline now strftime isoformat dag ctx s h w out db
    = (res, s', st', db') →
  ((∃ msg, res = Err (ValueError msg)) ↔ dict_get dag (pipelines s) = None) ∧
  (∀ msg, res = Err (ValueError msg) →
     msg = "Pipeline " +:+ dag +:+ " not found" ∧
     s' = s ∧ heap st' = h ∧ world st' = w ∧ stdout st' = out ∧ db' = db).
Proof.
  unfold run_pipeline. destruct (dict_get dag (pipelines s)) as [p|].
  - destruct (run now strftime p ctx h w out) as [[[p' r]|e] st].
    + intros [= <- <- <- <-]. split; [|done]. split; [|done].
      by intros [msg [=]].
    + intros [= <- <- <- <-]. split; [|done]. split; [|done].
      by intros [msg [=]].
  - intros [= <- <- <- <-]. split; [split; [done|eauto]|].
    by intros msg [= <-].
Qed.

(** X13. [run_pipeline] on a registered pipeline.  A run that completes is
    appended to the history of the pipeline the scheduler holds and saved
    under its run id, leaving the other rows alone: the row carries the dag
    id, the status text [success] or [failed], an end time, and one entry
    per task, in registration order, built from the final state of the
    task (so an [error] text is saved whatever the status).  A run that
    raises is neither saved nor appended. *)
Theorem run_pipeline_saves_completed_runs dag ctx (s : Scheduler) (h : Heap)
    w out db p res s' (st' : St) db' :
  dict_get dag (pipelines s) = Some p →
  NoDup (keys (tasks p)) →
  valid_refs (tasks p) h →
  run_pipeline now strftime isoformat dag ctx s h w out db
    = (res, s', st', db') →
  match res with
  | Ok r =>
      (∃ p', run now strftime p ctx h w out = (Returned (p', r), st') ∧
             dict_get dag (pipelines s') = Some p' ∧
             runs p' = runs p ++ [r] ∧ tasks p' = tasks p) ∧
      schedules s' = schedules s ∧
      (∀ k, k ≠ run_id r → db' !! k = db !! k) ∧
      ∃ row, db' !! run_id r = Some row ∧
        col_dag_id row = dag_id p ∧
        (col_status row = "success" ∨ col_status row = "failed") ∧
        is_Some (col_end_time row) ∧
        keys (col_results row) = keys (tasks p) ∧
        ∀ x, dict_get x (col_results row)
             = task_row isoformat <$> task_of (run_tasks r) (heap st') x
  | Err (RunError e) =>
      run now strftime p ctx h w out = (Raised e, st') ∧ s' = s ∧ db' = db
  | Err (ValueError _) => False
  end.
Proof.
  intros Hp Hnd Hv. unfold run_pipeline. rewrite Hp.
  destruct (run now strftime p ctx h w out) as [[[p' r]|e] st] eqn:Hrun.
  2:{ by intros [= <- <- <- <-]. }
  intros [= <- <- <- <-].
  destruct (run_ids _ _ _ _ _ _ _ _ Hrun)
    as (_ & Hdag & _ & Htasks & Hruns & Hend & Hst).
  destruct (run_facts _ _ _ _ _ _ _ Hv Hrun)
    as (h1 & d & done & Hkeys & _ & _ & _ & _ & _ & _ & _ & Hfin).
  destruct Hfin as (_ & Hd & _).
  split; [|split; [done|split]].
  - exists p'. split; [done|]. split; [|done]. cbn [pipelines].
    by rewrite dict_get_set, decide_True.
  - intros k Hk. unfold save_pipeline_run. by rewrite lookup_insert_ne.
  - eexists. split; [unfold save_pipeline_run; by rewrite lookup_insert_eq|].
    cbn [col_dag_id col_status col_end_time col_results].
    split; [done|]. split.
    { destruct Hst as [-> | ->]; auto. }
    split; [destruct Hend as [t ->]; by eexists|].
    rewrite results_of_spec by (by rewrite Hd, Hkeys).
    split.
    + rewrite <- Hkeys, <- Hd. unfold keys.
      rewrite <- list_fmap_compose. done.
    + intros x. unfold task_of.
      rewrite (dict_get_fmap (fun a => task_row isoformat (cells (heap st) a))).
      by destruct (dict_get x (run_tasks r)).
Qed.

(** X14. Registering a pipeline and triggering it by its dag id is running
    that pipeline: the [ValueError] cannot occur, a completed run is saved,
    and the scheduler then holds the pipeline with the run appended, under
    the same schedule. *)
Theorem register_then_run (p : Pipeline) cr ctx (s : Scheduler) (h : Heap)
    w out db :
  run_pipeline now strftime isoformat (dag_id p) ctx
    (register_pipeline p cr s) h w out db
  = match run now strftime p ctx h w out with
    | (Returned (p', r), st) =>
        (Ok r, register_pipeline p' cr s, st,
         save_pipeline_run isoformat r (heap st) db)
    | (Raised e, st) => (Err (RunError e), register_pipeline p cr s, st, db)
    end.
Proof.
  unfold run_pipeline.
  assert (Hget : dict_get (dag_id p) (pipelines (register_pipeline p cr s))
                 = Some p).
  { unfold register_pipeline.
    destruct cr as [c|]; [destruct (decide (c = ""))|]; cbn [pipelines];
      by rewrite dict_get_set, decide_True. }
  rewrite Hget.
  destruct (run now strftime p ctx h w out) as [[[p' r]|e] st] eqn:Hrun;
    [|done].
  destruct (run_ids _ _ _ _ _ _ _ _ Hrun) as (_ & _ & Hdag & _).
  f_equal. f_equal. f_equal. unfold register_pipeline. rewrite Hdag.
  destruct cr as [c|]; [destruct (decide (c = ""))|];
    cbn [pipelines schedules]; by rewrite dict_set_set.
Qed.

(** X15. Whatever calls of [register_pipeline] and [run_pipeline] are made
    on a new scheduler, every schedule it holds belongs to a registered
    pipeline and has a cron text that is not empty, and its [last_run] is
    still unset: running a pipeline never records it in the schedule. *)
Theorem schedules_never_marked_run (s : Scheduler) :
  reachable (Value:=Value) (Arg:=Arg) now strftime isoformat s →
  scheduler_inv s.
Proof.
  intros Hs. induction Hs as [|p cr s _ IH|dag ctx s h w out db _ IH].
  - intros k sc [=].
  - intros k sc. unfold register_pipeline.
    assert (Hold : dict_get k (schedules s) = Some sc →
              is_Some (dict_get k (dict_set (dag_id p) p (pipelines s))) ∧
              cron sc ≠ "" ∧ last_run sc = None).
    { intros Hk. destruct (IH k sc Hk) as (Hin & Hc & Hl).
      split; [|done]. rewrite dict_get_set. by destruct (decide _). }
    destruct cr as [c|]; [destruct (decide (c = "")) as [|Hc]|];
      cbn [pipelines schedules]; [done| |done].
    rewrite dict_get_set. destruct (decide (k = dag_id p)) as [->|]; [|done].
    intros [= <-]. split; [|done]. by rewrite dict_get_set, decide_True.
  - unfold run_pipeline.
    destruct (dict_get dag (pipelines s)) as [p|] eqn:Hp; [|done].
    destruct (run now strftime p ctx h w out) as [[[p' r]|e] st]; [|done].
    cbn [fst snd]. intros k sc Hk. cbn [pipelines schedules] in Hk |- *.
    destruct (IH k sc Hk) as (Hin & Hc & Hl). split; [|done].
    rewrite dict_get_set. by destruct (decide _).
Qed.

(** X16. Run ids have the resolution of a second.  When two runs of a
    pipeline through the scheduler start at clock readings with the same
    formatted text, they get the same run id and the second save replaces
    the row of the first: the table ends as if only the second run had
    been saved, while the pipeline's own history holds both. *)
Theorem same_second_runs_share_a_row dag ctx1 ctx2 (s : Scheduler) (h : Heap)
    w out db r1 s1 (st1 : St) db1 r2 s2 (st2 : St) db2 :
  run_pipeline now strftime isoformat dag ctx1 s h w out db
    = (Ok r1, s1, st1, db1) →
  run_pipeline now strftime isoformat dag ctx2 s1 (heap st1) (world st1)
    (stdout st1) db1 = (Ok r2, s2, st2, db2) →
  strftime (now w).1 = strftime (now (world st1)).1 →
  run_id r1 = run_id r2 ∧
  db2 = save_pipeline_run isoformat r2 (heap st2) db ∧
  ∃ p p2, dict_get dag (pipelines s) = Some p ∧
          dict_get dag (pipelines s2) = Some p2 ∧
          runs p2 = runs p ++ [r1; r2].
Proof.
  unfold run_pipeline.
  destruct (dict_get dag (pipelines s)) as [p|] eqn:Hp; [|done].
  destruct (run now strftime p ctx1 h w out) as [[[p1 r1']|e] st] eqn:Hrun1;
    [|done].
  intros [= -> <- <- <-]. cbn [pipelines].
  rewrite dict_get_set, decide_True by done.
  destruct (run now strftime p1 ctx2 _ _ _) as [[[p2 r2']|e] st'] eqn:Hrun2;
    [|done].
  intros [= -> <- <- <-] Hsame.
  destruct (run_ids _ _ _ _ _ _ _ _ Hrun1) as (Hid1 & _ & Hdag1 & _ & Hruns1 & _).
  destruct (run_ids _ _ _ _ _ _ _ _ Hrun2) as (Hid2 & _ & _ & _ & Hruns2 & _).
  assert (Hid : run_id r1 = run_id r2).
  { by rewrite Hid1, Hid2, Hdag1, Hsame. }
  split; [done|]. split.
  - unfold save_pipeline_run. rewrite Hid. by rewrite insert_insert_eq.
  - exists p, p2. split; [done|]. split.
    + cbn [pipelines]. by rewrite dict_get_set, decide_True.
    + by rewrite Hruns2, Hruns1, <- app_assoc.
Qed.

(** ** [create_daily_pipeline] *)

Section Daily.

Variables fetch_earnings_task calculate_metrics_task store_results_task
  generate_alerts_task : @Callable Value Arg World.
Variable tickers : Arg.
Variable h : Heap.

#[local] Abbreviation daily_pipeline :=
  (create_daily_pipeline fetch_earnings_task calculate_metrics_task
     store_results_task generate_alerts_task tickers h).

Lemma create_daily_pipeline_tasks :
  tasks daily_pipeline.1
  = [("fetch_earnings", next h); ("calculate_metrics", S (next h));
     ("store_results", S (S (next h)));
     ("generate_alerts", S (S (S (next h))))] ∧
  dag_id daily_pipeline.1 = "daily_earnings_update" ∧
  runs daily_pipeline.1 = [] ∧
  next daily_pipeline.2 = S (S (S (S (next h)))).
Proof. done. Qed.

Lemma create_daily_pipeline_cells :
  cells daily_pipeline.2 (next h)
  = mkTask "fetch_earnings" fetch_earnings_task [tickers] [] [] 3%Z 60%Z
      PENDING None None None None ∧
  cells daily_pipeline.2 (S (next h))
  = mkTask "calculate_metrics" calculate_metrics_task [] []
      ["fetch_earnings"] 3%Z 60%Z PENDING None None None None ∧
  cells daily_pipeline.2 (S (S (next h)))
  = mkTask "store_results" store_results_task [] []
      ["calculate_metrics"] 3%Z 60%Z PENDING None None None None ∧
  cells daily_pipeline.2 (S (S (S (next h))))
  = mkTask "generate_alerts" generate_alerts_task [] []
      ["calculate_metrics"] 3%Z 60%Z PENDING None None None None ∧
  ∀ b, b < next h → cells daily_pipeline.2 b = cells h b.
Proof.
  unfold create_daily_pipeline, add_task, alloc. cbn.
  repeat split; try intros b Hb;
    repeat (destruct (decide _) as [?|?]; try lia); done.
Qed.

Lemma create_daily_pipeline_depends_on x d :
  depends_on (tasks daily_pipeline.1) daily_pipeline.2 x d
  ↔ (x = "calculate_metrics" ∧ d = "fetch_earnings")
    ∨ ((x = "store_results" ∨ x = "generate_alerts")
       ∧ d = "calculate_metrics").
Proof.
  destruct create_daily_pipeline_tasks as (Ht & _).
  destruct create_daily_pipeline_cells as (C1 & C2 & C3 & C4 & _).
  unfold depends_on, deps_of. rewrite Ht. cbn [dict_get].
  destruct (decide (x = "fetch_earnings")) as [->|N1].
  { rewrite C1. cbn [dependencies]. rewrite elem_of_nil.
    split; [done|]. by intros [[? _]|[[?|?] _]]. }
  destruct (decide (x = "calculate_metrics")) as [->|N2].
  { rewrite C2. cbn [dependencies]. rewrite list_elem_of_singleton.
    split; [auto|]. by intros [[_ ?]|[[?|?] _]]. }
  destruct (decide (x = "store_results")) as [->|N3].
  { rewrite C3. cbn [dependencies]. rewrite list_elem_of_singleton.
    split; [auto|]. by intros [[? _]|[_ ?]]. }
  destruct (decide (x = "generate_alerts")) as [->|N4].
  { rewrite C4. cbn [dependencies]. rewrite list_elem_of_singleton.
    split; [auto|]. by intros [[? _]|[_ ?]]. }
  rewrite elem_of_nil. split; [done|]. by intros [[? _]|[[?|?] _]].
Qed.

Lemma create_daily_pipeline_registered x :
  registered (tasks daily_pipeline.1) x
  ↔ x = "fetch_earnings" ∨ x = "calculate_metrics" ∨ x = "store_results"
    ∨ x = "generate_alerts".
Proof.
  destruct create_daily_pipeline_tasks as (Ht & _).
  unfold registered. rewrite Ht. cbn.
  rewrite !elem_of_cons, elem_of_nil. naive_solver.
Qed.

Lemma create_daily_pipeline_wf :
  NoDup (keys (tasks daily_pipeline.1)) ∧
  valid_refs (tasks daily_pipeline.1) daily_pipeline.2 ∧
  (∀ x a, dict_get x (tasks daily_pipeline.1) = Some a →
     (status (cells daily_pipeline.2 a) = PENDING ∧
      result (cells daily_pipeline.2 a) = None ∧
      error (cells daily_pipeline.2 a) = None ∧
      started_at (cells daily_pipeline.2 a) = None ∧
      completed_at (cells daily_pipeline.2 a) = None) ∧
     retries (cells daily_pipeline.2 a) = 3%Z) ∧
  acyclic (tasks daily_pipeline.1) daily_pipeline.2 ∧
  deps_registered (tasks daily_pipeline.1) daily_pipeline.2.
Proof.
  destruct create_daily_pipeline_tasks as (Ht & _ & _ & Hn).
  destruct create_daily_pipeline_cells as (C1 & C2 & C3 & C4 & _).
  split; [|split; [|split; [|split]]].
  - rewrite Ht. cbn. repeat (apply NoDup_cons; split;
      [rewrite ?elem_of_cons, elem_of_nil; naive_solver|]).
    apply NoDup_nil_2.
  - unfold valid_refs. rewrite Ht, Hn.
    repeat (apply Forall_cons; split; [simpl; lia|]). apply Forall_nil_2.
  - rewrite Ht.
    apply (dict_get_Forall (fun _ a =>
      (status (cells daily_pipeline.2 a) = PENDING ∧
       result (cells daily_pipeline.2 a) = None ∧
       error (cells daily_pipeline.2 a) = None ∧
       started_at (cells daily_pipeline.2 a) = None ∧
       completed_at (cells daily_pipeline.2 a) = None) ∧
      retries (cells daily_pipeline.2 a) = 3%Z)).
    repeat (apply Forall_cons; split; [cbn [fst snd]|]);
      [by rewrite C1|by rewrite C2|by rewrite C3|by rewrite C4|].
    apply Forall_nil_2.
  - apply acyclic_by_rank with daily_rank. intros x d.
    rewrite create_daily_pipeline_depends_on. intros [[-> ->]|[[-> | ->] ->]]; by vm_compute.
  - intros x d.
    rewrite create_daily_pipeline_depends_on,
      create_daily_pipeline_registered.
    naive_solver.
Qed.

(** X17. The pre-built daily pipeline, whatever the four task functions
    and the tickers are: its execution order is [fetch_earnings],
    [calculate_metrics], [store_results], [generate_alerts]. *)
Theorem daily_pipeline_order :
  _get_execution_order daily_pipeline.1 daily_pipeline.2
  = Some ["fetch_earnings"; "calculate_metrics"; "store_results";
          "generate_alerts"].
Proof.
  destruct create_daily_pipeline_tasks as (Ht & _).
  destruct create_daily_pipeline_wf as (Hnd & _).
  unfold _get_execution_order. rewrite Ht in Hnd |- *.
  cbn [length keys fmap list_fmap fst] in Hnd |- *.
  change (∅ : gset string) with (list_to_set [] : gset string).
  rewrite <- Ht.
  rewrite (for_each_visit_in_order (tasks daily_pipeline.1) daily_pipeline.2
             3 _ []); [done|done| |].
  - intros x Hx. apply create_daily_pipeline_registered.
    revert Hx. rewrite !elem_of_cons, elem_of_nil. naive_solver.
  - intros l1 x l2 Hl d. rewrite create_daily_pipeline_depends_on. cbn [app].
    destruct l1 as [|y1 [|y2 [|y3 [|y4 l1]]]]; simplify_eq/=;
      rewrite ?elem_of_cons; naive_solver.
Qed.

(** X18. Every run of the pre-built daily pipeline returns a record;
    [fetch_earnings] is executed and ends [SUCCESS] or [FAILED];
    [calculate_metrics] is skipped exactly when [fetch_earnings] failed;
    and [store_results] and [generate_alerts] are each skipped exactly when
    [fetch_earnings] or [calculate_metrics] failed. *)
Theorem daily_pipeline_run ctx w out c (st' : St) :
  run now strftime daily_pipeline.1 ctx daily_pipeline.2 w out = (c, st') →
  ∃ p' r, c = Returned (p', r) ∧
    (status_of (run_tasks r) (heap st') "fetch_earnings" = Some SUCCESS
     ∨ status_of (run_tasks r) (heap st') "fetch_earnings" = Some FAILED) ∧
    (status_of (run_tasks r) (heap st') "calculate_metrics" = Some SKIPPED
     ↔ status_of (run_tasks r) (heap st') "fetch_earnings" = Some FAILED) ∧
    ∀ x, x = "store_results" ∨ x = "generate_alerts" →
      (status_of (run_tasks r) (heap st') x = Some SKIPPED
       ↔ status_of (run_tasks r) (heap st') "fetch_earnings" = Some FAILED
         ∨ status_of (run_tasks r) (heap st') "calculate_metrics"
           = Some FAILED).
Proof.
  intros Hrun.
  destruct create_daily_pipeline_wf as (_ & Hv & Hdefs & _ & Hclosed).
  destruct (run_returns _ _ _ _ _ _ _ Hv Hclosed Hrun) as (p' & r & ->).
  exists p', r. split; [done|].
  assert (Hgate := run_gate _ _ _ _ _ _ _ _ Hv
                     (fun x a Hx => proj1 (proj1 (Hdefs x a Hx))) Hrun).
  assert (Hterm : ∀ x, registered (tasks daily_pipeline.1) x →
            ∃ s, status_of (run_tasks r) (heap st') x = Some s ∧
                 (s = SUCCESS ∨ s = FAILED ∨ s = SKIPPED)).
  { eapply run_terminal; [exact Hv| |exact Hrun].
    intros x a Hx. destruct (Hdefs x a Hx) as [_ ->]. lia. }
  assert (Hf : status_of (run_tasks r) (heap st') "fetch_earnings"
               = Some SUCCESS
             ∨ status_of (run_tasks r) (heap st') "fetch_earnings"
               = Some FAILED).
  { destruct (Hterm "fetch_earnings") as (s & Hs & [->|[->| ->]]);
      [apply create_daily_pipeline_registered; auto|auto|auto|].
    apply Hgate in Hs as (dep & Hdep & _); [|apply create_daily_pipeline_registered; auto].
    apply create_daily_pipeline_depends_on in Hdep. naive_solver. }
  assert (Hc : status_of (run_tasks r) (heap st') "calculate_metrics"
               = Some SKIPPED
             ↔ status_of (run_tasks r) (heap st') "fetch_earnings"
               = Some FAILED).
  { rewrite Hgate by (apply create_daily_pipeline_registered; auto). split.
    - intros (dep & Hdep & Hne). apply create_daily_pipeline_depends_on in Hdep.
      destruct Hdep as [[_ ->]|[[?|?] _]]; [|done..].
      by destruct Hf.
    - intros Hfail. exists "fetch_earnings".
      split; [apply create_daily_pipeline_depends_on; auto|]. by rewrite Hfail. }
  split; [done|]. split; [done|].
  intros x Hx. rewrite Hgate by (apply create_daily_pipeline_registered; naive_solver).
  split.
  - intros (dep & Hdep & Hne). apply create_daily_pipeline_depends_on in Hdep.
    assert (dep = "calculate_metrics") as -> by naive_solver.
    destruct (Hterm "calculate_metrics") as (s & Hs & [->|[->| ->]]);
      [apply create_daily_pipeline_registered; auto|done|auto|].
    left. by apply Hc.
  - intros Hfail. exists "calculate_metrics".
    split; [apply create_daily_pipeline_depends_on; naive_solver|].
    destruct Hfail as [Hfail|Hfail]; [|by rewrite Hfail].
    apply Hc in Hfail. by rewrite Hfail.
Qed.

End Daily.

(** ** Tasks without attempts *)

(** X19. [retries] is not checked.  In a completed run (definitions
    [PENDING]) no task is left [PENDING], and a task is left [RUNNING]
    exactly when its [retries] is zero or negative and all of its
    dependencies ended [SUCCESS]: the retry loop has no iteration, so the
    body is never invoked and no terminal status is assigned.  Such a task
    makes the overall status [FAILED] without any task being [FAILED]
    because of it. *)
Theorem running_iff_no_attempts (p : Pipeline) ctx (h : Heap) w out p' r
    (st' : St) :
  valid_refs (tasks p) h →
  (∀ x a, dict_get x (tasks p) = Some a → status (cells h a) = PENDING) →
  run now strftime p ctx h w out = (Returned (p', r), st') →
  ∀ x a0, dict_get x (tasks p) = Some a0 →
    status_of (run_tasks r) (heap st') x ≠ Some PENDING ∧
    (status_of (run_tasks r) (heap st') x = Some RUNNING
     ↔ (retries (cells h a0) ≤ 0)%Z ∧
       ∀ dep, depends_on (tasks p) h x dep →
              status_of (run_tasks r) (heap st') dep = Some SUCCESS) ∧
    (status_of (run_tasks r) (heap st') x = Some RUNNING →
     run_status r = FAILED ∧
     ∃ evs, stdout st' = out ++ evs ∧ attempt_count x evs = 0).
Proof.
  intros Hv Hpend Hrun x a0 Ha0.
  assert (Hgate := run_gate _ _ _ _ _ _ _ _ Hv Hpend Hrun).
  destruct (run_steps _ _ _ _ _ _ _ Hv Hrun) as (d & o & new & Hout & Hd & Hall).
  specialize (Hd p' r eq_refl).
  destruct (run_facts _ _ _ _ _ _ _ Hv Hrun)
    as (h1 & d' & done & _ & _ & _ & Hreg & Hcopy & _ & Hbase & _ & Hend).
  destruct Hend as (Hdone & Hd' & _ & Hst & _).
  assert (d' = d) as -> by congruence.
  destruct Hbase as (_ & _ & _ & new' & _ & _ & Htask).
  assert (Hx : registered (tasks p) x) by (apply registered_lookup; eauto).
  destruct (Hall x a0 Ha0) as (a & Ha & [(_ & _ & e & [=])|Hstep]).
  destruct (Htask x a (proj2 (Hdone x) Hx) Ha) as (Hnp & _ & _ & Hterm & _).
  assert (Hsx : status_of (run_tasks r) (heap st') x
                = Some (status (cells (heap st') a)))
    by (rewrite Hd; apply status_of_Some; eauto).
  assert (Hret : cells h1 a = cells h a0).
  { destruct (Hcopy x a Ha) as (_ & a1 & Ha1 & ->). congruence. }
  rewrite Hret in Hterm.
  assert (Hrunning : status_of (run_tasks r) (heap st') x = Some RUNNING
     ↔ (retries (cells h a0) ≤ 0)%Z ∧
       ∀ dep, depends_on (tasks p) h x dep →
              status_of (run_tasks r) (heap st') dep = Some SUCCESS).
  { split.
    - intros Hr. split.
      + destruct (decide (0 < retries (cells h a0))%Z) as [Hpos|]; [|lia].
        rewrite Hsx in Hr. injection Hr as Hr.
        destruct (Hterm Hpos) as [?|[?|?]]; congruence.
      + intros dep Hdep.
        destruct (decide (status_of (run_tasks r) (heap st') dep
                          = Some SUCCESS)) as [|Hne]; [done|].
        assert (status_of (run_tasks r) (heap st') x = Some SKIPPED)
          by (apply Hgate; eauto). congruence.
    - intros [Hno Hdeps].
      assert (Hns : status_of (run_tasks r) (heap st') x ≠ Some SKIPPED).
      { rewrite (Hgate x Hx). intros (dep & Hdep & Hne).
        by apply Hne, Hdeps. }
      rewrite Hsx in Hns |- *.
      destruct Hstep as (s1 & s2 & evs & Hrt & Hinit & Hfin & _).
      rewrite Hfin in Hns |- *.
      apply run_task_returned in Hrt as (a' & Ha' & [[_ ->]|[_ ->]]);
        (assert (a' = a) as -> by congruence).
      + exfalso. apply Hns. by autorewrite with st.
      + rewrite Hinit.
        replace (Z.to_nat (retries (cells h a0))) with 0 by lia.
        cbn [attempts]. by autorewrite with st. }
  split; [rewrite Hsx; congruence|]. split; [done|].
  intros Hr. split.
  - rewrite Hst. destruct (all_success_or_skipped d (heap st')) eqn:E; [|done].
    rewrite Hd in Hr.
    destruct (all_success_or_skipped_elim _ _ E x RUNNING Hr); done.
  - exists ([PrintStarting (dag_id p); PrintOrder o] ++ new).
    split; [done|].
    rewrite attempt_count_app, !attempt_count_cons, attempt_count_nil.
    cbn [is_running]. simpl.
    apply Hrunning in Hr as [Hno _].
    destruct Hstep as (s1 & s2 & evs & Hrt & Hinit & _ & Hevs & ->).
    apply run_task_returned in Hrt as (a' & Ha' & [[_ ->]|[_ ->]]);
      (assert (a' = a) as -> by congruence).
    + revert Hevs. autorewrite with st. intros Hevs.
      apply app_inv_head in Hevs as <-. done.
    + revert Hevs. rewrite Hinit.
      replace (Z.to_nat (retries (cells h a0))) with 0 by lia.
      cbn [attempts]. autorewrite with st.
      rewrite <- (app_nil_r (stdout s1)) at 1.
      intros Hevs. by apply app_inv_head in Hevs as <-.
Qed.

End Properties.

(** * The claims on the concrete pipelines *)

Lemma daily_acyclic : acyclic (tasks daily.1) daily.2.
Proof.
  apply acyclic_by_rank with daily_rank. apply depends_on_Forall.
  apply (bool_decide_unpack _). by vm_compute.
Qed.

Lemma daily_deps_registered : deps_registered (tasks daily.1) daily.2.
Proof.
  unfold deps_registered, registered. apply depends_on_Forall.
  apply (bool_decide_unpack _). by vm_compute.
Qed.

Lemma execution_order_topological_witness :
  acyclic (tasks daily.1) daily.2 ∧
  deps_registered (tasks daily.1) daily.2 ∧
  ∃ o, _get_execution_order daily.1 daily.2 = Some o ∧
       NoDup o ∧
       (∀ x, x ∈ o ↔ registered (tasks daily.1) x) ∧
       (∀ x d, tc (depends_on (tasks daily.1) daily.2) x d → before o d x).
Proof.
  split; [exact daily_acyclic|]. split; [exact daily_deps_registered|].
  exact (execution_order_topological daily.1 daily.2
           daily_acyclic daily_deps_registered).
Defined.

Lemma chain_valid_refs : valid_refs (tasks chain.1) chain.2.
Proof. by_computation. Qed.

Lemma chain_pending x a :
  dict_get x (tasks chain.1) = Some a → status (cells chain.2 a) = PENDING.
Proof.
  apply (dict_get_Forall (fun _ b => status (cells chain.2 b) = PENDING)).
  by_computation.
Qed.

Lemma chain_retries x a :
  dict_get x (tasks chain.1) = Some a → (0 < retries (cells chain.2 a))%Z.
Proof.
  apply (dict_get_Forall (fun _ b => (0 < retries (cells chain.2 b))%Z)).
  by_computation.
Qed.

Lemma chain_fresh : fresh_defs (tasks chain.1) chain.2.
Proof.
  unfold fresh_defs.
  apply (dict_get_Forall (fun _ b =>
    status (cells chain.2 b) = PENDING ∧ result (cells chain.2 b) = None ∧
    error (cells chain.2 b) = None ∧ started_at (cells chain.2 b) = None ∧
    completed_at (cells chain.2 b) = None)).
  by_computation.
Qed.

Lemma final_task_eq res p' r st' x :
  res = (Returned (p', r), st') →
  final_task res x = task_of (run_tasks r) (heap st') x.
Proof. by intros ->. Qed.

Lemma record_of_eq res p' r st' :
  res = (Returned (p', r), st') → record_of res = Some r.
Proof. by intros ->. Qed.

Lemma skipped_iff_dependency_not_success_witness :
  ∃ p' r st',
    run_on chain None = (Returned (p', r), st') ∧
    status_of (run_tasks r) (heap st') "A" = Some FAILED ∧
    status_of (run_tasks r) (heap st') "B" = Some SKIPPED ∧
    status_of (run_tasks r) (heap st') "C" = Some SKIPPED ∧
    run_status r = FAILED.
Proof.
  destruct (run_on chain None) as [[[p' r]|e] st'] eqn:E;
    [|by vm_compute in E].
  exists p', r, st'. split; [done|].
  assert (HA : status_of (run_tasks r) (heap st') "A" = Some FAILED).
  { unfold status_of. rewrite <- (final_task_eq _ _ _ _ _ E). by vm_compute. }
  split; [done|].
  apply (proj2 (skipped_iff_dependency_not_success clock stamp_text
                  chain.1 None chain.2 0 [] p' r st'
                  chain_valid_refs chain_pending E) "A" "B" "C").
  - exact HA.
  - unfold depends_on. by_computation.
  - unfold depends_on. by_computation.
Defined.

Lemma chain_deps_registered : deps_registered (tasks chain.1) chain.2.
Proof.
  unfold deps_registered, registered. apply depends_on_Forall. by_computation.
Qed.


Lemma cyclic_valid_refs : valid_refs (tasks cyclic.1) cyclic.2.
Proof. by_computation. Qed.

Lemma cyclic_pending x a :
  dict_get x (tasks cyclic.1) = Some a → status (cells cyclic.2 a) = PENDING.
Proof.
  apply (dict_get_Forall (fun _ b => status (cells cyclic.2 b) = PENDING)).
  by_computation.
Qed.

Lemma cyclic_cycle : tc (depends_on (tasks cyclic.1) cyclic.2) "A" "A".
Proof.
  apply tc_l with "B"; [|apply tc_once]; unfold depends_on; by_computation.
Qed.

(** C2 fails on the code: [cyclic] holds the cycle A → B → A, yet [run]
    reports no error, returns a record whose overall status is [SUCCESS],
    and has executed the task C of that pipeline. *)
Lemma cycle_is_not_reported :
  tc (depends_on (tasks cyclic.1) cyclic.2) "A" "A" ∧
  run_status <$> record_of (run_on cyclic None) = Some SUCCESS ∧
  attempt_count "C" (stdout (run_on cyclic None).2) = 1 ∧
  status <$> final_task (run_on cyclic None) "C" = Some SUCCESS.
Proof. split; [exact cyclic_cycle|]. by vm_compute. Qed.

Lemma cyclic_tasks_are_skipped_witness :
  (∃ evs, stdout (run_on cyclic None).2 = [] ++ evs ∧
          attempt_count "A" evs = 0) ∧
  (∀ p' r, (run_on cyclic None).1 = Returned (p', r) →
     status_of (run_tasks r) (heap (run_on cyclic None).2) "A" = Some SKIPPED).
Proof.
  exact (proj2 (cyclic_tasks_are_skipped clock stamp_text cyclic.1 None
                  cyclic.2 0 [] (run_on cyclic None).1 (run_on cyclic None).2
                  cyclic_valid_refs cyclic_pending (surjective_pairing _))
               "A" cyclic_cycle).
Defined.

(** C3 fails on the code, which never writes a result into the context:
    in the shape of [create_daily_pipeline], [fetch_earnings] succeeds with
    a result, yet the context is still empty at the end of the run, and
    [calculate_metrics], which reads [context.get('fetch_earnings')], got
    nothing. *)
Theorem results_are_not_written_to_context :
  status <$> final_task (run_on daily None) "fetch_earnings" = Some SUCCESS ∧
  result <$> final_task (run_on daily None) "fetch_earnings" = Some (Some 1) ∧
  context (run_on daily None).2 = ∅ ∧
  status <$> final_task (run_on daily None) "calculate_metrics"
    = Some SUCCESS ∧
  result <$> final_task (run_on daily None) "calculate_metrics" = Some None.
Proof. by vm_compute. Qed.

Lemma dangling_valid_refs : valid_refs (tasks dangling.1) dangling.2.
Proof. by_computation. Qed.

Lemma dangling_ghost :
  depends_on (tasks dangling.1) dangling.2 "B" "ghost" ∧
  ¬ registered (tasks dangling.1) "ghost".
Proof. unfold depends_on, registered. split; by_computation. Qed.

(** C5 fails on the code: B of [dangling] names the unregistered id
    [ghost]; the order is computed without any error, [run] executes A and
    only then raises [KeyError]; and in [dangling_skipped], where A fails,
    no error is raised at all and B is silently skipped. *)
Lemma unknown_dependency_raises_mid_run :
  depends_on (tasks dangling.1) dangling.2 "B" "ghost" ∧
  ¬ registered (tasks dangling.1) "ghost" ∧
  _get_execution_order dangling.1 dangling.2 = Some ["A"; "B"] ∧
  (run_on dangling None).1 = Raised (KeyError "ghost") ∧
  attempt_count "A" (stdout (run_on dangling None).2) = 1 ∧
  status <$> final_task (run_on dangling_skipped None) "B" = Some SKIPPED.
Proof.
  split; [exact (proj1 dangling_ghost)|].
  split; [exact (proj2 dangling_ghost)|]. by vm_compute.
Qed.

Lemma unknown_dependency_not_rejected_witness :
  (∃ o, _get_execution_order dangling.1 dangling.2 = Some o ∧
        "B" ∈ o ∧ "ghost" ∉ o) ∧
  ∀ ctx w out c st',
    run clock stamp_text dangling.1 ctx dangling.2 w out = (c, st') →
    match c with
    | Returned (p', r) =>
        status_of (run_tasks r) (heap st') "B" = Some SKIPPED
    | Raised e =>
        ∃ y k', e = KeyError k' ∧
                depends_on (tasks dangling.1) dangling.2 y k' ∧
                ¬ registered (tasks dangling.1) k'
    end.
Proof.
  exact (unknown_dependency_not_rejected clock stamp_text dangling.1
           dangling.2 "B" "ghost" dangling_valid_refs
           (proj1 dangling_ghost) (proj2 dangling_ghost)).
Defined.

Lemma retry_exhaustion_witness :
  status (cells (heap (run_loop clock exhausted_copies.2 ["T"]
                         exhausted_start).2) 1) = FAILED ∧
  error (cells (heap (run_loop clock exhausted_copies.2 ["T"]
                        exhausted_start).2) 1) = Some "second" ∧
  is_Some (completed_at
             (cells (heap (run_loop clock exhausted_copies.2 ["T"]
                             exhausted_start).2) 1)) ∧
  ∃ evs, stdout (run_loop clock exhausted_copies.2 ["T"] exhausted_start).2
         = stdout exhausted_start ++ evs ∧
         attempt_count "T" evs = 2.
Proof.
  apply (retry_exhaustion clock exhausted_copies.2 "T" 1 [] exhausted_start
           2 "second" (run_loop clock exhausted_copies.2 ["T"]
                         exhausted_start).1).
  - exact (proj2 (proj2 (proj2 (proj2
             (copy_tasks_spec _ _ _ _ (surjective_pairing exhausted_copies)))))).
  - reflexivity.
  - apply not_elem_of_nil.
  - intros dep Hdep. vm_compute in Hdep. inversion Hdep.
  - reflexivity.
  - by vm_compute.
  - apply surjective_pairing.
Defined.

(** The example of C6 through [run] itself: [retries=2], a body that always
    fails. *)
Lemma retry_exhaustion_example :
  (fun t => (status t, error t, completed_at t))
    <$> final_task (run_on exhausted None) "T"
  = Some (FAILED, Some "second", Some 3) ∧
  attempt_count "T" (stdout (run_on exhausted None).2) = 2.
Proof. by vm_compute. Qed.



Lemma retried_valid_refs : valid_refs (tasks retried.1) retried.2.
Proof. by_computation. Qed.

Lemma retried_error_unset x a :
  dict_get x (tasks retried.1) = Some a → error (cells retried.2 a) = None.
Proof.
  apply (dict_get_Forall (fun _ b => error (cells retried.2 b) = None)).
  by_computation.
Qed.

(** C9 fails on the code: the task of [retried] fails its first attempt
    and succeeds on the second; it ends [SUCCESS] with the text of the
    failed attempt still in [error]. *)
Lemma error_survives_retry_success :
  status <$> final_task (run_on retried None) "T" = Some SUCCESS ∧
  error <$> final_task (run_on retried None) "T" = Some (Some "boom") ∧
  attempt_count "T" (stdout (run_on retried None).2) = 2.
Proof. by vm_compute. Qed.

Lemma error_set_iff_attempt_failed_witness :
  ∃ p' r st',
    run_on retried None = (Returned (p', r), st') ∧
    ∃ evs, stdout st' = [] ++ evs ∧
      ∀ x t, task_of (run_tasks r) (heap st') x = Some t →
        (error t = None ↔ existsb (is_failure x) evs = false) ∧
        (status t = SKIPPED → error t = None) ∧
        (status t = FAILED → is_Some (error t)).
Proof.
  destruct (run_on retried None) as [[[p' r]|e] st'] eqn:E;
    [|by vm_compute in E].
  exists p', r, st'. split; [done|].
  exact (error_set_iff_attempt_failed clock stamp_text retried.1 None
           retried.2 0 [] p' r st' retried_valid_refs retried_error_unset E).
Defined.

Lemma run_leaves_definitions_witness :
  (∀ b, b < next chain.2 →
        cells (heap (run_on chain None).2) b = cells chain.2 b) ∧
  fresh_defs (tasks chain.1) (heap (run_on chain None).2).
Proof.
  destruct (run_leaves_definitions clock stamp_text chain.1 None chain.2 0 []
              (run_on chain None).1 (run_on chain None).2
              chain_valid_refs (surjective_pairing _)) as (Hframe & Hfresh & _).
  split; [exact Hframe | exact (Hfresh chain_fresh)].
Defined.


(** * The further properties on the concrete pipelines *)

Lemma add_task_registers_witness :
  valid_refs (tasks chain.1) chain.2 ∧
  keys (tasks (add_task "B" (returns 9) None default_options
                 chain.1 chain.2).1) = ["A"; "B"; "C"] ∧
  (dependencies
     <$> task_of (tasks (add_task "B" (returns 9) None default_options
                           chain.1 chain.2).1)
           (add_task "B" (returns 9) None default_options chain.1 chain.2).2
           "B") = Some [] ∧
  task_of (tasks (add_task "B" (returns 9) None default_options
                    chain.1 chain.2).1)
          (add_task "B" (returns 9) None default_options chain.1 chain.2).2
          "C"
  = task_of (tasks chain.1) chain.2 "C".
Proof.
  split; [exact chain_valid_refs|].
  destruct (add_task_registers "B" (returns 9) None default_options
              chain.1 chain.2 chain_valid_refs) as (H1 & H2 & H3 & _).
  split; [|split].
  - rewrite H3. reflexivity.
  - rewrite H1. reflexivity.
  - apply H2. discriminate.
Defined.

Lemma daily_keys_NoDup : NoDup (keys (tasks daily.1)).
Proof. by_computation. Qed.

Lemma daily_valid_refs : valid_refs (tasks daily.1) daily.2.
Proof. by_computation. Qed.

Lemma daily_registered_after_deps l1 x l2 :
  keys (tasks daily.1) = l1 ++ x :: l2 →
  ∀ d, depends_on (tasks daily.1) daily.2 x d → d ∈ l1.
Proof.
  intros Hk d Hd.
  assert (Hall : ∀ y z, depends_on (tasks daily.1) daily.2 y z →
            (y = "calculate_metrics" ∧ z = "fetch_earnings")
            ∨ ((y = "store_results" ∨ y = "generate_alerts")
               ∧ z = "calculate_metrics")).
  { apply depends_on_Forall. vm_compute.
    repeat (apply Forall_cons; split); try apply Forall_nil_2; auto. }
  apply Hall in Hd. vm_compute in Hk.
  destruct l1 as [|y1 [|y2 [|y3 [|y4 l1]]]]; simplify_eq/=;
    rewrite ?elem_of_cons; naive_solver.
Qed.

Lemma execution_order_is_registration_order_witness :
  _get_execution_order daily.1 daily.2
  = Some ["fetch_earnings"; "calculate_metrics"; "store_results";
          "generate_alerts"].
Proof.
  exact (execution_order_is_registration_order daily.1 daily.2
           daily_keys_NoDup daily_registered_after_deps).
Defined.

Lemma retry_until_success_witness :
  status (cells (heap (run_loop clock retried_copies.2 ["T"]
                         retried_start).2) 1) = SUCCESS ∧
  result (cells (heap (run_loop clock retried_copies.2 ["T"]
                         retried_start).2) 1) = Some 7 ∧
  error (cells (heap (run_loop clock retried_copies.2 ["T"]
                        retried_start).2) 1) = Some "boom" ∧
  ∃ evs, stdout (run_loop clock retried_copies.2 ["T"] retried_start).2
         = stdout retried_start ++ evs ∧
         attempt_count "T" evs = 2.
Proof.
  destruct (retry_until_success clock retried_copies.2 "T" 1 [] retried_start
              2 (Some 7) (Some "boom")
              (run_loop clock retried_copies.2 ["T"] retried_start).1
              (run_loop clock retried_copies.2 ["T"] retried_start).2)
    as (H1 & H2 & _ & H4 & _ & H6).
  - exact (proj2 (proj2 (proj2 (proj2
             (copy_tasks_spec _ _ _ _ (surjective_pairing retried_copies)))))).
  - reflexivity.
  - apply not_elem_of_nil.
  - intros dep Hdep. vm_compute in Hdep. inversion Hdep.
  - by vm_compute.
  - apply surjective_pairing.
  - exact (conj H1 (conj H2 (conj H4 H6))).
Defined.

Lemma exhausted_valid_refs : valid_refs (tasks exhausted.1) exhausted.2.
Proof. by_computation. Qed.

Lemma attempts_bounded_by_retries_witness :
  ∃ evs, stdout (run_on exhausted None).2 = [] ++ evs ∧
    ∀ x a0, dict_get x (tasks exhausted.1) = Some a0 →
      attempt_count x evs ≤ Z.to_nat (retries (cells exhausted.2 a0)).
Proof.
  exact (attempts_bounded_by_retries clock stamp_text exhausted.1 None
           exhausted.2 0 [] (run_on exhausted None).1 (run_on exhausted None).2
           exhausted_valid_refs (surjective_pairing _)).
Defined.

Lemma execution_fields_consistent_witness :
  ∃ p' r st',
    run_on chain None = (Returned (p', r), st') ∧
    ∀ x t, task_of (run_tasks r) (heap st') x = Some t →
      (status t = SKIPPED →
         started_at t = None ∧ completed_at t = None ∧ result t = None) ∧
      (status t ≠ SKIPPED → is_Some (started_at t)) ∧
      (is_Some (completed_at t) ↔ status t = SUCCESS ∨ status t = FAILED) ∧
      (is_Some (result t) → status t = SUCCESS).
Proof.
  destruct (run_on chain None) as [[[p' r]|e] st'] eqn:E;
    [|by vm_compute in E].
  exists p', r, st'. split; [done|].
  exact (execution_fields_consistent clock stamp_text chain.1 None chain.2
           0 [] p' r st' chain_valid_refs chain_fresh E).
Defined.

Lemma chain_acyclic : acyclic (tasks chain.1) chain.2.
Proof.
  apply acyclic_by_rank with chain_rank. apply depends_on_Forall.
  by_computation.
Qed.

Lemma chain_defs x a :
  dict_get x (tasks chain.1) = Some a →
  status (cells chain.2 a) = PENDING ∧ (0 < retries (cells chain.2 a))%Z.
Proof. intros Hx. split; [by eapply chain_pending|by eapply chain_retries]. Qed.

Lemma skipped_iff_upstream_failure_witness :
  ∃ p' r st',
    run_on chain None = (Returned (p', r), st') ∧
    ∀ x, registered (tasks chain.1) x →
      (status_of (run_tasks r) (heap st') x = Some SKIPPED
       ↔ ∃ f, tc (depends_on (tasks chain.1) chain.2) x f ∧
              status_of (run_tasks r) (heap st') f = Some FAILED).
Proof.
  destruct (run_on chain None) as [[[p' r]|e] st'] eqn:E;
    [|by vm_compute in E].
  exists p', r, st'. split; [done|].
  exact (skipped_iff_upstream_failure clock stamp_text chain.1 None chain.2
           0 [] p' r st' chain_valid_refs chain_acyclic chain_deps_registered
           chain_defs E).
Defined.

Lemma daily_defs x a :
  dict_get x (tasks daily.1) = Some a →
  status (cells daily.2 a) = PENDING ∧ (0 < retries (cells daily.2 a))%Z ∧
  ∀ ar kw cx wx, ∃ v, (callable (cells daily.2 a) ar kw cx wx).1.1 = Return v.
Proof.
  apply (dict_get_Forall (fun _ b =>
    status (cells daily.2 b) = PENDING ∧ (0 < retries (cells daily.2 b))%Z ∧
    ∀ ar kw cx wx,
      ∃ v, (callable (cells daily.2 b) ar kw cx wx).1.1 = Return v)).
  vm_compute.
  repeat (apply Forall_cons; split;
          [split; [done|split; [done|intros; by eexists]]|]).
  apply Forall_nil_2.
Qed.

Lemma all_bodies_return_all_success_witness :
  ∃ p' r evs,
    (run_on daily None).1 = Returned (p', r) ∧
    run_status r = SUCCESS ∧
    stdout (run_on daily None).2 = [] ++ evs ∧
    ∀ x, registered (tasks daily.1) x →
      status_of (run_tasks r) (heap (run_on daily None).2) x = Some SUCCESS ∧
      attempt_count x evs = 1.
Proof.
  exact (all_bodies_return_all_success clock stamp_text daily.1 None daily.2
           0 [] (run_on daily None).1 (run_on daily None).2
           daily_keys_NoDup daily_valid_refs daily_acyclic
           daily_deps_registered daily_defs (surjective_pairing _)).
Defined.

Lemma run_record_shape_witness :
  ∃ p' r st',
    run_on chain None = (Returned (p', r), st') ∧
    run_id r = "chain_19700101_000000" ∧
    start_time r = 1 ∧
    keys (run_tasks r) = ["A"; "B"; "C"].
Proof.
  destruct (run_on chain None) as [[[p' r]|e] st'] eqn:E;
    [|by vm_compute in E].
  exists p', r, st'. split; [done|].
  destruct (run_record_shape clock stamp_text chain.1 None chain.2
              0 [] p' r st' chain_valid_refs E) as (H1 & H2 & _ & H4 & _).
  split; [rewrite H1; reflexivity|].
  split; [rewrite H2; reflexivity|]. rewrite H4. reflexivity.
Defined.

Lemma chain_keeps_context x a :
  dict_get x (tasks chain.1) = Some a → keeps_context (cells chain.2 a).
Proof.
  apply (dict_get_Forall (fun _ b => keeps_context (cells chain.2 b))).
  unfold keeps_context. vm_compute.
  repeat (apply Forall_cons; split; [done|]). apply Forall_nil_2.
Qed.

Lemma engine_never_writes_context_witness :
  context (run_on chain (Some {["seed" := 5]})).2 = {["seed" := 5]}.
Proof.
  exact (engine_never_writes_context clock stamp_text chain.1
           (Some {["seed" := 5]}) chain.2 0 []
           (run_on chain (Some {["seed" := 5]})).1
           (run_on chain (Some {["seed" := 5]})).2
           chain_valid_refs chain_keeps_context (surjective_pairing _)).
Defined.

Lemma run_pipeline_unknown_dag_witness :
  (trigger "weekly" daily_scheduler daily.2 0 [] ∅).1.1.1
  = Err (ValueError "Pipeline weekly not found") ∧
  (trigger "weekly" daily_scheduler daily.2 0 [] ∅).1.1.2
  = daily_scheduler ∧
  stdout (trigger "weekly" daily_scheduler daily.2 0 [] ∅).1.2 = [] ∧
  (trigger "weekly" daily_scheduler daily.2 0 [] ∅).2 = ∅.
Proof.
  destruct (run_pipeline_unknown_dag clock stamp_text iso_text "weekly" None
              daily_scheduler daily.2 0 [] ∅
              (trigger "weekly" daily_scheduler daily.2 0 [] ∅).1.1.1
              (trigger "weekly" daily_scheduler daily.2 0 [] ∅).1.1.2
              (trigger "weekly" daily_scheduler daily.2 0 [] ∅).1.2
              (trigger "weekly" daily_scheduler daily.2 0 [] ∅).2)
    as [Hiff Hsame]; [reflexivity|].
  destruct (proj2 Hiff) as [msg Hmsg]; [reflexivity|].
  destruct (Hsame msg Hmsg) as (-> & H1 & _ & _ & H2 & H3).
  exact (conj Hmsg (conj H1 (conj H2 H3))).
Defined.

Lemma trigger_returned
    (res : Result DAGRun * Scheduler * @St nat nat nat * gmap string RunRow) :
  res.1.1.1 = Ok (run_of res) →
  res = (Ok (run_of res), res.1.1.2, res.1.2, res.2).
Proof. destruct res as [[[c s] st] db]. simpl. by intros ->. Qed.

Lemma first_trigger_eq :
  first_trigger
  = (Ok (run_of first_trigger), first_trigger.1.1.2, first_trigger.1.2,
     first_trigger.2).
Proof. apply trigger_returned. by vm_compute. Qed.

Lemma second_trigger_eq :
  second_trigger
  = (Ok (run_of second_trigger), second_trigger.1.1.2, second_trigger.1.2,
     second_trigger.2).
Proof. apply trigger_returned. by vm_compute. Qed.

Lemma triggers_same_second :
  stamp_text (clock 0).1 = stamp_text (clock (world first_trigger.1.2)).1.
Proof. unfold stamp_text. reflexivity. Qed.

Lemma daily_scheduler_holds :
  dict_get "daily_earnings_update" (pipelines daily_scheduler) = Some daily.1.
Proof. reflexivity. Qed.

Lemma second_trigger_schedule :
  dict_get "daily_earnings_update" (schedules second_trigger.1.1.2)
  = Some (mkSchedule "0 6 * * *" None).
Proof. by vm_compute. Qed.

Lemma second_trigger_reachable :
  @reachable nat nat nat clock stamp_text iso_text second_trigger.1.1.2.
Proof.
  exact (@reach_run nat nat nat clock stamp_text iso_text
           "daily_earnings_update" None
           first_trigger.1.1.2 (heap first_trigger.1.2)
           (world first_trigger.1.2) (stdout first_trigger.1.2)
           first_trigger.2
           (@reach_run nat nat nat clock stamp_text iso_text
              "daily_earnings_update" None daily_scheduler daily.2 0 [] ∅
              (@reach_register nat nat nat clock stamp_text iso_text daily.1
                 (Some "0 6 * * *") new_scheduler
                 (@reach_new nat nat nat clock stamp_text iso_text)))).
Qed.

Lemma run_pipeline_saves_completed_runs_witness :
  ∃ row, first_trigger.2 !! run_id (run_of first_trigger) = Some row ∧
    col_dag_id row = "daily_earnings_update" ∧
    (col_status row = "success" ∨ col_status row = "failed") ∧
    keys (col_results row) = keys (tasks daily.1).
Proof.
  destruct (run_pipeline_saves_completed_runs clock stamp_text iso_text
              "daily_earnings_update" None daily_scheduler daily.2 0 [] ∅
              daily.1 (Ok (run_of first_trigger)) first_trigger.1.1.2
              first_trigger.1.2 first_trigger.2
              daily_scheduler_holds daily_keys_NoDup daily_valid_refs
              first_trigger_eq)
    as (_ & _ & _ & row & H1 & H2 & H3 & _ & H4 & _).
  exists row. exact (conj H1 (conj H2 (conj H3 H4))).
Defined.

Lemma schedules_never_marked_run_witness :
  @reachable nat nat nat clock stamp_text iso_text second_trigger.1.1.2 ∧
  ∃ sc, dict_get "daily_earnings_update" (schedules second_trigger.1.1.2)
        = Some sc ∧
        is_Some (dict_get "daily_earnings_update"
                   (pipelines second_trigger.1.1.2)) ∧
        cron sc ≠ "" ∧ last_run sc = None.
Proof.
  split; [exact second_trigger_reachable|].
  exists (mkSchedule "0 6 * * *" None).
  split; [exact second_trigger_schedule|].
  exact (schedules_never_marked_run clock stamp_text iso_text
           second_trigger.1.1.2 second_trigger_reachable
           "daily_earnings_update" (mkSchedule "0 6 * * *" None)
           second_trigger_schedule).
Defined.

Lemma same_second_runs_share_a_row_witness :
  run_id (run_of first_trigger) = run_id (run_of second_trigger) ∧
  second_trigger.2
  = save_pipeline_run iso_text (run_of second_trigger)
      (heap second_trigger.1.2) ∅ ∧
  ∃ p p2,
    dict_get "daily_earnings_update" (pipelines daily_scheduler) = Some p ∧
    dict_get "daily_earnings_update" (pipelines second_trigger.1.1.2)
    = Some p2 ∧
    runs p2 = runs p ++ [run_of first_trigger; run_of second_trigger].
Proof.
  exact (same_second_runs_share_a_row clock stamp_text iso_text
           "daily_earnings_update" None None daily_scheduler daily.2 0 [] ∅
           (run_of first_trigger) first_trigger.1.1.2 first_trigger.1.2
           first_trigger.2
           (run_of second_trigger) second_trigger.1.1.2 second_trigger.1.2
           second_trigger.2
           first_trigger_eq second_trigger_eq triggers_same_second).
Defined.

Lemma daily_pipeline_run_witness :
  ∃ p' r,
    (run clock stamp_text prebuilt.1 None prebuilt.2 0 []).1
    = Returned (p', r) ∧
    (status_of (run_tasks r)
       (heap (run clock stamp_text prebuilt.1 None prebuilt.2 0 []).2)
       "calculate_metrics" = Some SKIPPED
     ↔ status_of (run_tasks r)
         (heap (run clock stamp_text prebuilt.1 None prebuilt.2 0 []).2)
         "fetch_earnings" = Some FAILED).
Proof.
  destruct (daily_pipeline_run clock stamp_text (returns 1)
              (reads "fetch_earnings") (reads "calculate_metrics")
              (reads "calculate_metrics") 0 empty_heap None 0 []
              (run clock stamp_text prebuilt.1 None prebuilt.2 0 []).1
              (run clock stamp_text prebuilt.1 None prebuilt.2 0 []).2
              (surjective_pairing _)) as (p' & r & H1 & _ & H2 & _).
  exists p', r. exact (conj H1 H2).
Defined.

Lemma no_attempts_valid_refs : valid_refs (tasks no_attempts.1) no_attempts.2.
Proof. by_computation. Qed.

Lemma no_attempts_pending x a :
  dict_get x (tasks no_attempts.1) = Some a →
  status (cells no_attempts.2 a) = PENDING.
Proof.
  apply (dict_get_Forall (fun _ b => status (cells no_attempts.2 b) = PENDING)).
  by_computation.
Qed.

Lemma running_iff_no_attempts_witness :
  ∃ p' r st',
    run_on no_attempts None = (Returned (p', r), st') ∧
    status_of (run_tasks r) (heap st') "T" = Some RUNNING ∧
    run_status r = FAILED ∧
    ∃ evs, stdout st' = [] ++ evs ∧ attempt_count "T" evs = 0.
Proof.
  destruct (run_on no_attempts None) as [[[p' r]|e] st'] eqn:E;
    [|by vm_compute in E].
  exists p', r, st'. split; [done|].
  destruct (running_iff_no_attempts clock stamp_text no_attempts.1 None
              no_attempts.2 0 [] p' r st' no_attempts_valid_refs
              no_attempts_pending E "T" 0 eq_refl) as (_ & Hiff & Hrun).
  assert (Hr : status_of (run_tasks r) (heap st') "T" = Some RUNNING).
  { apply Hiff. split; [by vm_compute|].
    intros dep Hdep. vm_compute in Hdep. inversion Hdep. }
  destruct (Hrun Hr) as [H1 H2]. exact (conj Hr (conj H1 H2)).
Defined.
